(** * Masked inspection of dense tensors (package tensor)

    A shallow embedding of [dense.go] and [dense_mask_inspection.go]:
    the reshape entry point of [*Dense], the masked reduction engine
    ([MaskedReduce] and its four reduction callbacks) and the
    contiguous-region and edge finders.

    Go's [int] is modelled by [Z].  The integers computed from a tensor
    in memory are indices, counts and lengths bounded by the length of a
    buffer, and no machine arithmetic wraps on them.  The dimensions given
    to [Reshape] come from the caller: Go multiplies them in [int], and
    the product in [Z] is what Go computes when it fits an [int]
    ([fitsInt]).  A run-time panic of Go (index out of range, failed type
    assertion, explicit [panic]) is the outcome [Panic]. *)

From Stdlib Require Import ZArith Lia List Bool.
From stdpp Require Import base tactics option list numbers fin_maps gmap.

Local Open Scope Z_scope.

(** ** Outcomes of Go computations *)

Inductive outcome (A : Type) : Type :=
| Ret (a : A)      (* normal return *)
| Panic            (* run-time panic *)
| Fuel.            (* the loop bound of the model was hit; never for the bounds used below *)
Arguments Ret {A} a.
Arguments Panic {A}.
Arguments Fuel {A}.

(** [outcome] is a monad: a panic ends the computation. *)
#[global] Instance outcome_ret : MRet outcome := fun A a => Ret a.
#[global] Instance outcome_bind : MBind outcome := fun A B f m =>
  match m with
  | Ret a => f a
  | Panic => Panic
  | Fuel => Fuel
  end.

(** The image of a result. *)
#[global] Instance outcome_fmap : FMap outcome := fun A B f m =>
  match m with
  | Ret a => Ret (f a)
  | Panic => Panic
  | Fuel => Fuel
  end.

(** [l[i]] of Go: defined for [0 <= i < len(l)], a panic otherwise. *)
Definition index {A : Type} (l : list A) (i : Z) : outcome A :=
  if decide (0 ≤ i) then
    match l !! Z.to_nat i with
    | Some a => Ret a
    | None => Panic
    end
  else Panic.

(** [l[i] = x] of Go. *)
Definition assign {A : Type} (l : list A) (i : Z) (x : A) : outcome (list A) :=
  if decide (0 ≤ i ∧ i < Z.of_nat (length l)) then Ret (<[Z.to_nat i := x]> l) else Panic.

Arguments index : simpl never.
Arguments assign : simpl never.

(** ** Data model *)

Abbreviation Shape := (list Z).

(** The access pattern [AP]: shape, data strides and mask strides. *)
Record AP : Type := mkAP {
  shape : Shape;
  strides : list Z;
  maskStrides : list Z
}.

(** The element types used by the inspection operations. *)
Inductive Dtype : Type := Bool | Int.

(** A [*Dense]: a location of the store. *)
Abbreviation loc := positive.

(** A value held in an [interface{}]: a [bool], an [int] or a [*Dense]. *)
Inductive Value : Type :=
| VBool (b : bool)
| VInt (n : Z)
| VDense (p : loc).

(** [rs{start, end, step}]; a [Slice] is an [rs] or [nil]. *)
Record rs : Type := mkRS { rs_start : Z; rs_end : Z; rs_step : Z }.
Abbreviation Slice := (option rs).

(** [makeRS(start, end)]: the test file shows [makeRS(0, 100)] to be
    [rs{0, 100, 1}]. *)
Definition makeRS (s e : Z) : Slice := Some (mkRS s e 1).

(** [Dense]: the embedded [*AP], the element buffer seen through [hdr]
    ([None] when [data] is nil; [hdr.Len] is its length), the element
    type [t], the backup access pattern [old], the tensor this one is a
    view of, and the mask slice ([[]] when there is none). *)
Record Dense : Type := mkDense {
  ap : AP;
  data : option (list Value);
  t_dtype : Dtype;
  old : option AP;
  viewOf : option loc;
  mask : list bool
}.

(** [*Dense] values live in a store; a pointer is a location. *)
Abbreviation Store := (gmap positive Dense).

(** [t.hdr.Len]. *)
Definition hdrLen (d : Dense) : Z :=
  match data d with
  | Some v => Z.of_nat (length v)
  | None => 0
  end.

(** ** Shape and access-pattern helpers *)

(** Modelled from the spec: [Shape.TotalSize] / [AP.Size] are not among the
    sources; the spec has "size() (element count from shape)".  The
    product is taken in [Z]; Go takes it in [int], with the same result
    when the product fits an [int]. *)
Definition TotalSize (s : Shape) : Z := foldr Z.mul 1 s.
Arguments TotalSize : simpl never.

(** The values of Go's [int], 64 bits wide. *)
Definition fitsInt (z : Z) : Prop := - 2 ^ 63 ≤ z < 2 ^ 63.

(** Modelled from the spec: [AP.Size] is not among the sources; it is the
    element count of the shape. *)
Definition Size (d : Dense) : Z := TotalSize (shape (ap d)).

(** Modelled from the spec: [Shape.IsScalar] is not among the sources.
    [fix] in dense.go calls [SetShape()] with no dimension "scalar" and
    treats a buffer of one element as one; a scalar is the empty shape or
    the shape (1). *)
Definition IsScalarShape (s : Shape) : bool :=
  match s with
  | [] => true
  | [n] => bool_decide (n = 1)
  | _ => false
  end.

(** Modelled from the spec: [AP.IsScalar] is not among the sources; it is
    the test above on the shape of the tensor. *)
Definition IsScalar (d : Dense) : bool := IsScalarShape (shape (ap d)).

(** Modelled from the spec: [Shape.IsVector] is not among the sources.
    The spec calls the early-return case "rank-1"; the test file calls the
    shape (1, 12) the "vector case" and takes [MaskedAny(0)] as a [bool]
    there, so a row (1, n) is a vector as well as a one-dimensional shape
    (n); a column (n, 1) is taken symmetrically. *)
Definition IsVectorShape (s : Shape) : bool :=
  match s with
  | [n] => bool_decide (1 < n)
  | [m; n] => bool_decide (m = 1 ∧ 1 < n) || bool_decide (n = 1 ∧ 1 < m)
  | _ => false
  end.

(** Modelled from the spec: [AP.IsVector] is not among the sources; it is
    the test above on the shape of the tensor. *)
Definition IsVector (d : Dense) : bool := IsVectorShape (shape (ap d)).

(** Modelled from the spec: [AP.Dims] is not among the sources; the spec
    has "rank", the number of dimensions of the shape. *)
Definition Dims (d : Dense) : Z := Z.of_nat (length (shape (ap d))).

(** Modelled from the spec: [IsMasked] is not among the sources;
    "isMasked(): true iff a mask buffer is present and has length >= 1". *)
Definition IsMasked (d : Dense) : bool := negb (bool_decide (mask d = [])).

(** Modelled from the spec: [MaskSize] is not among the sources; the spec
    has "maskSize()", the length of the mask buffer. *)
Definition MaskSize (d : Dense) : Z := Z.of_nat (length (mask d)).

(** Modelled from the spec: "Offset of logical coordinate c into the data
    buffer is Σ c[i]*strides[i]; offset into the mask buffer uses
    mask_strides". *)
Definition offsetOf (st : list Z) (c : list Z) : Z :=
  foldr Z.add 0 (zip_with Z.mul c st).

(** Modelled from the spec: "the canonical row-major layout" of a shape. *)
Fixpoint calcStrides (s : Shape) : list Z :=
  match s with
  | [] => []
  | _ :: rest => TotalSize rest :: calcStrides rest
  end.

(** Modelled from the spec: the logical coordinates of a shape in
    row-major order, as the iterators produce them. *)
Fixpoint coords (s : Shape) : list (list Z) :=
  match s with
  | [] => [[]]
  | n :: rest => i ← seqZ 0 n; (cons i) <$> coords rest
  end.

(** ** Errors *)

Inductive error : Type :=
| methodNYI        (* "%q not yet implemented for %v": Reshape on views *)
| emptyTensor      (* sanity: neither shape nor data *)
| shapeMismatch    (* sanity: element count and data length differ *)
| dimMismatch      (* a coordinate or a list of ranges of the wrong length *)
| noopError.       (* an exhausted iterator *)

(** ** Slicing (not among the sources) *)

(** Modelled from the spec: [Dense.Slice] and [AP.S] are not among the
    sources.  "sliceInto(ranges) -> AccessPattern producing a derived
    pattern whose strides are unchanged but whose shape shrinks to each
    range's length and whose base offset advances by range.start *
    strides[dim]"; [nil] is the whole dimension; the probe range [[0, 0)]
    of [MaskedReduce] "fixes the reduction axis to a single index" and
    that axis leaves the shape ("removing the reduction axis from the input
    shape").  [sliceDim n s] is the first index selected in a dimension of
    size [n] and the length kept, [None] for a dimension fixed to one index;
    only unit steps occur ([makeRS]). *)
Definition sliceDim (n : Z) (s : Slice) : option (Z * option Z) :=
  match s with
  | None => Some (0, Some n)
  | Some r =>
      if bool_decide (rs_step r = 1 ∧ 0 ≤ rs_start r ∧ rs_start r ≤ rs_end r
                      ∧ rs_end r ≤ n ∧ rs_start r < n)
      then Some (rs_start r,
                 if bool_decide (rs_start r = rs_end r) then None
                 else Some (rs_end r - rs_start r))
      else None
  end.

Arguments sliceDim : simpl never.
Arguments makeRS : simpl never.

(** The derived access pattern with the two base offsets (data, mask). *)
Record sliced : Type := mkSliced {
  sl_ap : AP;
  sl_start : Z;
  sl_mstart : Z
}.

(** Modelled from the spec: [AP.S] is not among the sources.  One range per
    dimension; a kept dimension keeps its stride and its mask stride, and
    the first index selected moves the two base offsets. *)
Fixpoint sliceAP (sh st ms : list Z) (sl : list Slice) : option sliced :=
  match sh, st, ms, sl with
  | [], [], [], [] => Some (mkSliced (mkAP [] [] []) 0 0)
  | n :: sh', s :: st', m :: ms', r :: sl' =>
      '(b, keep) ← sliceDim n r;
      rest ← sliceAP sh' st' ms' sl';
      let a := sl_ap rest in
      Some (mkSliced
              match keep with
              | Some len => mkAP (len :: shape a) (s :: strides a) (m :: maskStrides a)
              | None => a
              end
              (b * s + sl_start rest) (b * m + sl_mstart rest))
  | _, _, _, _ => None
  end.

(** One more than the largest offset of a coordinate: the length of the
    buffer window a view needs. *)
Definition extent (sh st : list Z) : Z :=
  1 + foldr Z.add 0 (zip_with (fun n s => (n - 1) * s) sh st).

(** [l[start : start+len]], cut short at the end of [l]. *)
Definition window {A : Type} (start len : Z) (l : list A) : list A :=
  take (Z.to_nat len) (drop (Z.to_nat start) l).

(** Modelled from the spec: "slice(ranges...) -> Tensor: returns a new
    tensor sharing the data buffer, with a derived AccessPattern; marks the
    result as a view of the source.  Constraint: number of ranges must be 0
    or equal to dimensionality".  The buffers of the view are the windows of
    the buffers of [d] that its coordinates address, as Go sub-slices are;
    an error is [None]. *)
Definition Dense_Slice (t : loc) (d : Dense) (slices : list Slice) : option Dense :=
  let a := ap d in
  let slices := match slices with
                | [] => replicate (length (shape a)) None
                | _ => slices
                end in
  r ← sliceAP (shape a) (strides a) (maskStrides a) slices;
  let a' := sl_ap r in
  Some (mkDense a'
          (window (sl_start r) (extent (shape a') (strides a')) <$> data d)
          (t_dtype d) None (Some t)
          (window (sl_mstart r) (extent (shape a') (maskStrides a')) (mask d))).

(** ** Iterators (not among the sources) *)

(** Modelled from the spec: [FlatIterator] "produces a lazy, finite
    sequence of logical coordinates in row-major order, one per call to
    advance"; the state is the sequence still to come. *)
Definition NewFlatIterator (a : AP) : list (list Z) := coords (shape a).

(** Modelled from the spec: [MultIterator] is the mask-aware traversal
    of the flattened tensor; its state is the elements still to come, each
    a flat data index with its mask-buffer index, and "the last computed
    mask-buffer index". *)
Record MultIterator : Type := mkMultIterator {
  it_mask : list bool;
  it_rest : list (Z * Z);
  it_last : Z
}.

(** Modelled from the spec: [MultIteratorFromDense] is not among the
    sources.  The iterator starts before the first element and walks the
    coordinates of the shape in row-major order; of every element it
    carries "the flat data index", the offset of its coordinate under the
    strides, and the mask-buffer index, its offset under the mask
    strides. *)
Definition MultIteratorFromDense (d : Dense) : MultIterator :=
  mkMultIterator (mask d)
    ((fun c => (offsetOf (strides (ap d)) c, offsetOf (maskStrides (ap d)) c))
       <$> coords (shape (ap d))) 0.

(** Modelled from the spec: "setReverse(): switches traversal direction to
    start-from-the-end and decrement; must be set before the first
    advance". *)
Definition SetReverse (it : MultIterator) : MultIterator :=
  mkMultIterator (it_mask it) (reverse (it_rest it)) (it_last it).

(** Modelled from the spec: "advance() -> (coord, Err): plain next
    coordinate; Err = Exhausted at the end". *)
Definition Next (it : MultIterator) : (Z * option error) * MultIterator :=
  match it_rest it with
  | [] => ((-1, Some noopError), it)
  | (i, m) :: r => ((i, None), mkMultIterator (it_mask it) r m)
  end.

(** Modelled from the spec: "nextValid(): advances until the element at
    the current mask index is unmasked (mask[i] == false); returns the flat
    data index of the first valid element found, Exhausted/sentinel -1 if
    none remain"; "nextInvalid(): symmetric, seeking masked elements";
    "when the mask buffer is absent, the iterator must behave as if every
    element is valid".  [seek want] looks for an element whose mask entry
    is [want]. *)
Fixpoint seek (want : bool) (msk : list bool) (rest : list (Z * Z)) (last : Z)
  : outcome ((Z * option error) * (list (Z * Z) * Z)) :=
  match rest with
  | [] => Ret ((-1, Some noopError), ([], last))
  | (i, m) :: r =>
      b ← match msk with
          | [] => Ret false
          | _ => index msk m
          end;
      if bool_decide (b = want) then Ret ((i, None), (r, m))
      else seek want msk r m
  end.

(** [seek] on the state of an iterator. *)
Definition seekIt (want : bool) (it : MultIterator)
  : outcome ((Z * option error) * MultIterator) :=
  '(r, (rest, last)) ← seek want (it_mask it) (it_rest it) (it_last it);
  Ret (r, mkMultIterator (it_mask it) rest last).

(** Modelled from the spec: [NextValid] is not among the sources; it seeks
    an element that is not masked. *)
Definition NextValid (it : MultIterator) := seekIt false it.

(** Modelled from the spec: [NextInvalid] is not among the sources; it
    seeks a masked element. *)
Definition NextInvalid (it : MultIterator) := seekIt true it.

(** Modelled from the spec: "lastMaskIndex(dim): returns the mask-buffer
    index last computed". *)
Definition LastMaskIndex (it : MultIterator) (dim : Z) : Z := it_last it.

(** ** The store of [*Dense] objects *)

(** A method on [*Dense] takes the store and returns a result with the
    store it leaves. *)
Definition M (A : Type) : Type := Store → outcome (A * Store).

(** [*t]: a nil or dangling pointer panics. *)
Definition deref (t : loc) (σ : Store) : outcome Dense :=
  match σ !! t with
  | Some d => Ret d
  | None => Panic
  end.

(** ** dense.go *)

(** Modelled from the spec: [AP.SetShape] is not among the sources;
    "reassigns shape/strides to the canonical row-major layout for
    newShape". *)
Definition SetShape (a : AP) (s : list Z) : AP :=
  mkAP s (calcStrides s) (maskStrides a).

(** [setShape]: [unlock], [SetShape], [lock] on the receiver. *)
Definition setShape (t : loc) (s : list Z) : M unit := fun σ =>
  d ← deref t σ;
  Ret (tt, <[t := mkDense (SetShape (ap d) s) (data d) (t_dtype d) (old d)
                    (viewOf d) (mask d)]> σ).

(** [sanity]: the first test needs a nil shape and a nil data pointer; a
    shape is nil here when it is empty.  [t.hdr] is nil with [data], and
    [t.hdr.Len] then panics. *)
Definition sanity (d : Dense) : outcome (option error) :=
  if bool_decide (shape (ap d) = []) && bool_decide (data d = None)
  then Ret (Some emptyTensor)
  else
    match data d with
    | None => Panic
    | Some v =>
        let size := Z.of_nat (length v) in
        let expected := Size d in
        if bool_decide (viewOf d = None) && negb (bool_decide (size = expected))
           && negb (IsScalar d)
        then Ret (Some shapeMismatch)
        else Ret None
    end.

(** [reshape]. *)
Definition reshape (t : loc) (dims : list Z) : M (option error) := fun σ =>
  '(_, σ) ← setShape t dims σ;
  d ← deref t σ;
  e ← sanity d;
  Ret (e, σ).

(** Modelled from the spec: the argument-less [Dense.Transpose] is not
    among the sources; it materializes a pending transposition, "copy a
    view's logically-addressed data into a freshly owned,
    canonically-strided buffer", and drops the backup access pattern. *)
Definition Transpose (t : loc) : M unit := fun σ =>
  d ← deref t σ;
  let a := ap d in
  let moved v := omap (fun c => v !! Z.to_nat (offsetOf (strides a) c))
                      (coords (shape a)) in
  Ret (tt, <[t := mkDense (mkAP (shape a) (calcStrides (shape a)) (maskStrides a))
                    (moved <$> data d) (t_dtype d) None (viewOf d) (mask d)]> σ).

(** [Reshape]. *)
Definition Reshape (t : loc) (dims : list Z) : M (option error) := fun σ =>
  d ← deref t σ;
  if bool_decide (viewOf d ≠ None) then Ret (Some methodNYI, σ)
  else
    '(_, σ) ← (if bool_decide (old d ≠ None) then Transpose t σ else Ret (tt, σ));
    reshape t dims σ.

(** The zero value of an element type. *)
Definition zeroValue (dt : Dtype) : Value :=
  match dt with
  | Bool => VBool false
  | Int => VInt 0
  end.

(** [NewDense] = [recycledDense]: [recycledDenseNoFix] takes a buffer of
    [shape.TotalSize()] elements, or of one for a scalar shape, and sets the
    shape; [sanity] must pass or the constructor panics.  ([borrowDense]
    and [makeArray] are not among the sources: the buffer is fresh and
    holds zero values, and the object is new.) *)
Definition NewDense (dt : Dtype) (s : Shape) : M loc := fun σ =>
  let size := if IsScalarShape s then 1 else TotalSize s in
  let d := mkDense (mkAP s (calcStrides s) (calcStrides s))
             (Some (replicate (Z.to_nat size) (zeroValue dt))) dt None None [] in
  err ← sanity d;
  match err with
  | Some _ => Panic
  | None => let p := fresh (dom σ) in Ret (p, <[p := d]> σ)
  end.

(** Is [c] a coordinate of the shape [s]? *)
Fixpoint inShape (s : Shape) (c : list Z) : bool :=
  match s, c with
  | [], [] => true
  | n :: s', i :: c' => bool_decide (0 ≤ i < n) && inShape s' c'
  | _, _ => false
  end.

(** Modelled from the spec: [Dense.SetAt] is not among the sources;
    "writing its result into the output tensor at that coordinate".  A
    coordinate outside the shape is an error and nothing is written. *)
Definition SetAt (t : loc) (v : Value) (coord : list Z) : M (option error) := fun σ =>
  d ← deref t σ;
  if inShape (shape (ap d)) coord then
    let at_ := Z.to_nat (offsetOf (strides (ap d)) coord) in
    Ret (None, <[t := mkDense (ap d) (insert at_ v <$> data d) (t_dtype d)
                         (old d) (viewOf d) (mask d)]> σ)
  else Ret (Some dimMismatch, σ).

(** The element of a tensor at a coordinate of its shape. *)
Definition At (d : Dense) (coord : list Z) : option Value :=
  if inShape (shape (ap d)) coord then
    v ← data d; v !! Z.to_nat (offsetOf (strides (ap d)) coord)
  else None.

(** ** dense.go: construction *)

(** Modelled from the spec: [makeArray] is not among the sources; the
    allocator "supplies a new Dense tensor given a dtype tag and shape".
    The receiver gets a buffer of [size] zero values of its element type,
    as Go's [make] gives; a negative size panics. *)
Definition makeArray (t : loc) (size : Z) : M unit := fun σ =>
  d ← deref t σ;
  if bool_decide (size < 0) then Panic
  else Ret (tt, <[t := mkDense (ap d)
                         (Some (replicate (Z.to_nat size) (zeroValue (t_dtype d))))
                         (t_dtype d) (old d) (viewOf d) (mask d)]> σ).

(** The loop [for i := 0; i < size; i++ { t.mask[i] = false }] of
    [makeMask], over the indices still to visit. *)
Fixpoint makeMask_loop (ix : list Z) (m : list bool) : outcome (list bool) :=
  match ix with
  | [] => Ret m
  | i :: ix' => m ← assign m i false; makeMask_loop ix' m
  end.

(** [makeMask].  A Go slice has a capacity: [spare] is what the backing
    array of [t.mask] holds past [len(t.mask)], so that [cap(t.mask)] is
    [len(t.mask) + len(spare)].  [t.mask[:size]] keeps what the array
    holds and panics beyond the capacity. *)
Definition makeMask (t : loc) (spare : list bool) (size : Z) : M unit := fun σ =>
  d ← deref t σ;
  if bool_decide (size < 1) || bool_decide (Z.of_nat (length (mask d)) = size)
  then Ret (tt, σ)
  else
    let array := mask d ++ spare in
    let array := if bool_decide (Z.of_nat (length array) < size)
                 then replicate (Z.to_nat size) false
                 else array in
    if bool_decide (Z.of_nat (length array) < size) then Panic
    else
      m ← makeMask_loop (seqZ 0 size) (take (Z.to_nat size) array);
      Ret (tt, <[t := mkDense (ap d) (data d) (t_dtype d) (old d) (viewOf d) m]> σ).

(** The loop [for i, s := range t.maskStrides] of [fix]: the size of the
    mask is [t.shape[i] * s] for the first mask stride [s > 0], and 0 if
    there is none. *)
Fixpoint fix_maskSize (sh : Shape) (i : Z) (ms : list Z) : outcome Z :=
  match ms with
  | [] => Ret 0
  | s :: ms' =>
      if bool_decide (0 < s) then n ← index sh i; Ret (n * s)
      else fix_maskSize sh (i + 1) ms'
  end.

(** [fix] ([fix] is a keyword of Rocq).  The access pattern of a tensor of
    the model is never nil, and its element type is [Bool] or [Int], never
    the zero [Dtype{}]; a shape is nil when it is empty, as in [sanity];
    [lock] does not show in the model.  [spare] is the spare capacity of
    [t.mask], see [makeMask]. *)
Definition Dense_fix (t : loc) (spare : list bool) : M unit := fun σ =>
  d ← deref t σ;
  let SetShape_ s : outcome (unit * Store) :=
    Ret (tt, <[t := mkDense (SetShape (ap d) s) (data d) (t_dtype d) (old d)
                      (viewOf d) (mask d)]> σ) in
  '(_, σ) ← (if IsScalar d && bool_decide (data d = None) then makeArray t 1 σ
             else if bool_decide (shape (ap d) = []) && negb (bool_decide (data d = None))
             then
               let size := hdrLen d in
               if bool_decide (size = 1) then SetShape_ [] else SetShape_ [size]
             else if bool_decide (data d = None) then
               let size := TotalSize (shape (ap d)) in
               makeArray t size σ
             else Ret (tt, σ));
  d ← deref t σ;
  '(_, σ) ← (if IsMasked d then
               size ← fix_maskSize (shape (ap d)) 0 (maskStrides (ap d));
               makeMask t spare size σ
             else Ret (tt, σ));
  Ret (tt, σ).

(** [newDense(dt, size)] of dense.go (the name [newDense] is taken below
    by the value [NewDense] allocates): [new(Dense)] with a new access
    pattern, [setShape(size)], [fix], and a panic if [sanity] fails. *)
Definition newDense' (dt : Dtype) (size : Z) : M loc := fun σ =>
  let d := fresh (dom σ) in
  let σ := <[d := mkDense (mkAP [] [] []) None dt None None []]> σ in
  '(_, σ) ← setShape d [size] σ;
  '(_, σ) ← Dense_fix d [] σ;
  x ← deref d σ;
  err ← sanity x;
  match err with
  | Some _ => Panic
  | None => Ret (d, σ)
  end.

(** ** dense_mask_inspection.go *)

(** [type maskedReduceFn func(Tensor) interface{}]: the callback reads the
    tensor it is given. *)
Definition maskedReduceFn : Type := Dense → outcome Value.

(** The inner loop of [MaskedReduce], [for d := range slices]: position
    [d] becomes [nil] on the reduction axis and [makeRS(coord[k],
    coord[k]+1)] elsewhere, [k] counting the positions filled. *)
Fixpoint MaskedReduce_slices (ax : Z) (coord : list Z) (d k : Z)
    (slices : list Slice) : outcome (list Slice) :=
  match slices with
  | [] => Ret []
  | _ :: rest =>
      if bool_decide (d ≠ ax) then
        c ← index coord k;
        rest' ← MaskedReduce_slices ax coord (d + 1) (k + 1) rest;
        Ret (makeRS c (c + 1) :: rest')
      else
        rest' ← MaskedReduce_slices ax coord (d + 1) k rest;
        Ret (None :: rest')
  end.

(** The outer loop of [MaskedReduce], [for _, err := it.Next(); err ==
    nil; _, err = it.Next()]: one round per coordinate [it.Coord()] of the
    iterator. *)
Fixpoint MaskedReduce_loop (t : loc) (fn : maskedReduceFn) (ax : Z)
    (retVal : loc) (slices : list Slice) (it : list (list Z)) : M unit := fun σ =>
  match it with
  | [] => Ret (tt, σ)
  | coord :: it' =>
      slices ← MaskedReduce_slices ax coord 0 0 slices;
      d ← deref t σ;
      match Dense_Slice t d slices with
      | None => Panic                       (* tt.( *Dense) on a nil Tensor *)
      | Some ts =>
          v ← fn ts;
          '(_, σ) ← SetAt retVal v coord σ;
          MaskedReduce_loop t fn ax retVal slices it' σ
      end
  end.

(** [MaskedReduce]. *)
Definition MaskedReduce (t : loc) (retType : Dtype) (fn : maskedReduceFn)
    (axis : list Z) : M Value := fun σ =>
  d ← deref t σ;
  if bool_decide (length axis = 0%nat) || IsVector d then
    v ← fn d; Ret (v, σ)
  else
    ax ← index axis 0;
    if bool_decide (Dims d ≤ ax) then Ret (VInt (-1), σ)
    else
      let slices := replicate (Z.to_nat (Dims d)) (None : Slice) in
      slices ← assign slices ax (makeRS 0 0);
      match Dense_Slice t d slices with
      | None => Panic
      | Some ts =>
          '(retVal, σ) ← NewDense retType (shape (ap ts)) σ;
          r ← deref retVal σ;
          let it := NewFlatIterator (ap r) in
          d ← deref t σ;
          n ← index (shape (ap d)) ax;
          slices ← assign slices ax (makeRS 0 n);
          '(_, σ) ← MaskedReduce_loop t fn ax retVal slices it σ;
          Ret (VDense retVal, σ)
      end.

(** The scan [for i := 0; i < t.MaskSize(); i++] of [doMaskAll] over the
    indices still to visit. *)
Fixpoint doMaskAll_scan (m : list bool) (ix : list Z) : outcome Value :=
  match ix with
  | [] => Ret (VBool true)
  | i :: ix' =>
      b ← index m i;
      if negb b then Ret (VBool false) else doMaskAll_scan m ix'
  end.

(** The loop [for _, err := it.Next(); ...] of [doMaskAll]. *)
Fixpoint doMaskAll_loop (fuel : nat) (m : list bool) (it : MultIterator)
  : outcome Value :=
  match fuel with
  | O => Fuel
  | S fuel =>
      let '((_, err), it) := Next it in
      match err with
      | Some _ => Ret (VBool true)
      | None =>
          let i := LastMaskIndex it 0 in
          b ← index m i;
          if negb b then Ret (VBool false) else doMaskAll_loop fuel m it
      end
  end.

(** [doMaskAll]; the only [Tensor] of the model is [*Dense], the
    [default] case of the type switch does not arise. *)
Definition doMaskAll (t : Dense) : outcome Value :=
  if negb (IsMasked t) then Ret (VBool false)
  else
    let m := mask t in
    if bool_decide (MaskSize t = Size t) then
      doMaskAll_scan m (seqZ 0 (MaskSize t))
    else
      let it := MultIteratorFromDense t in
      doMaskAll_loop (S (length (it_rest it))) m it.

(** The scan [for i := 0; i < t.MaskSize(); i++] of [doMaskAny]. *)
Fixpoint doMaskAny_scan (m : list bool) (ix : list Z) : outcome Value :=
  match ix with
  | [] => Ret (VBool false)
  | i :: ix' =>
      b ← index m i;
      if (b : bool) then Ret (VBool true) else doMaskAny_scan m ix'
  end.

(** The loop [for _, err := it.NextInvalid(); ...] of [doMaskAny]. *)
Fixpoint doMaskAny_loop (fuel : nat) (m : list bool) (it : MultIterator)
  : outcome Value :=
  match fuel with
  | O => Fuel
  | S fuel =>
      '((_, err), it) ← NextInvalid it;
      match err with
      | Some _ => Ret (VBool false)
      | None =>
          let i := LastMaskIndex it 0 in
          b ← index m i;
          if (b : bool) then Ret (VBool true) else doMaskAny_loop fuel m it
      end
  end.

(** [doMaskAny]. *)
Definition doMaskAny (t : Dense) : outcome Value :=
  if negb (IsMasked t) then Ret (VBool false)
  else
    let m := mask t in
    if bool_decide (MaskSize t = Size t) then
      doMaskAny_scan m (seqZ 0 (MaskSize t))
    else
      let it := MultIteratorFromDense t in
      doMaskAny_loop (S (length (it_rest it))) m it.

(** The scan [for i := 0; i < t.MaskSize(); i++] of [doMaskCt]. *)
Fixpoint doMaskCt_scan (m : list bool) (ix : list Z) (count : Z) : outcome Value :=
  match ix with
  | [] => Ret (VInt count)
  | i :: ix' =>
      b ← index m i;
      doMaskCt_scan m ix' (if (b : bool) then count + 1 else count)
  end.

(** The loop [for _, err := it.NextInvalid(); ...] of [doMaskCt]. *)
Fixpoint doMaskCt_loop (fuel : nat) (it : MultIterator) (j : Z) : outcome Value :=
  match fuel with
  | O => Fuel
  | S fuel =>
      '((_, err), it) ← NextInvalid it;
      match err with
      | Some _ => Ret (VInt j)
      | None => doMaskCt_loop fuel it (j + 1)
      end
  end.

(** [doMaskCt]. *)
Definition doMaskCt (t : Dense) : outcome Value :=
  if negb (IsMasked t) then Ret (VInt 0)
  else if bool_decide (MaskSize t = Size t) then
    doMaskCt_scan (mask t) (seqZ 0 (MaskSize t)) 0
  else
    let it := MultIteratorFromDense t in
    doMaskCt_loop (S (length (it_rest it))) it 0.

(** [doNonMaskCt]; [doMaskCt(t).(int)] panics on a value that is no [int]. *)
Definition doNonMaskCt (t : Dense) : outcome Value :=
  if negb (IsMasked t) then Ret (VInt (Size t))
  else
    v ← doMaskCt t;
    match v with
    | VInt c => Ret (VInt (Size t - c))
    | _ => Panic
    end.

(** [(t *Dense) MaskedAny(axis ...int)]. *)
Definition MaskedAny (t : loc) (axis : list Z) : M Value :=
  MaskedReduce t Bool doMaskAny axis.

(** [(t *Dense) MaskedAll(axis ...int)]. *)
Definition MaskedAll (t : loc) (axis : list Z) : M Value :=
  MaskedReduce t Bool doMaskAll axis.

(** [(t *Dense) MaskedCount(axis ...int)]. *)
Definition MaskedCount (t : loc) (axis : list Z) : M Value :=
  MaskedReduce t Int doMaskCt axis.

(** [(t *Dense) NonMaskedCount(axis ...int)]. *)
Definition NonMaskedCount (t : loc) (axis : list Z) : M Value :=
  MaskedReduce t Int doNonMaskCt axis.

(** The loop of [FlatNotMaskedContiguous] ([first = false]: [NextValid]
    then [NextInvalid]) and of [FlatMaskedContiguous] ([first = true]: the
    other way round), [for errV == nil && errI == nil]. *)
Fixpoint contiguous_loop (fuel : nat) (first : bool) (size : Z)
    (it : MultIterator) (sliceList : list Slice) : outcome (list Slice) :=
  match fuel with
  | O => Fuel
  | S fuel =>
      '((start, errV), it) ← seekIt first it;
      '((end_, errI), it) ← seekIt (negb first) it;
      if bool_decide (start < 0) && bool_decide (end_ < 0) then Ret sliceList
      else
        let end_ := if bool_decide (end_ < 0) then size else end_ in
        let sliceList := sliceList ++ [makeRS start end_] in
        if bool_decide (errV = None) && bool_decide (errI = None)
        then contiguous_loop fuel first size it sliceList
        else Ret sliceList
  end.

(** [FlatNotMaskedContiguous]. *)
Definition FlatNotMaskedContiguous (t : loc) : M (list Slice) := fun σ =>
  d ← deref t σ;
  let sliceList := [] in
  let it := MultIteratorFromDense d in
  r ← contiguous_loop (S (length (it_rest it))) false (Size d) it sliceList;
  Ret (r, σ).

(** [FlatMaskedContiguous]. *)
Definition FlatMaskedContiguous (t : loc) : M (list Slice) := fun σ =>
  d ← deref t σ;
  let sliceList := [] in
  let it := MultIteratorFromDense d in
  r ← contiguous_loop (S (length (it_rest it))) true (Size d) it sliceList;
  Ret (r, σ).

(** [FlatNotMaskedEdges]. *)
Definition FlatNotMaskedEdges (t : loc) : M (Z * Z) := fun σ =>
  d ← deref t σ;
  if negb (IsMasked d) then Ret ((0, Size d - 1), σ)
  else
    let itF := MultIteratorFromDense d in
    let itB := MultIteratorFromDense d in
    let itB := SetReverse itB in
    '((start, _), _) ← NextValid itF;
    '((end_, _), _) ← NextValid itB;
    Ret ((start, end_), σ).

(** [FlatMaskedEdges]. *)
Definition FlatMaskedEdges (t : loc) : M (Z * Z) := fun σ =>
  d ← deref t σ;
  if negb (IsMasked d) then Ret ((0, Size d - 1), σ)
  else
    let itF := MultIteratorFromDense d in
    let itB := MultIteratorFromDense d in
    let itB := SetReverse itB in
    '((start, _), _) ← NextInvalid itF;
    '((end_, _), _) ← NextInvalid itB;
    Ret ((start, end_), σ).

(** [ClumpMasked] is [FlatMaskedContiguous]. *)
Definition ClumpMasked (t : loc) : M (list Slice) := FlatMaskedContiguous t.

(** [ClumpUnmasked] is [FlatNotMaskedContiguous]. *)
Definition ClumpUnmasked (t : loc) : M (list Slice) := FlatNotMaskedContiguous t.

(** * Vocabulary of the properties *)

(** The number of [true] entries. *)
Fixpoint countTrue (l : list bool) : Z :=
  match l with
  | [] => 0
  | b :: l' => (if b then 1 else 0) + countTrue l'
  end.

(** The mask entry an element with mask offset [mi] shows; no mask means
    nothing is masked. *)
Definition flagAt (msk : list bool) (mi : Z) : bool :=
  match msk with
  | [] => false
  | _ => default false (msk !! Z.to_nat mi)
  end.

(** The mask offset [mi] is an index of the mask buffer, if there is
    one. *)
Definition inMask (msk : list bool) (mi : Z) : Prop :=
  msk = [] ∨ 0 ≤ mi < Z.of_nat (length msk).

(** The mask offsets of the elements in row-major order, and their mask
    entries: the flattened tensor as the inspection operations see it. *)
Definition maskOffsets (d : Dense) : list Z :=
  offsetOf (maskStrides (ap d)) <$> coords (shape (ap d)).

(** The validity flag of every element, in row-major order: [true] for a
    masked element. *)
Definition flags (d : Dense) : list bool := flagAt (mask d) <$> maskOffsets d.

(** The flags of the elements an iterator has still to visit. *)
Definition restFlags (msk : list bool) (rest : list (Z * Z)) : list bool :=
  (fun e => flagAt msk e.2) <$> rest.

Arguments restFlags : simpl never.

Arguments flagAt : simpl never.

(** The invariants of the data model that the inspection operations rely
    on: one stride and one mask stride per dimension, dimensions of size
    at least one, mask strides that are not negative, and a mask buffer,
    if there is one, that holds the mask entry of every element. *)
Definition wf (d : Dense) : Prop :=
  length (strides (ap d)) = length (shape (ap d))
  ∧ length (maskStrides (ap d)) = length (shape (ap d))
  ∧ Forall (fun n => 1 ≤ n) (shape (ap d))
  ∧ Forall (fun m => 0 ≤ m) (maskStrides (ap d))
  ∧ (mask d = [] ∨ extent (shape (ap d)) (maskStrides (ap d)) ≤ Z.of_nat (length (mask d))).

(** [wf] is decidable. *)
#[global] Instance wf_dec (d : Dense) : Decision (wf d).
Proof. unfold wf. apply _. Defined.

(** The number of masked elements that [doMaskCt] reports: the true
    entries of the mask buffer in the contiguous case, the elements whose
    mask entry is true otherwise. *)
Definition maskedCt (d : Dense) : Z :=
  if negb (IsMasked d) then 0
  else if bool_decide (MaskSize d = Size d) then countTrue (mask d)
  else countTrue (flags d).

(** The ranges that select the sub-tensor at the output coordinate [c]:
    the range [r] on the reduction axis [ax], the single-index range
    [[c_k, c_k + 1)] on every other axis. *)
Definition singles (c : list Z) : list Slice := (fun i => makeRS i (i + 1)) <$> c.

(** The ranges of [singles c] with [r] put in at position [ax]. *)
Definition axisSlices (ax : nat) (r : Slice) (c : list Z) : list Slice :=
  take ax (singles c) ++ r :: drop ax (singles c).

(** The value [NewDense] allocates. *)
Definition newDense (dt : Dtype) (s : Shape) (buf : list Value) : Dense :=
  mkDense (mkAP s (calcStrides s) (calcStrides s)) (Some buf) dt None None [].

(** [Runs want k fl l]: [l] lists, in order, the maximal runs of the flag
    [want] in [fl] as half-open ranges of positions, the first position
    being [k]. *)
Inductive Runs (want : bool) : Z → list bool → list (Z * Z) → Prop :=
| Runs_none (k : Z) (fl : list bool) :
    Forall (fun b => b ≠ want) fl → Runs want k fl []
| Runs_last (k : Z) (pre mid : list bool) :
    Forall (fun b => b ≠ want) pre → mid ≠ [] → Forall (fun b => b = want) mid →
    Runs want k (pre ++ mid)
      [(k + Z.of_nat (length pre), k + Z.of_nat (length pre) + Z.of_nat (length mid))]
| Runs_more (k : Z) (pre mid suf : list bool) (l : list (Z * Z)) :
    Forall (fun b => b ≠ want) pre → mid ≠ [] → Forall (fun b => b = want) mid →
    Runs want (k + Z.of_nat (length pre) + Z.of_nat (length mid) + 1) suf l →
    Runs want k (pre ++ mid ++ negb want :: suf)
      ((k + Z.of_nat (length pre), k + Z.of_nat (length pre) + Z.of_nat (length mid)) :: l).

(** The mask indices [l] with the consecutive flat indices [k], [k + 1],
    ... *)
Fixpoint number (k : Z) (l : list Z) : list (Z * Z) :=
  match l with
  | [] => []
  | m :: l' => (k, m) :: number (k + 1) l'
  end.

(** The pending elements of an iterator carry consecutive flat indices. *)
Definition consecutive (k : Z) (rest : list (Z * Z)) : Prop :=
  rest = number k (snd <$> rest).

(** The pairs [(start, end)] as the ranges [makeRS(start, end)]. *)
Definition ranges (l : list (Z * Z)) : list Slice :=
  (fun p => makeRS p.1 p.2) <$> l.

(** [chain lo hi l]: the ranges of [l] are not empty, lie between [lo] and
    [hi], come in increasing order and leave at least one position between
    two of them: a sorted, non-overlapping sequence. *)
Fixpoint chain (lo hi : Z) (l : list (Z * Z)) : Prop :=
  match l with
  | [] => True
  | (s, e) :: l' => lo ≤ s ∧ s < e ∧ e ≤ hi ∧ chain (e + 1) hi l'
  end.

(** Position [i] lies in one of the ranges. *)
Definition covered (l : list (Z * Z)) (i : Z) : Prop :=
  ∃ s e, (s, e) ∈ l ∧ s ≤ i < e.

(** [regions want fl n l]: [l] is the sorted, non-overlapping sequence of
    the maximal runs of the flag [want] among the [n] positions of [fl]:
    the ranges cover exactly the positions whose flag is [want], no range
    can be extended on either side, and a run that reaches the last
    position ends at [n]. *)
Definition regions (want : bool) (fl : list bool) (n : Z) (l : list (Z * Z)) : Prop :=
  chain 0 n l
  ∧ (∀ i, 0 ≤ i < n → covered l i ↔ fl !! Z.to_nat i = Some want)
  ∧ (∀ s e, (s, e) ∈ l →
       (s = 0 ∨ fl !! Z.to_nat (s - 1) = Some (negb want))
       ∧ (e = n ∨ fl !! Z.to_nat e = Some (negb want)))
  ∧ (fl !! Z.to_nat (n - 1) = Some want → ∃ s, last l = Some (s, n)).

(** [s] is the first position whose flag is [want]. *)
Definition firstAt (want : bool) (fl : list bool) (s : Z) : Prop :=
  0 ≤ s ∧ fl !! Z.to_nat s = Some want
  ∧ ∀ n, (n < Z.to_nat s)%nat → fl !! n ≠ Some want.

(** [e] is the last position whose flag is [want]. *)
Definition lastAt (want : bool) (fl : list bool) (e : Z) : Prop :=
  0 ≤ e ∧ fl !! Z.to_nat e = Some want
  ∧ ∀ n, (Z.to_nat e < n)%nat → fl !! n ≠ Some want.

(** A boolean tensor of the given shape, mask strides and mask, with its
    data in row-major order, as [New(Of(Bool), WithShape(...),
    WithMaskStrides(...))] followed by [ResetMask] and the writes of the
    test builds it. *)
Definition testTensor (sh ms : list Z) (m : list bool) : Dense :=
  mkDense (mkAP sh (calcStrides sh) ms)
    (Some (replicate (Z.to_nat (TotalSize sh)) (VBool false))) Bool None None m.

(** "vector case": shape (1, 12), every even flat index masked. *)
Definition rowT : Dense :=
  testTensor [1; 12] [12; 1]
    [true; false; true; false; true; false; true; false; true; false; true; false].

(** "contiguous mask case": shape (2, 3, 2), elements (0,0,0) and (0,2,0)
    masked. *)
Definition cubeT : Dense :=
  testTensor [2; 3; 2] [6; 2; 1]
    [true; false; false; false; true; false; false; false; false; false; false; false].

(** "non-contiguous mask case 1", [WithMaskStrides([]bool{true, true,
    false})]: the mask broadcasts over the last dimension. *)
Definition case1T : Dense :=
  testTensor [2; 3; 2] [3; 1; 0] [true; false; true; false; false; false].

(** "non-contiguous mask case 2", [WithMaskStrides([]bool{true, false,
    true})]. *)
Definition case2T : Dense := testTensor [2; 3; 2] [2; 0; 1] [true; false; false; false].

(** "non-contiguous mask case 3", [WithMaskStrides([]bool{false, true,
    true})]. *)
Definition case3T : Dense :=
  testTensor [2; 3; 2] [0; 2; 1] [true; false; false; false; true; false].

(** "non-contiguous mask case 4", [WithMaskStrides([]bool{false, false,
    true})]: the mask broadcasts over the first two dimensions. *)
Definition broadcastT : Dense := testTensor [2; 3; 2] [0; 0; 1] [true; false].

(** [retT.bools()] of the tests: the elements of a result as booleans. *)
Definition bools (l : list bool) : list Value := VBool <$> l.

(** [retT.ints()] of the tests: the elements of a result as integers. *)
Definition ints (l : list Z) : list Value := VInt <$> l.

(** A mask of [n] entries that is [v] inside the ranges of [l] and
    [negb v] outside, as the tests of the finders build it with [Slice]
    and [ResetMask]. *)
Definition maskOfRanges (n : Z) (l : list (Z * Z)) (v : bool) : list bool :=
  (fun i => if existsb (fun p => bool_decide (p.1 ≤ i < p.2)) l then v else negb v)
    <$> seqZ 0 n.

(** The row of 100 elements of [TestMaskedFindContiguous] and
    [TestMaskedFindEdges]. *)
Definition lineT (l : list (Z * Z)) (v : bool) : Dense :=
  testTensor [1; 100] [100; 1] (maskOfRanges 100 l v).

(** The store holding one tensor, at location 1. *)
Definition single (d : Dense) : Store := {[ 1%positive := d ]}.

(** The shape and the elements of the tensor an operation returns. *)
Definition returned (r : outcome (Value * Store)) : option (Shape * list Value) :=
  match r with
  | Ret (VDense p, σ) => d ← σ !! p; v ← data d; Some (shape (ap d), v)
  | _ => None
  end.

(** "non-contiguous mask case 5": no mask buffer. *)
Definition plainT : Dense := testTensor [2; 3; 2] [0; 0; 0] [].

(** A row of twelve elements, all of them masked. *)
Definition maskedRowT : Dense := testTensor [1; 12] [12; 1] (replicate 12 true).

(** A view of [cubeT]: its first row. *)
Definition viewT : Dense :=
  default cubeT (Dense_Slice 1%positive cubeT [makeRS 0 1; None; None]).



(** A tensor of shape (0, 3): no element and no mask. *)
Definition emptyRowsT : Dense := testTensor [0; 3] [0; 0] [].

(** The sum of a list of integers. *)
Definition sumZ (l : list Z) : Z := foldr Z.add 0 l.

(** The number of positions that the ranges hold together. *)
Definition rangesLength (l : list (Z * Z)) : Z := sumZ ((fun p => p.2 - p.1) <$> l).

(** How often the flag [want] occurs in a list of flags. *)
Definition countOf (want : bool) (fl : list bool) : Z :=
  if want then countTrue fl else Z.of_nat (length fl) - countTrue fl.

(** A coordinate [c] of the shape without the axis [a], completed by the
    index [k] on the axis. *)
Definition insertAt (a : nat) (k : Z) (c : list Z) : list Z := take a c ++ k :: drop a c.

(** The elements of a tensor in the row-major order of its coordinates. *)
Definition elements (d : Dense) : option (list Value) :=
  mapM (At d) (coords (shape (ap d))).

(** A tensor of shape (2, 3) whose buffer is still to be made. *)
Definition emptyT : Dense := mkDense (mkAP [2; 3] [3; 1] [3; 1]) None Int None None [].

(** A tensor like [broadcastT] whose mask holds three entries where the
    mask strides call for two. *)
Definition staleT : Dense := testTensor [2; 3; 2] [0; 0; 1] [true; false; true].

(** A row of twelve elements with a mask that masks none of them. *)
Definition clearRowT : Dense := testTensor [1; 12] [12; 1] (replicate 12 false).

(** * Lemmas *)

(** ** Indexing, sizes and coordinates *)

Lemma index_Ret {A : Type} (l : list A) (i : Z) (a : A) :
  index l i = Ret a ↔ 0 ≤ i ∧ l !! Z.to_nat i = Some a.
Proof.
  unfold index. destruct (decide (0 ≤ i)) as [Hi|Hi].
  - destruct (l !! Z.to_nat i) eqn:E; split; intros H; try (inversion H; subst; auto; fail).
    + destruct H as [_ H]. inversion H. reflexivity.
    + destruct H as [_ H]. discriminate.
  - split; intros H; [discriminate | lia].
Qed.

Lemma index_lt {A : Type} (l : list A) (i : Z) :
  0 ≤ i < Z.of_nat (length l) → ∃ a, index l i = Ret a ∧ l !! Z.to_nat i = Some a.
Proof.
  intros Hi. destruct (lookup_lt_is_Some_2 l (Z.to_nat i)) as [a Ha]; [lia|].
  exists a. split; [|exact Ha]. apply index_Ret. split; [lia | exact Ha].
Qed.

Lemma assign_Ret {A : Type} (l : list A) (i : nat) (x : A) :
  (i < length l)%nat → assign l (Z.of_nat i) x = Ret (<[i := x]> l).
Proof.
  intros Hi. unfold assign. rewrite decide_True by lia. rewrite Nat2Z.id. reflexivity.
Qed.

Lemma index_app_middle {A : Type} (pre suf : list A) (a : A) :
  index (pre ++ a :: suf) (Z.of_nat (length pre)) = Ret a.
Proof.
  apply index_Ret. split; [lia|].
  rewrite Nat2Z.id. apply list_lookup_middle. reflexivity.
Qed.

Lemma TotalSize_cons (n : Z) (s : Shape) : TotalSize (n :: s) = n * TotalSize s.
Proof. reflexivity. Qed.

Lemma TotalSize_pos (s : Shape) : Forall (fun n => 1 ≤ n) s → 1 ≤ TotalSize s.
Proof.
  induction 1 as [|n s Hn Hs IH]; [unfold TotalSize; simpl; lia|].
  rewrite TotalSize_cons. nia.
Qed.

Lemma TotalSize_nonneg (s : Shape) : Forall (fun n => 0 ≤ n) s → 0 ≤ TotalSize s.
Proof.
  induction 1 as [|n s Hn Hs IH]; [unfold TotalSize; simpl; lia|].
  rewrite TotalSize_cons. nia.
Qed.

Lemma length_bind_const {A B : Type} (f : A → list B) (l : list A) (k : nat) :
  (∀ x, length (f x) = k) → length (l ≫= f) = (length l * k)%nat.
Proof.
  intros Hf. induction l as [|x l IH]; [reflexivity|].
  rewrite bind_cons, length_app, IH, Hf. simpl. lia.
Qed.

Lemma length_coords (s : Shape) :
  Forall (fun n => 0 ≤ n) s → Z.of_nat (length (coords s)) = TotalSize s.
Proof.
  induction 1 as [|n s Hn Hs IH]; [reflexivity|].
  simpl. rewrite (length_bind_const _ _ (length (coords s))).
  - rewrite length_seqZ, TotalSize_cons, Nat2Z.inj_mul, IH. lia.
  - intros x. apply length_fmap.
Qed.

Lemma elem_of_coords (s : Shape) (c : list Z) : c ∈ coords s ↔ inShape s c = true.
Proof.
  revert c. induction s as [|n s IH]; intros c; simpl.
  - rewrite list_elem_of_singleton. destruct c; split; congruence.
  - rewrite list_elem_of_bind. split.
    + intros (i & Hc & Hi). apply list_elem_of_fmap in Hc as (c' & -> & Hc').
      apply elem_of_seqZ in Hi. apply IH in Hc'.
      rewrite Hc', andb_true_r. apply bool_decide_eq_true. lia.
    + destruct c as [|i c']; [discriminate|].
      intros [Hi Hc']%andb_true_iff. apply bool_decide_eq_true in Hi.
      exists i. split.
      * apply list_elem_of_fmap. exists c'. split; [reflexivity | apply IH, Hc'].
      * apply elem_of_seqZ. lia.
Qed.

Lemma inShape_length (s : Shape) (c : list Z) : inShape s c = true → length c = length s.
Proof.
  revert c. induction s as [|n s IH]; intros [|i c]; simpl; try discriminate; auto.
  intros [_ H]%andb_true_iff. f_equal. auto.
Qed.

(** Row-major offsets: inside the buffer and distinct for distinct
    coordinates. *)
Lemma offsetOf_calcStrides_bound (s : Shape) (c : list Z) :
  inShape s c = true → 0 ≤ offsetOf (calcStrides s) c < TotalSize s.
Proof.
  revert c. induction s as [|n s IH]; intros [|i c]; simpl; try discriminate.
  - intros _. unfold offsetOf, TotalSize. simpl. lia.
  - intros [Hi Hc]%andb_true_iff. apply bool_decide_eq_true in Hi.
    specialize (IH c Hc). rewrite TotalSize_cons. unfold offsetOf in *. simpl. nia.
Qed.

Lemma offsetOf_calcStrides_inj (s : Shape) (c1 c2 : list Z) :
  inShape s c1 = true → inShape s c2 = true →
  offsetOf (calcStrides s) c1 = offsetOf (calcStrides s) c2 → c1 = c2.
Proof.
  revert c1 c2. induction s as [|n s IH]; intros [|i c1] [|j c2]; simpl; try discriminate; auto.
  intros [Hi H1]%andb_true_iff [Hj H2]%andb_true_iff Heq.
  apply bool_decide_eq_true in Hi. apply bool_decide_eq_true in Hj.
  pose proof (offsetOf_calcStrides_bound s c1 H1) as B1.
  pose proof (offsetOf_calcStrides_bound s c2 H2) as B2.
  unfold offsetOf in *. simpl in Heq.
  set (T := TotalSize s) in *.
  assert (i = j) as ->.
  { destruct (Z.lt_trichotomy i j) as [Hlt|[Heq'|Hlt]]; [|exact Heq'|].
    - assert ((i + 1) * T ≤ j * T) by (apply Z.mul_le_mono_nonneg_r; lia). lia.
    - assert ((j + 1) * T ≤ i * T) by (apply Z.mul_le_mono_nonneg_r; lia). lia. }
  f_equal. apply IH; auto. unfold offsetOf. lia.
Qed.

(** ** Counting mask entries *)

Lemma countTrue_bounds (l : list bool) : 0 ≤ countTrue l ≤ Z.of_nat (length l).
Proof. induction l as [|[] l IH]; simpl length; simpl countTrue; lia. Qed.

Lemma countTrue_app (l1 l2 : list bool) :
  countTrue (l1 ++ l2) = countTrue l1 + countTrue l2.
Proof. induction l1 as [|[] l1 IH]; simpl; lia. Qed.

Lemma countTrue_none (l : list bool) : Forall (fun b => b ≠ true) l → countTrue l = 0.
Proof. induction 1 as [|[] l Hb Hl IH]; simpl; [lia|congruence|lia]. Qed.

Lemma countTrue_all (l : list bool) :
  countTrue l = Z.of_nat (length l) ↔ Forall (fun b => b = true) l.
Proof.
  induction l as [|b l IH]; [split; auto|].
  pose proof (countTrue_bounds l). simpl length. simpl countTrue. split.
  - intros H'. destruct b; [|lia]. constructor; [reflexivity|]. apply IH. lia.
  - intros H'. inversion H' as [|? ? -> Hl]; subst. apply IH in Hl. lia.
Qed.

Lemma countTrue_pos (l : list bool) : 0 < countTrue l ↔ Exists (fun b => b = true) l.
Proof.
  induction l as [|b l IH]; simpl.
  - split; [lia | intros H; inversion H].
  - pose proof (countTrue_bounds l). rewrite Exists_cons. destruct b.
    + split; [auto | lia].
    + rewrite <- IH. split; [intros; right; lia | intros [|]; [discriminate | lia]].
Qed.

(** ** The mask-aware iterator *)

Lemma seek_read (msk : list bool) (mi : Z) :
  inMask msk mi →
  match msk with
  | [] => Ret false
  | _ => index msk mi
  end = Ret (flagAt msk mi).
Proof.
  intros [->|Hi]; [reflexivity|].
  destruct msk as [|b0 msk']; [reflexivity|].
  destruct (index_lt (b0 :: msk') mi Hi) as (a & Ha & Hl).
  rewrite Ha. unfold flagAt. rewrite Hl. reflexivity.
Qed.

Lemma index_flagAt (msk : list bool) (mi : Z) :
  msk ≠ [] → inMask msk mi → index msk mi = Ret (flagAt msk mi).
Proof.
  intros Hne Hi. pose proof (seek_read msk mi Hi) as H.
  destruct msk; [congruence | exact H].
Qed.

(** What a search returns: the first pending element whose mask entry is
    [want] and what follows it, or exhaustion. *)
Lemma seek_spec (want : bool) (msk : list bool) (rest : list (Z * Z)) (last : Z) :
  Forall (fun e => inMask msk e.2) rest →
  (∃ pre i mi suf,
      rest = pre ++ (i, mi) :: suf
      ∧ Forall (fun e => flagAt msk e.2 ≠ want) pre
      ∧ flagAt msk mi = want
      ∧ seek want msk rest last = Ret ((i, None), (suf, mi)))
  ∨ (Forall (fun e => flagAt msk e.2 ≠ want) rest
     ∧ ∃ last', seek want msk rest last = Ret ((-1, Some noopError), ([], last'))).
Proof.
  intros Hin. revert last. induction Hin as [|[i mi] rest Hi Hrest IH]; intros last.
  - right. split; [constructor|]. exists last. reflexivity.
  - simpl. rewrite (seek_read msk mi Hi). simpl.
    destruct (bool_decide (flagAt msk mi = want)) eqn:E.
    + apply bool_decide_eq_true in E. left. exists [], i, mi, rest.
      split; [reflexivity|]. split; [constructor|]. split; [exact E | reflexivity].
    + apply bool_decide_eq_false in E.
      destruct (IH mi) as [(pre & j & mj & suf & -> & Hpre & Hj & Hs)|(Hall & last' & Hs)].
      * left. exists ((i, mi) :: pre), j, mj, suf.
        split; [reflexivity|]. split; [constructor; [exact E | exact Hpre]|]. split; [exact Hj | exact Hs].
      * right. split; [constructor; [exact E | exact Hall]|]. exists last'. exact Hs.
Qed.

Lemma seekIt_spec (want : bool) (msk : list bool) (rest : list (Z * Z)) (last : Z) :
  Forall (fun e => inMask msk e.2) rest →
  (∃ pre i mi suf,
      rest = pre ++ (i, mi) :: suf
      ∧ Forall (fun e => flagAt msk e.2 ≠ want) pre
      ∧ flagAt msk mi = want
      ∧ seekIt want (mkMultIterator msk rest last)
        = Ret ((i, None), mkMultIterator msk suf mi))
  ∨ (Forall (fun e => flagAt msk e.2 ≠ want) rest
     ∧ ∃ last', seekIt want (mkMultIterator msk rest last)
                = Ret ((-1, Some noopError), mkMultIterator msk [] last')).
Proof.
  intros Hin. unfold seekIt. simpl.
  destruct (seek_spec want msk rest last Hin)
    as [(pre & i & mi & suf & -> & Hpre & Hmi & ->)|(Hall & last' & ->)].
  - left. exists pre, i, mi, suf. auto.
  - right. split; [exact Hall|]. exists last'. reflexivity.
Qed.

Lemma restFlags_app (msk : list bool) (r1 r2 : list (Z * Z)) :
  restFlags msk (r1 ++ r2) = restFlags msk r1 ++ restFlags msk r2.
Proof. apply fmap_app. Qed.

Lemma restFlags_cons (msk : list bool) (i mi : Z) (r : list (Z * Z)) :
  restFlags msk ((i, mi) :: r) = flagAt msk mi :: restFlags msk r.
Proof. reflexivity. Qed.

Lemma length_restFlags (msk : list bool) (r : list (Z * Z)) :
  length (restFlags msk r) = length r.
Proof. apply length_fmap. Qed.

Lemma restFlags_number (msk : list bool) (k : Z) (l : list Z) :
  restFlags msk (number k l) = flagAt msk <$> l.
Proof.
  revert k. induction l as [|m l IH]; intros k; [reflexivity|].
  simpl number. rewrite restFlags_cons, IH. reflexivity.
Qed.

Lemma length_number (k : Z) (l : list Z) : length (number k l) = length l.
Proof. revert k. induction l as [|m l IH]; intros k; simpl; [reflexivity|]. f_equal. apply IH. Qed.

Lemma Forall_number (P : Z → Prop) (k : Z) (l : list Z) :
  Forall P l → Forall (fun e => P e.2) (number k l).
Proof. intros H. revert k. induction H; intros k; simpl; constructor; auto. Qed.

Lemma restFlags_none (want : bool) (msk : list bool) (rest : list (Z * Z)) :
  Forall (fun e => flagAt msk e.2 ≠ want) rest →
  Forall (fun b => b ≠ want) (restFlags msk rest).
Proof. intros H. unfold restFlags. apply Forall_fmap. exact H. Qed.

(** ** The reduction callbacks *)

(** The counting loop of [doMaskCt] counts the masked elements still to
    come. *)
Lemma doMaskCt_loop_spec (fuel : nat) (msk : list bool) (rest : list (Z * Z))
    (last j : Z) :
  (length rest < fuel)%nat →
  Forall (fun e => inMask msk e.2) rest →
  doMaskCt_loop fuel (mkMultIterator msk rest last) j
  = Ret (VInt (j + countTrue (restFlags msk rest))).
Proof.
  revert rest last j. induction fuel as [|fuel IH]; intros rest last j Hlen Hin; [lia|].
  simpl. unfold NextInvalid, seekIt. simpl.
  destruct (seek_spec true msk rest last Hin)
    as [(pre & i & mi & suf & -> & Hpre & Hmi & ->)|(Hall & last' & ->)]; simpl.
  - rewrite IH.
    + rewrite restFlags_app, countTrue_app, restFlags_cons. simpl countTrue. rewrite Hmi.
      rewrite (countTrue_none _ (restFlags_none true msk pre Hpre)).
      do 2 f_equal. lia.
    + rewrite length_app in Hlen. simpl in Hlen. lia.
    + apply Forall_app in Hin as [_ Hin]. inversion Hin; assumption.
  - rewrite (countTrue_none _ (restFlags_none true msk rest Hall)).
    do 2 f_equal. lia.
Qed.

Lemma doMaskAny_loop_spec (fuel : nat) (msk : list bool) (rest : list (Z * Z))
    (last : Z) :
  msk ≠ [] →
  (length rest < fuel)%nat →
  Forall (fun e => inMask msk e.2) rest →
  doMaskAny_loop fuel msk (mkMultIterator msk rest last)
  = Ret (VBool (bool_decide (0 < countTrue (restFlags msk rest)))).
Proof.
  intros Hne. revert rest last. induction fuel as [|fuel IH]; intros rest last Hlen Hin; [lia|].
  simpl. unfold NextInvalid, seekIt. simpl.
  destruct (seek_spec true msk rest last Hin)
    as [(pre & i & mi & suf & -> & Hpre & Hmi & ->)|(Hall & last' & ->)]; simpl.
  - unfold LastMaskIndex. simpl.
    apply Forall_app in Hin as [_ Hin]. inversion Hin as [|? ? Hi Hsuf]; subst.
    rewrite (index_flagAt msk mi Hne Hi). simpl. rewrite Hmi.
    do 2 f_equal. symmetry. apply bool_decide_eq_true.
    rewrite restFlags_app, countTrue_app, restFlags_cons. simpl countTrue. rewrite Hmi.
    pose proof (countTrue_bounds (restFlags msk pre)).
    pose proof (countTrue_bounds (restFlags msk suf)). lia.
  - rewrite (countTrue_none _ (restFlags_none true msk rest Hall)). reflexivity.
Qed.

Lemma doMaskAll_loop_spec (fuel : nat) (msk : list bool) (rest : list (Z * Z))
    (last : Z) :
  msk ≠ [] →
  (length rest < fuel)%nat →
  Forall (fun e => inMask msk e.2) rest →
  doMaskAll_loop fuel msk (mkMultIterator msk rest last)
  = Ret (VBool (bool_decide (countTrue (restFlags msk rest) = Z.of_nat (length rest)))).
Proof.
  intros Hne. revert rest last. induction fuel as [|fuel IH]; intros rest last Hlen Hin; [lia|].
  destruct rest as [|[i mi] rest]; [reflexivity|].
  inversion Hin as [|? ? Hi Hrest]; subst.
  rewrite restFlags_cons.
  simpl. unfold LastMaskIndex. simpl. simpl in Hi.
  rewrite (index_flagAt msk mi Hne Hi). simpl.
  pose proof (countTrue_bounds (restFlags msk rest)) as Hb.
  rewrite length_restFlags in Hb.
  destruct (flagAt msk mi); simpl.
  - rewrite IH; [|simpl in Hlen; lia|exact Hrest].
    do 2 f_equal. apply bool_decide_ext. lia.
  - do 2 f_equal. symmetry. apply bool_decide_eq_false. lia.
Qed.

(** The scans of the contiguous case, started anywhere in the mask. *)
Lemma doMaskCt_scan_spec (pre suf : list bool) (count : Z) :
  doMaskCt_scan (pre ++ suf) (seqZ (Z.of_nat (length pre)) (Z.of_nat (length suf))) count
  = Ret (VInt (count + countTrue suf)).
Proof.
  revert pre count. induction suf as [|b suf IH]; intros pre count.
  - simpl. do 2 f_equal. lia.
  - rewrite seqZ_cons by (simpl; lia). simpl doMaskCt_scan.
    rewrite index_app_middle. simpl.
    replace (Z.succ (Z.of_nat (length pre))) with (Z.of_nat (length (pre ++ [b])))
      by (rewrite length_app; simpl; lia).
    replace (Z.pred (Z.of_nat (S (length suf)))) with (Z.of_nat (length suf)) by lia.
    replace (pre ++ b :: suf) with ((pre ++ [b]) ++ suf) by (rewrite <- app_assoc; reflexivity).
    rewrite IH. destruct b; do 2 f_equal; lia.
Qed.

Lemma doMaskAny_scan_spec (pre suf : list bool) :
  doMaskAny_scan (pre ++ suf) (seqZ (Z.of_nat (length pre)) (Z.of_nat (length suf)))
  = Ret (VBool (bool_decide (0 < countTrue suf))).
Proof.
  revert pre. induction suf as [|b suf IH]; intros pre.
  - reflexivity.
  - rewrite seqZ_cons by (simpl; lia). simpl doMaskAny_scan.
    rewrite index_app_middle. simpl.
    pose proof (countTrue_bounds suf) as Hb.
    destruct b.
    + do 2 f_equal. symmetry. apply bool_decide_eq_true. lia.
    + replace (Z.succ (Z.of_nat (length pre))) with (Z.of_nat (length (pre ++ [false])))
        by (rewrite length_app; simpl; lia).
      replace (Z.pred (Z.of_nat (S (length suf)))) with (Z.of_nat (length suf)) by lia.
      replace (pre ++ false :: suf) with ((pre ++ [false]) ++ suf)
        by (rewrite <- app_assoc; reflexivity).
      rewrite IH. reflexivity.
Qed.

Lemma doMaskAll_scan_spec (pre suf : list bool) :
  doMaskAll_scan (pre ++ suf) (seqZ (Z.of_nat (length pre)) (Z.of_nat (length suf)))
  = Ret (VBool (bool_decide (countTrue suf = Z.of_nat (length suf)))).
Proof.
  revert pre. induction suf as [|b suf IH]; intros pre.
  - reflexivity.
  - rewrite seqZ_cons by (simpl; lia). simpl doMaskAll_scan.
    rewrite index_app_middle. simpl.
    pose proof (countTrue_bounds suf) as Hb.
    destruct b; simpl.
    + replace (Z.succ (Z.of_nat (length pre))) with (Z.of_nat (length (pre ++ [true])))
        by (rewrite length_app; simpl; lia).
      replace (Z.pred (Z.of_nat (S (length suf)))) with (Z.of_nat (length suf)) by lia.
      replace (pre ++ true :: suf) with ((pre ++ [true]) ++ suf)
        by (rewrite <- app_assoc; reflexivity).
      rewrite IH. do 2 f_equal. apply bool_decide_ext. lia.
    + do 2 f_equal. symmetry. apply bool_decide_eq_false. lia.
Qed.

Lemma extent_cons (n m : Z) (sh ms : list Z) :
  extent (n :: sh) (m :: ms) = (n - 1) * m + extent sh ms.
Proof. unfold extent. simpl. lia. Qed.

Lemma offsetOf_cons (m i : Z) (ms c : list Z) :
  offsetOf (m :: ms) (i :: c) = i * m + offsetOf ms c.
Proof. reflexivity. Qed.

Lemma offsetOf_extent (sh ms c : list Z) :
  length ms = length sh →
  Forall (fun n => 1 ≤ n) sh → Forall (fun m => 0 ≤ m) ms →
  inShape sh c = true → 0 ≤ offsetOf ms c < extent sh ms.
Proof.
  intros Hlen Hsh. revert ms c Hlen.
  induction Hsh as [|n sh Hn Hsh IH]; intros [|m ms] [|i c] Hlen Hms; simpl;
    try discriminate.
  - intros _. unfold offsetOf, extent. simpl. lia.
  - intros [Hi Hc]%andb_true_iff. apply bool_decide_eq_true in Hi.
    inversion Hms; subst. simpl in Hlen.
    rewrite extent_cons, offsetOf_cons.
    assert (0 ≤ offsetOf ms c < extent sh ms) by (apply IH; auto; lia).
    nia.
Qed.

Lemma maskOffsets_inMask (d : Dense) :
  wf d → Forall (inMask (mask d)) (maskOffsets d).
Proof.
  intros (_ & Hlen & Hsh & Hms & Hmask). unfold maskOffsets.
  apply Forall_fmap, Forall_forall. intros c Hc. apply elem_of_coords in Hc.
  destruct Hmask as [Hm|Hm]; [left; exact Hm|right].
  pose proof (offsetOf_extent _ _ _ Hlen Hsh Hms Hc). simpl. lia.
Qed.

Lemma length_flags (d : Dense) : wf d → Z.of_nat (length (flags d)) = Size d.
Proof.
  intros (_ & _ & Hsh & _). unfold flags, maskOffsets. rewrite !length_fmap.
  apply length_coords. eapply Forall_impl; [exact Hsh|]. simpl. intros. lia.
Qed.

Lemma Size_pos (d : Dense) : wf d → 1 ≤ Size d.
Proof. intros (_ & _ & Hsh & _). apply TotalSize_pos, Hsh. Qed.

Lemma maskedCt_bounds (d : Dense) : wf d → 0 ≤ maskedCt d ≤ Size d.
Proof.
  intros Hwf. unfold maskedCt. pose proof (Size_pos d Hwf).
  destruct (negb (IsMasked d)); [lia|].
  destruct (bool_decide (MaskSize d = Size d)) eqn:E.
  - apply bool_decide_eq_true in E. rewrite <- E. apply countTrue_bounds.
  - rewrite <- (length_flags d Hwf). apply countTrue_bounds.
Qed.

(** [k] blocks of [T] consecutive integers are the first [k * T]
    integers. *)
Lemma seqZ_blocks (k : nat) (T : Z) :
  0 ≤ T → (seqZ 0 (Z.of_nat k) ≫= fun i => seqZ (i * T) T) = seqZ 0 (Z.of_nat k * T).
Proof.
  intros HT. induction k as [|k IH].
  - reflexivity.
  - rewrite seqZ_S, bind_app, IH. cbn [mbind list_bind]. rewrite app_nil_r.
    replace (Z.of_nat (S k) * T) with (Z.of_nat k * T + T) by lia.
    rewrite seqZ_app by nia. rewrite !Z.add_0_l. reflexivity.
Qed.

(** A map after a bind is a bind of maps. *)
Lemma fmap_list_bind {A B C : Type} (f : B → C) (g : A → list B) (l : list A) :
  f <$> (l ≫= g) = l ≫= (fun x => f <$> g x).
Proof.
  induction l as [|x l IH]; [reflexivity|].
  rewrite !bind_cons, fmap_app, IH. reflexivity.
Qed.

(** Row-major strides number the coordinates in their order. *)
Lemma offsets_calcStrides (s : Shape) :
  Forall (fun n => 0 ≤ n) s →
  offsetOf (calcStrides s) <$> coords s = seqZ 0 (TotalSize s).
Proof.
  induction 1 as [|n s Hn Hs IH].
  - reflexivity.
  - cbn [coords calcStrides]. rewrite TotalSize_cons.
    pose proof (TotalSize_nonneg s Hs) as HT.
    rewrite fmap_list_bind.
    rewrite <- (Z2Nat.id n Hn) at 2. rewrite <- seqZ_blocks by exact HT.
    rewrite (Z2Nat.id n Hn).
    apply list_bind_ext; [|reflexivity]. intros i.
    rewrite <- list_fmap_compose.
    rewrite <- (Z.add_0_r (i * TotalSize s)) at 1. rewrite <- fmap_add_seqZ, <- IH.
    rewrite <- list_fmap_compose. apply list_fmap_ext. intros _ c _.
    unfold compose. rewrite offsetOf_cons. reflexivity.
Qed.

(** ** What the iterator of a tensor holds *)

(** The flags of the elements that the iterator of a tensor visits are
    the flags of the tensor. *)
Lemma flags_MultIterator (d : Dense) :
  restFlags (mask d) (it_rest (MultIteratorFromDense d)) = flags d.
Proof.
  unfold MultIteratorFromDense, restFlags, flags, maskOffsets. cbn [it_rest].
  rewrite <- !list_fmap_compose. reflexivity.
Qed.

Lemma length_MultIterator (d : Dense) :
  length (it_rest (MultIteratorFromDense d)) = length (flags d).
Proof. rewrite <- flags_MultIterator. symmetry. apply length_restFlags. Qed.

(** On a well-formed tensor every mask index of the iterator is an index
    of the mask. *)
Lemma inMask_MultIterator (d : Dense) :
  wf d → Forall (fun e => inMask (mask d) e.2) (it_rest (MultIteratorFromDense d)).
Proof.
  intros Hwf. pose proof (maskOffsets_inMask d Hwf) as Hin.
  unfold MultIteratorFromDense, maskOffsets in *. cbn [it_rest].
  rewrite Forall_fmap in Hin. rewrite Forall_fmap. exact Hin.
Qed.

(** Consecutive integers beside a list are its numbering. *)
Lemma number_seqZ {A : Type} (f g : A → Z) (l : list A) (k : Z) :
  f <$> l = seqZ k (Z.of_nat (length l)) →
  (fun c => (f c, g c)) <$> l = number k (g <$> l).
Proof.
  revert k. induction l as [|x l IH]; intros k H; [reflexivity|].
  rewrite !fmap_cons in *. cbn [length number] in *.
  rewrite seqZ_cons in H by lia. injection H as Hx Hl.
  rewrite Hx. f_equal. apply IH. rewrite Hl. f_equal; lia.
Qed.

(** Under row-major strides the flat data index of an element is its
    position in the row-major order: the iterator numbers the elements 0,
    1, 2, ... *)
Lemma MultIterator_row_major (d : Dense) :
  wf d → strides (ap d) = calcStrides (shape (ap d)) →
  it_rest (MultIteratorFromDense d) = number 0 (maskOffsets d).
Proof.
  intros (_ & _ & Hsh & _) Hst. unfold MultIteratorFromDense, maskOffsets. cbn [it_rest].
  assert (Hsh0 : Forall (fun n => 0 ≤ n) (shape (ap d))).
  { eapply Forall_impl; [exact Hsh|]. intros; simpl in *; lia. }
  apply number_seqZ. rewrite Hst, offsets_calcStrides by exact Hsh0.
  f_equal. symmetry. apply length_coords, Hsh0.
Qed.

Lemma MultIteratorFromDense_row_major (d : Dense) :
  wf d → strides (ap d) = calcStrides (shape (ap d)) →
  MultIteratorFromDense d = mkMultIterator (mask d) (number 0 (maskOffsets d)) 0.
Proof.
  intros Hwf Hst. rewrite <- (MultIterator_row_major d Hwf Hst). reflexivity.
Qed.

Lemma callbacks_spec (d : Dense) :
  wf d →
  doMaskCt d = Ret (VInt (maskedCt d))
  ∧ doNonMaskCt d = Ret (VInt (Size d - maskedCt d))
  ∧ doMaskAny d = Ret (VBool (bool_decide (0 < maskedCt d)))
  ∧ doMaskAll d = Ret (VBool (bool_decide (maskedCt d = Size d))).
Proof.
  intros Hwf. pose proof (Size_pos d Hwf) as Hpos.
  pose proof (inMask_MultIterator d Hwf) as Hit.
  pose proof (length_flags d Hwf) as Hfl.
  assert (doMaskCt d = Ret (VInt (maskedCt d))) as Hct.
  { unfold doMaskCt, maskedCt. destruct (negb (IsMasked d)); [reflexivity|].
    destruct (bool_decide (MaskSize d = Size d)).
    - unfold MaskSize. apply (doMaskCt_scan_spec [] (mask d) 0).
    - change (MultIteratorFromDense d)
        with (mkMultIterator (mask d) (it_rest (MultIteratorFromDense d)) 0).
      rewrite doMaskCt_loop_spec.
      + rewrite flags_MultIterator. reflexivity.
      + cbn [it_rest]. lia.
      + exact Hit. }
  split; [exact Hct|]. split; [|split].
  - unfold doNonMaskCt. rewrite Hct. unfold maskedCt.
    destruct (negb (IsMasked d)); simpl; [do 2 f_equal; lia | reflexivity].
  - unfold doMaskAny, maskedCt. destruct (negb (IsMasked d)) eqn:Em; [reflexivity|].
    destruct (bool_decide (MaskSize d = Size d)).
    + unfold MaskSize. apply (doMaskAny_scan_spec [] (mask d)).
    + change (MultIteratorFromDense d)
        with (mkMultIterator (mask d) (it_rest (MultIteratorFromDense d)) 0).
      rewrite doMaskAny_loop_spec.
      * rewrite flags_MultIterator. reflexivity.
      * unfold IsMasked in Em. apply negb_false_iff, negb_true_iff in Em.
        apply bool_decide_eq_false in Em. exact Em.
      * cbn [it_rest]. lia.
      * exact Hit.
  - unfold doMaskAll, maskedCt. destruct (negb (IsMasked d)) eqn:Em.
    { do 2 f_equal. symmetry. apply bool_decide_eq_false. lia. }
    destruct (bool_decide (MaskSize d = Size d)) eqn:E.
    + apply bool_decide_eq_true in E. rewrite <- E. unfold MaskSize.
      apply (doMaskAll_scan_spec [] (mask d)).
    + change (MultIteratorFromDense d)
        with (mkMultIterator (mask d) (it_rest (MultIteratorFromDense d)) 0).
      rewrite doMaskAll_loop_spec.
      * rewrite flags_MultIterator, length_MultIterator. do 2 f_equal.
        apply bool_decide_ext. rewrite Hfl. reflexivity.
      * unfold IsMasked in Em. apply negb_false_iff, negb_true_iff in Em.
        apply bool_decide_eq_false in Em. exact Em.
      * cbn [it_rest]. lia.
      * exact Hit.
Qed.

(** ** Slicing along an axis *)

Lemma drop_lookup_head {A : Type} (k : nat) (l : list A) (x : A) (l' : list A) :
  drop k l = x :: l' → l !! k = Some x ∧ drop (S k) l = l'.
Proof.
  intros H. split.
  - rewrite <- (Nat.add_0_r k), <- lookup_drop, H. reflexivity.
  - replace (S k) with (k + 1)%nat by lia. rewrite <- drop_drop, H. reflexivity.
Qed.

(** Past the reduction axis, the inner loop writes single-index ranges. *)
Lemma MaskedReduce_slices_after (ax : Z) (c : list Z) (slices : list Slice) (d : Z) (k : nat) :
  ax < d → length (drop k c) = length slices →
  MaskedReduce_slices ax c d (Z.of_nat k) slices = Ret (singles (drop k c)).
Proof.
  revert d k. induction slices as [|s slices IH]; intros d k Hd Hlen.
  - destruct (drop k c); [reflexivity | discriminate].
  - destruct (drop k c) as [|x cs] eqn:E; [discriminate|].
    apply drop_lookup_head in E as [Hx E].
    simpl. rewrite bool_decide_eq_true_2 by lia.
    assert (index c (Z.of_nat k) = Ret x) as ->.
    { apply index_Ret. rewrite Nat2Z.id. split; [lia | exact Hx]. }
    simpl. replace (Z.of_nat k + 1) with (Z.of_nat (S k)) by lia.
    rewrite IH; [|lia|rewrite E; simpl in Hlen; lia].
    rewrite E. reflexivity.
Qed.

(** The inner loop of [MaskedReduce] builds [nil] on the axis and
    single-index ranges elsewhere, whatever [slices] held. *)
Lemma MaskedReduce_slices_spec (ax : Z) (c : list Z) (slices : list Slice) (d : Z)
    (k a : nat) :
  ax = d + Z.of_nat a → (a < length slices)%nat →
  S (length (drop k c)) = length slices →
  MaskedReduce_slices ax c d (Z.of_nat k) slices = Ret (axisSlices a None (drop k c)).
Proof.
  revert d k a. induction slices as [|s slices IH]; intros d k a Hax Ha Hlen.
  - simpl in Ha. lia.
  - simpl. destruct a as [|a].
    + rewrite bool_decide_eq_false_2 by lia.
      rewrite MaskedReduce_slices_after; [reflexivity | lia | simpl in Hlen; lia].
    + rewrite bool_decide_eq_true_2 by lia.
      destruct (drop k c) as [|x cs] eqn:E.
      { simpl in Hlen, Ha. lia. }
      apply drop_lookup_head in E as [Hx E].
      assert (index c (Z.of_nat k) = Ret x) as ->.
      { apply index_Ret. rewrite Nat2Z.id. split; [lia | exact Hx]. }
      simpl. replace (Z.of_nat k + 1) with (Z.of_nat (S k)) by lia.
      rewrite (IH (d + 1) (S k) a); [|lia|simpl in Ha; lia|rewrite E; simpl in Hlen; lia].
      rewrite E. reflexivity.
Qed.

Lemma MaskedReduce_slices_start (c : list Z) (slices : list Slice) (a : nat) :
  (a < length slices)%nat → S (length c) = length slices →
  MaskedReduce_slices (Z.of_nat a) c 0 0 slices = Ret (axisSlices a None c).
Proof.
  intros Ha Hlen.
  apply (MaskedReduce_slices_spec (Z.of_nat a) c slices 0 0 a); [lia|exact Ha|exact Hlen].
Qed.

Lemma sliceDim_single (n i : Z) :
  0 ≤ i < n → sliceDim n (makeRS i (i + 1)) = Some (i, Some (i + 1 - i)).
Proof.
  intros Hi. unfold sliceDim, makeRS. simpl.
  rewrite bool_decide_eq_true_2 by lia. rewrite bool_decide_eq_false_2 by lia.
  reflexivity.
Qed.

Lemma sliceDim_full (n : Z) : 1 ≤ n → sliceDim n (makeRS 0 n) = sliceDim n None.
Proof.
  intros Hn. unfold sliceDim, makeRS. simpl.
  rewrite bool_decide_eq_true_2 by lia. rewrite bool_decide_eq_false_2 by lia.
  rewrite Z.sub_0_r. reflexivity.
Qed.

Lemma sliceDim_probe (n : Z) : 1 ≤ n → sliceDim n (makeRS 0 0) = Some (0, None).
Proof.
  intros Hn. unfold sliceDim, makeRS. simpl.
  rewrite bool_decide_eq_true_2 by lia. reflexivity.
Qed.

(** What any successful slicing keeps: one stride per dimension,
    dimensions of size at least one, and a mask window inside the extent
    of the mask of the source. *)
Lemma sliceAP_wf (sh st ms : list Z) (sl : list Slice) (r : sliced) :
  sliceAP sh st ms sl = Some r →
  Forall (fun n => 1 ≤ n) sh → Forall (fun m => 0 ≤ m) ms →
  let a := sl_ap r in
  length (strides a) = length (shape a)
  ∧ length (maskStrides a) = length (shape a)
  ∧ Forall (fun n => 1 ≤ n) (shape a)
  ∧ Forall (fun m => 0 ≤ m) (maskStrides a)
  ∧ 0 ≤ sl_mstart r
  ∧ sl_mstart r + extent (shape a) (maskStrides a) ≤ extent sh ms.
Proof.
  revert st ms sl r.
  induction sh as [|n sh IH]; intros [|s st] [|m ms] [|x sl] r H Hsh Hms;
    simpl in H; try discriminate.
  - inversion H; subst. simpl. unfold extent. simpl.
    repeat split; auto; lia.
  - destruct (sliceDim n x) as [[b keep]|] eqn:Ed; [|discriminate].
    simpl in H. destruct (sliceAP sh st ms sl) as [rest|] eqn:Er; [|discriminate].
    simpl in H. inversion H; subst. clear H.
    inversion Hsh as [|? ? Hn Hsh']; subst. inversion Hms as [|? ? Hm Hms']; subst.
    destruct (IH _ _ _ _ Er Hsh' Hms') as (L1 & L2 & F1 & F2 & B1 & B2).
    rewrite extent_cons.
    assert (0 ≤ b ∧ match keep with Some len => 1 ≤ len ∧ b + len ≤ n | None => b < n end) as [Hb Hk].
    { unfold sliceDim in Ed. destruct x as [x|].
      - destruct (bool_decide _) eqn:Eb in Ed; [|discriminate].
        apply bool_decide_eq_true in Eb. inversion Ed; subst.
        split; [lia|]. destruct (bool_decide (rs_start x = rs_end x)) eqn:Ee.
        + lia.
        + apply bool_decide_eq_false in Ee. lia.
      - inversion Ed; subst. split; lia. }
    destruct keep as [len|]; simpl.
    + rewrite extent_cons. destruct Hk as [Hk1 Hk2].
      split; [f_equal; exact L1|]. split; [f_equal; exact L2|].
      split; [constructor; assumption|]. split; [constructor; assumption|].
      split; nia.
    + split; [exact L1|]. split; [exact L2|]. split; [exact F1|]. split; [exact F2|].
      split; nia.
Qed.

Lemma extent_pos (sh ms : list Z) :
  Forall (fun n => 1 ≤ n) sh → Forall (fun m => 0 ≤ m) ms → 1 ≤ extent sh ms.
Proof.
  intros Hsh. revert ms. induction Hsh as [|n sh Hn Hsh IH]; intros ms Hms.
  - unfold extent. simpl. lia.
  - destruct Hms as [|m ms Hm Hms].
    + unfold extent. simpl. lia.
    + rewrite extent_cons. specialize (IH ms Hms). nia.
Qed.

Lemma window_nil {A : Type} (start len : Z) : window start len (@nil A) = [].
Proof. unfold window. rewrite drop_nil, take_nil. reflexivity. Qed.

Lemma length_window {A : Type} (start len : Z) (l : list A) :
  0 ≤ start → 0 ≤ len → start + len ≤ Z.of_nat (length l) →
  Z.of_nat (length (window start len l)) = len.
Proof.
  intros Hs Hl Hb. unfold window. rewrite length_take, length_drop. lia.
Qed.

(** A view of a well-formed tensor is well formed. *)
Lemma Dense_Slice_wf (t : loc) (d ts : Dense) (slices : list Slice) :
  wf d → Dense_Slice t d slices = Some ts → wf ts.
Proof.
  intros (L1 & L2 & Hsh & Hms & Hmask) H. unfold Dense_Slice in H.
  destruct (sliceAP _ _ _ _) as [r|] eqn:Er; [|discriminate].
  simpl in H. inversion H; subst; clear H.
  destruct (sliceAP_wf _ _ _ _ _ Er Hsh Hms) as (L1' & L2' & F1 & F2 & B1 & B2).
  unfold wf. simpl.
  split; [exact L1'|]. split; [exact L2'|]. split; [exact F1|]. split; [exact F2|].
  destruct Hmask as [->|Hmask]; [left; apply window_nil|right].
  pose proof (extent_pos _ _ F1 F2).
  rewrite length_window; lia.
Qed.

(** Fixing every dimension to one index leaves one element. *)
Lemma sliceAP_singles (sh st ms c : list Z) :
  length st = length sh → length ms = length sh → inShape sh c = true →
  ∃ r, sliceAP sh st ms (singles c) = Some r ∧ TotalSize (shape (sl_ap r)) = 1.
Proof.
  revert st ms c. induction sh as [|n sh IH]; intros [|s st] [|m ms] [|i c] L1 L2 Hc;
    simpl in *; try discriminate.
  - eexists. split; [reflexivity|]. reflexivity.
  - apply andb_true_iff in Hc as [Hi Hc]. apply bool_decide_eq_true in Hi.
    destruct (IH st ms c) as (r & -> & Hr); [lia|lia|exact Hc|].
    rewrite sliceDim_single by lia. simpl.
    eexists. split; [reflexivity|]. simpl. rewrite TotalSize_cons, Hr. lia.
Qed.

(** The sub-tensor along axis [a] at an output coordinate has as many
    elements as the axis is long. *)
Lemma sliceAP_axis (sh st ms c : list Z) (a : nat) (n : Z) :
  length st = length sh → length ms = length sh →
  sh !! a = Some n → inShape (delete a sh) c = true →
  ∃ r, sliceAP sh st ms (axisSlices a None c) = Some r
       ∧ TotalSize (shape (sl_ap r)) = n.
Proof.
  revert st ms c a. induction sh as [|k sh IH]; intros [|s st] [|m ms] c a L1 L2 Ha Hc;
    simpl in *; try discriminate.
  destruct a as [|a].
  - simpl in Ha. inversion Ha; subst k. simpl in Hc.
    unfold axisSlices. simpl take. simpl drop. rewrite drop_0. simpl app.
    destruct (sliceAP_singles sh st ms c) as (r & Hr & Ht); [lia|lia|exact Hc|].
    simpl. rewrite Hr. simpl. eexists. split; [reflexivity|].
    simpl. rewrite TotalSize_cons, Ht. lia.
  - simpl in Ha. simpl in Hc. destruct c as [|i c]; [discriminate|].
    apply andb_true_iff in Hc as [Hi Hc]. apply bool_decide_eq_true in Hi.
    destruct (IH st ms c a) as (r & Hr & Ht); [lia|lia|exact Ha|exact Hc|].
    unfold axisSlices in *. simpl.
    rewrite sliceDim_single by lia. simpl. rewrite Hr. simpl.
    eexists. split; [reflexivity|]. simpl. rewrite TotalSize_cons, Ht. lia.
Qed.

(** On the reduction axis the full range and [nil] select the same. *)
Lemma sliceAP_axis_full (sh st ms c : list Z) (a : nat) (n : Z) :
  sh !! a = Some n → 1 ≤ n →
  sliceAP sh st ms (axisSlices a (makeRS 0 n) c) = sliceAP sh st ms (axisSlices a None c).
Proof.
  revert st ms c a. induction sh as [|k sh IH]; intros st ms c a Ha Hn; [discriminate|].
  destruct a as [|a].
  - simpl in Ha. inversion Ha; subst k.
    unfold axisSlices. simpl take. simpl drop. rewrite drop_0. simpl app.
    destruct st as [|s st], ms as [|m ms]; try reflexivity.
    simpl. rewrite (sliceDim_full n Hn). reflexivity.
  - simpl in Ha. unfold axisSlices in *.
    destruct c as [|i c].
    + simpl. destruct st as [|s st], ms as [|m ms]; try reflexivity.
      destruct sh as [|k' sh]; [discriminate|].
      simpl. destruct (sliceDim k (makeRS 0 n)) as [[]|], (sliceDim k None) as [[]|];
        simpl; try reflexivity; destruct st, ms; reflexivity.
    + simpl. destruct st as [|s st], ms as [|m ms]; try reflexivity.
      simpl. rewrite (IH st ms c a Ha Hn). reflexivity.
Qed.

Lemma sliceAP_whole (sh st ms : list Z) :
  length st = length sh → length ms = length sh →
  ∃ r, sliceAP sh st ms (replicate (length sh) None) = Some r ∧ shape (sl_ap r) = sh.
Proof.
  revert st ms. induction sh as [|k sh IH]; intros [|s st] [|m ms] L1 L2;
    simpl in *; try discriminate.
  - eexists. split; reflexivity.
  - destruct (IH st ms) as (r & -> & Hr); [lia|lia|]. simpl.
    eexists. split; [reflexivity|]. simpl. rewrite Hr. reflexivity.
Qed.

(** The probe of [MaskedReduce] removes the reduction axis from the
    shape. *)
Lemma sliceAP_probe (sh st ms : list Z) (a : nat) :
  length st = length sh → length ms = length sh →
  Forall (fun n => 1 ≤ n) sh → (a < length sh)%nat →
  ∃ r, sliceAP sh st ms (<[a := makeRS 0 0]> (replicate (length sh) None)) = Some r
       ∧ shape (sl_ap r) = delete a sh.
Proof.
  revert st ms a. induction sh as [|k sh IH]; intros [|s st] [|m ms] a L1 L2 Hsh Ha;
    simpl in *; try discriminate; try lia.
  inversion Hsh as [|? ? Hk Hsh']; subst.
  destruct a as [|a]; simpl.
  - rewrite (sliceDim_probe k Hk). simpl.
    destruct (sliceAP_whole sh st ms) as (r & -> & Hr); [lia|lia|]. simpl.
    eexists. split; [reflexivity|]. simpl. exact Hr.
  - destruct (IH st ms a) as (r & -> & Hr); [lia|lia|exact Hsh'|lia|]. simpl.
    eexists. split; [reflexivity|]. simpl. rewrite Hr. reflexivity.
Qed.

Lemma IsScalarShape_size (s : Shape) : IsScalarShape s = true → TotalSize s = 1.
Proof.
  destruct s as [|n [|m s]]; simpl; try discriminate.
  - reflexivity.
  - intros H. apply bool_decide_eq_true in H. subst. reflexivity.
Qed.

(** ** The loop of [MaskedReduce] *)

Lemma NewDense_spec (dt : Dtype) (s : Shape) (σ : Store) :
  Forall (fun n => 1 ≤ n) s →
  NewDense dt s σ
  = Ret (fresh (dom σ),
         <[fresh (dom σ) := newDense dt s (replicate (Z.to_nat (TotalSize s)) (zeroValue dt))]> σ).
Proof.
  intros Hs. unfold NewDense.
  assert ((if IsScalarShape s then 1 else TotalSize s) = TotalSize s) as ->.
  { destruct (IsScalarShape s) eqn:E; [|reflexivity]. symmetry. apply IsScalarShape_size, E. }
  pose proof (TotalSize_pos s Hs).
  unfold sanity, hdrLen, Size. simpl.
  rewrite andb_false_r. rewrite length_replicate, Z2Nat.id by lia.
  rewrite bool_decide_eq_true_2 by reflexivity. simpl. reflexivity.
Qed.

Section AxisLoop.
Variables (t r : loc) (fn : maskedReduceFn) (d : Dense) (dt : Dtype).
Variables (so : Shape) (a : nat).
Hypothesis Htr : t ≠ r.
Hypothesis Hfn : ∀ c, inShape so c = true →
  ∃ ts v, Dense_Slice t d (axisSlices a None c) = Some ts ∧ fn ts = Ret v.

Let off (c : list Z) : nat := Z.to_nat (offsetOf (calcStrides so) c).

(** One round per coordinate: the result of [fn] on the sub-tensor of
    the coordinate is written at its row-major position, nothing else
    changes. *)
Lemma MaskedReduce_loop_spec (it : list (list Z)) :
  ∀ (slices : list Slice) (buf : list Value) (σ : Store),
    Forall (fun c => inShape so c = true) it →
    length slices = S (length so) → (a < length slices)%nat →
    σ !! t = Some d → σ !! r = Some (newDense dt so buf) →
    Z.of_nat (length buf) = TotalSize so →
    ∃ buf',
      MaskedReduce_loop t fn (Z.of_nat a) r slices it σ
      = Ret (tt, <[r := newDense dt so buf']> σ)
      ∧ length buf' = length buf
      ∧ ∀ c, inShape so c = true →
          (c ∈ it → ∃ ts v, Dense_Slice t d (axisSlices a None c) = Some ts
                            ∧ fn ts = Ret v ∧ buf' !! off c = Some v)
          ∧ (c ∉ it → buf' !! off c = buf !! off c).
Proof.
  induction it as [|coord it IH]; intros slices buf σ Hit Hlen Ha Ht Hr Hbuf.
  - exists buf. split; [|split].
    + simpl. rewrite insert_id by exact Hr. reflexivity.
    + reflexivity.
    + intros c Hc. split; [intros Hin; inversion Hin | reflexivity].
  - inversion Hit as [|? ? Hcoord Hit']; subst.
    pose proof (inShape_length _ _ Hcoord) as Hcl.
    destruct (Hfn coord Hcoord) as (ts & v & Hts & Hv).
    simpl MaskedReduce_loop.
    rewrite (MaskedReduce_slices_start coord slices a) by (auto; lia).
    simpl. unfold deref at 1. rewrite Ht. simpl. rewrite Hts, Hv. simpl.
    unfold SetAt, deref. rewrite Hr. simpl. rewrite Hcoord. simpl.
    fold (off coord).
    pose proof (offsetOf_calcStrides_bound so coord Hcoord) as Hob.
    assert (length (axisSlices a None coord) = S (length so)) as Hlen'.
    { unfold axisSlices, singles. rewrite length_app. simpl.
      rewrite length_take, length_drop, length_fmap. lia. }
    destruct (IH (axisSlices a None coord) (<[off coord := v]> buf)
                 (<[r := newDense dt so (<[off coord := v]> buf)]> σ))
      as (buf' & Hloop & Hl & Hspec).
    + exact Hit'.
    + exact Hlen'.
    + rewrite Hlen'. rewrite Hlen in Ha. exact Ha.
    + rewrite lookup_insert_ne by congruence. exact Ht.
    + rewrite lookup_insert_eq. reflexivity.
    + rewrite length_insert. exact Hbuf.
    + exists buf'. split; [|split].
      * unfold newDense in *. simpl in *. rewrite Hloop.
        rewrite insert_insert_eq. reflexivity.
      * rewrite Hl. apply length_insert.
      * intros c Hc. destruct (Hspec c Hc) as [Hin Hout].
        pose proof (offsetOf_calcStrides_bound so c Hc) as Hcb.
        split.
        -- intros Hcin. destruct (decide (c ∈ it)) as [Hi|Hi]; [exact (Hin Hi)|].
           apply elem_of_cons in Hcin as [->|Hcin]; [|contradiction].
           exists ts, v. split; [exact Hts|]. split; [exact Hv|].
           rewrite (Hout Hi). apply list_lookup_insert_eq. unfold off. lia.
        -- intros Hcout. apply not_elem_of_cons in Hcout as [Hne Hi].
           rewrite (Hout Hi). apply list_lookup_insert_ne.
           intros Heq. apply Hne.
           apply (offsetOf_calcStrides_inj so); [exact Hc|exact Hcoord|].
           unfold off in Heq. lia.
Qed.
End AxisLoop.

Lemma Dense_Slice_cons (t : loc) (d : Dense) (s : Slice) (slices : list Slice) :
  Dense_Slice t d (s :: slices)
  = r ← sliceAP (shape (ap d)) (strides (ap d)) (maskStrides (ap d)) (s :: slices);
    Some (mkDense (sl_ap r)
            (window (sl_start r) (extent (shape (sl_ap r)) (strides (sl_ap r))) <$> data d)
            (t_dtype d) None (Some t)
            (window (sl_mstart r) (extent (shape (sl_ap r)) (maskStrides (sl_ap r))) (mask d))).
Proof. reflexivity. Qed.

Lemma axisSlices_cons (a : nat) (r : Slice) (c : list Z) :
  ∃ s slices, axisSlices a r c = s :: slices.
Proof.
  unfold axisSlices. destruct (take a (singles c)) as [|s l]; simpl; eauto.
Qed.

(** The sub-tensor of an output coordinate exists and holds as many
    elements as the reduction axis is long. *)
Lemma Dense_Slice_axis (t : loc) (d : Dense) (a : nat) (n : Z) (c : list Z) :
  wf d → shape (ap d) !! a = Some n →
  inShape (delete a (shape (ap d))) c = true →
  ∃ ts, Dense_Slice t d (axisSlices a None c) = Some ts ∧ Size ts = n.
Proof.
  intros (L1 & L2 & _) Ha Hc.
  destruct (sliceAP_axis _ (strides (ap d)) (maskStrides (ap d)) c a n L1 L2 Ha Hc)
    as (r & Hr & Hn).
  destruct (axisSlices_cons a None c) as (s & slices & E).
  rewrite E in *. rewrite Dense_Slice_cons, Hr. simpl.
  eexists. split; [reflexivity|]. exact Hn.
Qed.

(** On the reduction axis, the full range [[0, n)] selects what [nil]
    selects. *)
Lemma Dense_Slice_axis_full (t : loc) (d : Dense) (a : nat) (n : Z) (c : list Z) :
  shape (ap d) !! a = Some n → 1 ≤ n →
  Dense_Slice t d (axisSlices a (makeRS 0 n) c) = Dense_Slice t d (axisSlices a None c).
Proof.
  intros Ha Hn.
  destruct (axisSlices_cons a None c) as (s & slices & E).
  destruct (axisSlices_cons a (makeRS 0 n) c) as (s' & slices' & E').
  pose proof (sliceAP_axis_full (shape (ap d)) (strides (ap d)) (maskStrides (ap d)) c a n Ha Hn) as H.
  rewrite E, E' in *. rewrite !Dense_Slice_cons, H. reflexivity.
Qed.

Lemma Dense_Slice_probe (t : loc) (d : Dense) (a : nat) :
  wf d → (a < length (shape (ap d)))%nat →
  ∃ ts, Dense_Slice t d (<[a := makeRS 0 0]> (replicate (length (shape (ap d))) None)) = Some ts
        ∧ shape (ap ts) = delete a (shape (ap d)).
Proof.
  intros (L1 & L2 & Hsh & _) Ha.
  destruct (sliceAP_probe _ (strides (ap d)) (maskStrides (ap d)) a L1 L2 Hsh Ha)
    as (r & Hr & Hs).
  destruct (<[a := makeRS 0 0]> (replicate (length (shape (ap d))) None)) as [|s slices] eqn:E.
  { apply (f_equal length) in E. rewrite length_insert, length_replicate in E.
    simpl in E. lia. }
  rewrite Dense_Slice_cons, Hr. simpl. eexists. split; [reflexivity|]. exact Hs.
Qed.

Lemma Forall_delete_ge1 (a : nat) (s : Shape) :
  Forall (fun n => 1 ≤ n) s → Forall (fun n => 1 ≤ n) (delete a s).
Proof. apply Forall_delete. Qed.

(** [MaskedReduce] along a valid axis of a tensor that is no vector: the
    result is a fresh tensor whose shape is the shape without the axis and
    whose element at every coordinate is [fn] of the sub-tensor there. *)
Lemma MaskedReduce_axis (σ : Store) (t : loc) (d : Dense) (rt : Dtype)
    (fn : maskedReduceFn) (a : nat) (n : Z) (rest : list Z) :
  σ !! t = Some d → wf d → IsVector d = false → shape (ap d) !! a = Some n →
  (∀ c ts, inShape (delete a (shape (ap d))) c = true →
           Dense_Slice t d (axisSlices a None c) = Some ts → ∃ v, fn ts = Ret v) →
  ∃ r rv,
    MaskedReduce t rt fn (Z.of_nat a :: rest) σ = Ret (VDense r, <[r := rv]> σ)
    ∧ σ !! r = None
    ∧ shape (ap rv) = delete a (shape (ap d))
    ∧ ∀ c, inShape (delete a (shape (ap d))) c = true →
        ∃ ts v, Dense_Slice t d (axisSlices a None c) = Some ts
                ∧ wf ts ∧ Size ts = n ∧ fn ts = Ret v ∧ At rv c = Some v.
Proof.
  intros Ht Hwf Hvec Ha Hfn.
  pose proof (lookup_lt_Some _ _ _ Ha) as Hlt.
  set (so := delete a (shape (ap d))).
  set (r := fresh (dom σ)).
  assert (σ !! r = None) as Hr by (apply not_elem_of_dom, is_fresh).
  assert (t ≠ r) as Htr by (intros ->; congruence).
  assert (Forall (fun n => 1 ≤ n) so) as Hso.
  { apply Forall_delete_ge1. destruct Hwf as (_ & _ & H & _). exact H. }
  assert (length so = pred (length (shape (ap d)))) as Hsol.
  { unfold so. rewrite length_delete by (exists n; exact Ha). lia. }
  assert (∀ c, inShape so c = true →
            ∃ ts v, Dense_Slice t d (axisSlices a None c) = Some ts ∧ fn ts = Ret v) as Hfn'.
  { intros c Hc. destruct (Dense_Slice_axis t d a n c Hwf Ha Hc) as (ts & Hts & _).
    destruct (Hfn c ts Hc Hts) as (v & Hv). eauto. }
  destruct (Dense_Slice_probe t d a Hwf Hlt) as (ps & Hps & Hshape).
  set (buf0 := replicate (Z.to_nat (TotalSize so)) (zeroValue rt)).
  set (σ1 := <[r := newDense rt so buf0]> σ).
  set (slices1 := <[a := makeRS 0 0]> (replicate (length (shape (ap d))) (None : Slice))).
  destruct (MaskedReduce_loop_spec t r fn d rt so a Htr Hfn' (coords so)
              (<[a := makeRS 0 n]> slices1) buf0 σ1) as (buf' & Hloop & Hl & Hspec).
  { apply Forall_forall. intros c Hc. apply elem_of_coords, Hc. }
  { unfold slices1. rewrite !length_insert, length_replicate. lia. }
  { unfold slices1. rewrite !length_insert, length_replicate. lia. }
  { unfold σ1. rewrite lookup_insert_ne by congruence. exact Ht. }
  { unfold σ1. rewrite lookup_insert_eq. reflexivity. }
  { unfold buf0. rewrite length_replicate. pose proof (TotalSize_pos so Hso). lia. }
  exists r, (newDense rt so buf'). split; [|split; [exact Hr|split; [reflexivity|]]].
  - unfold MaskedReduce, deref. rewrite Ht. simpl.
    rewrite Hvec. simpl.
    unfold Dims. rewrite bool_decide_eq_false_2 by lia.
    rewrite Nat2Z.id, assign_Ret by (rewrite length_replicate; lia). simpl.
    rewrite Hps, Hshape. fold so.
    rewrite (NewDense_spec rt so σ Hso). fold r buf0 σ1. simpl.
    assert (σ1 !! r = Some (newDense rt so buf0)) as ->
      by (unfold σ1; apply lookup_insert_eq).
    assert (σ1 !! t = Some d) as ->
      by (unfold σ1; rewrite lookup_insert_ne by congruence; exact Ht).
    simpl.
    assert (index (shape (ap d)) (Z.of_nat a) = Ret n) as ->
      by (apply index_Ret; rewrite Nat2Z.id; split; [lia|exact Ha]).
    simpl. rewrite assign_Ret
      by (unfold slices1; rewrite length_insert, length_replicate; lia).
    simpl.
    unfold NewFlatIterator. simpl shape. fold slices1. rewrite Hloop. simpl.
    unfold σ1. rewrite insert_insert_eq. reflexivity.
  - intros c Hc. destruct (Hspec c Hc) as [Hin _].
    destruct Hin as (ts & v & Hts & Hv & Hb); [apply elem_of_coords, Hc|].
    destruct (Dense_Slice_axis t d a n c Hwf Ha Hc) as (ts' & Hts' & Hsz).
    rewrite Hts in Hts'. inversion Hts'; subst ts'.
    exists ts, v. split; [exact Hts|]. split; [exact (Dense_Slice_wf _ _ _ _ Hwf Hts)|].
    split; [exact Hsz|]. split; [exact Hv|].
    unfold At, newDense. simpl. fold so. rewrite Hc. exact Hb.
Qed.

(** ** Contiguous regions *)

Lemma consecutive_number (k : Z) (l : list Z) : consecutive k (number k l).
Proof.
  unfold consecutive. revert k. induction l as [|m l IH]; intros k; [reflexivity|].
  simpl. f_equal. apply IH.
Qed.

Lemma consecutive_split (k : Z) (pre suf : list (Z * Z)) (i mi : Z) :
  consecutive k (pre ++ (i, mi) :: suf) →
  i = k + Z.of_nat (length pre) ∧ consecutive (i + 1) suf.
Proof.
  unfold consecutive. revert k. induction pre as [|[j mj] pre IH]; intros k H.
  - simpl in H. injection H as Hi Hs. subst i. simpl. split; [lia|exact Hs].
  - simpl in H. injection H as Hj Hs.
    destruct (IH (k + 1) Hs) as [Hi Hc]. split; [|exact Hc].
    rewrite Hi. simpl length. lia.
Qed.

Lemma bool_ne_negb (b want : bool) : b ≠ negb want ↔ b = want.
Proof. destruct b, want; simpl; split; congruence. Qed.

Lemma bool_eq_negb (b want : bool) : b = negb want ↔ b ≠ want.
Proof. destruct b, want; simpl; split; congruence. Qed.

(** The loop of the contiguous-region finders returns the maximal runs of
    the state it seeks first. *)
Lemma contiguous_loop_Runs (fuel : nat) (want : bool) (msk : list bool)
    (rest : list (Z * Z)) (last k : Z) (acc : list Slice) :
  (length rest < fuel)%nat → 0 ≤ k →
  Forall (fun e => inMask msk e.2) rest → consecutive k rest →
  ∃ l, contiguous_loop fuel want (k + Z.of_nat (length rest))
         (mkMultIterator msk rest last) acc = Ret (acc ++ ranges l)
       ∧ Runs want k (restFlags msk rest) l.
Proof.
  revert rest last k acc. induction fuel as [|fuel IH]; intros rest last k acc Hlen Hk Hin Hcons;
    [lia|].
  simpl contiguous_loop.
  destruct (seekIt_spec want msk rest last Hin)
    as [(pre & i & mi & suf & -> & Hpre & Hmi & ->)|(Hall & last' & ->)].
  - (* a first element of the run is found *)
    simpl.
    apply consecutive_split in Hcons as [Hi Hcons]. subst i.
    apply Forall_app in Hin as [_ Hin]. apply Forall_cons in Hin as [Himi Hsuf].
    rewrite length_app. simpl length.
    destruct (seekIt_spec (negb want) msk suf mi Hsuf)
      as [(pre2 & j & mj & suf2 & -> & Hpre2 & Hmj & ->)|(Hall2 & last' & ->)].
    + (* and the element that ends it *)
      simpl. apply consecutive_split in Hcons as [Hj Hcons]. subst j.
      apply Forall_app in Hsuf as [_ Hsuf]. apply Forall_cons in Hsuf as [Hjmj Hsuf2].
      rewrite !bool_decide_eq_false_2 by lia. simpl.
      destruct (IH suf2 mj (k + Z.of_nat (length pre) + 1 + Z.of_nat (length pre2) + 1)
                  (acc ++ [makeRS (k + Z.of_nat (length pre))
                             (k + Z.of_nat (length pre) + 1 + Z.of_nat (length pre2))]))
        as (l & Hloop & Hruns).
      * rewrite !length_app in Hlen. simpl in Hlen. rewrite length_app in Hlen.
        simpl in Hlen. lia.
      * lia.
      * exact Hsuf2.
      * exact Hcons.
      * exists ((k + Z.of_nat (length pre),
                 k + Z.of_nat (length pre) + 1 + Z.of_nat (length pre2)) :: l).
        split.
        -- rewrite length_app. simpl length.
           replace (k + Z.of_nat (length pre + S (length pre2 + S (length suf2))))
             with (k + Z.of_nat (length pre) + 1 + Z.of_nat (length pre2) + 1
                   + Z.of_nat (length suf2)) by lia.
           rewrite Hloop. rewrite <- app_assoc. reflexivity.
        -- rewrite !restFlags_app, !restFlags_cons, restFlags_app, restFlags_cons.
           rewrite Hmj.
           change (flagAt msk mi :: restFlags msk pre2 ++ negb want :: restFlags msk suf2)
             with ((flagAt msk mi :: restFlags msk pre2) ++ negb want :: restFlags msk suf2).
           replace (k + Z.of_nat (length pre) + 1 + Z.of_nat (length pre2))
             with (k + Z.of_nat (length (restFlags msk pre))
                   + Z.of_nat (length (flagAt msk mi :: restFlags msk pre2)))
             by (simpl length; rewrite !length_restFlags; lia).
           replace (k + Z.of_nat (length pre))
             with (k + Z.of_nat (length (restFlags msk pre)))
             by (rewrite length_restFlags; lia).
           apply Runs_more.
           ++ apply restFlags_none, Hpre.
           ++ discriminate.
           ++ constructor; [exact Hmi|].
              apply restFlags_none in Hpre2.
              eapply Forall_impl; [exact Hpre2|]. intros b. apply bool_ne_negb.
           ++ simpl length. rewrite !length_restFlags.
              replace (k + Z.of_nat (length pre) + Z.of_nat (S (length pre2)) + 1)
                with (k + Z.of_nat (length pre) + 1 + Z.of_nat (length pre2) + 1) by lia.
              exact Hruns.
    + (* the run reaches the end *)
      simpl.
      rewrite (bool_decide_eq_false_2 (k + Z.of_nat (length pre) < 0)) by lia.
      simpl.
      exists [(k + Z.of_nat (length pre), k + Z.of_nat (length pre + S (length suf)))].
      split; [reflexivity|].
      rewrite restFlags_app, restFlags_cons.
      replace (k + Z.of_nat (length pre + S (length suf)))
        with (k + Z.of_nat (length (restFlags msk pre))
              + Z.of_nat (length (flagAt msk mi :: restFlags msk suf)))
        by (simpl length; rewrite !length_restFlags; lia).
      replace (k + Z.of_nat (length pre))
        with (k + Z.of_nat (length (restFlags msk pre)))
        by (rewrite length_restFlags; lia).
      apply Runs_last.
      * apply restFlags_none, Hpre.
      * discriminate.
      * constructor; [exact Hmi|].
        apply restFlags_none in Hall2.
        eapply Forall_impl; [exact Hall2|]. intros b. apply bool_ne_negb.
  - (* nothing left in the sought state *)
    simpl. unfold seekIt. simpl.
    exists []. split; [unfold ranges; simpl; rewrite app_nil_r; reflexivity|].
    apply Runs_none, restFlags_none, Hall.
Qed.

Lemma chain_bounds (lo hi : Z) (l : list (Z * Z)) (s e : Z) :
  chain lo hi l → (s, e) ∈ l → lo ≤ s ∧ s < e ∧ e ≤ hi.
Proof.
  revert lo. induction l as [|[s0 e0] l IH]; intros lo Hc Hin.
  - inversion Hin.
  - destruct Hc as (H1 & H2 & H3 & Hc). apply elem_of_cons in Hin as [Heq|Hin].
    + inversion Heq; subst. lia.
    + specialize (IH (e0 + 1) Hc Hin). lia.
Qed.

Lemma chain_separated (lo hi : Z) (l : list (Z * Z)) (s e s' e' : Z) :
  chain lo hi l → (s, e) ∈ l → (s', e') ∈ l →
  (s, e) = (s', e') ∨ e < s' ∨ e' < s.
Proof.
  revert lo. induction l as [|[s0 e0] l IH]; intros lo Hc H1 H2.
  - inversion H1.
  - destruct Hc as (B1 & B2 & B3 & Hc).
    apply elem_of_cons in H1 as [E1|H1]; apply elem_of_cons in H2 as [E2|H2].
    + left. congruence.
    + inversion E1; subst. pose proof (chain_bounds _ _ _ _ _ Hc H2). right. left. lia.
    + inversion E2; subst. pose proof (chain_bounds _ _ _ _ _ Hc H1). right. right. lia.
    + exact (IH _ Hc H1 H2).
Qed.

Lemma chain_last (lo hi : Z) (l : list (Z * Z)) (s : Z) :
  chain lo hi l → (s, hi) ∈ l → last l = Some (s, hi).
Proof.
  revert lo. induction l as [|[s0 e0] l IH]; intros lo Hc Hin.
  - inversion Hin.
  - destruct Hc as (B1 & B2 & B3 & Hc). apply elem_of_cons in Hin as [Heq|Hin].
    + inversion Heq; subst. destruct l as [|[s1 e1] l]; [reflexivity|].
      destruct Hc as (C1 & C2 & C3 & _). lia.
    + rewrite <- (IH _ Hc Hin). destruct l; [inversion Hin | reflexivity].
Qed.

Lemma Runs_chain (want : bool) (k : Z) (fl : list bool) (l : list (Z * Z)) :
  Runs want k fl l → chain k (k + Z.of_nat (length fl)) l.
Proof.
  induction 1 as [k fl Hall|k pre mid Hpre Hne Hmid|k pre mid suf l Hpre Hne Hmid Hr IH].
  - exact I.
  - simpl. rewrite length_app. destruct mid; [congruence|]. simpl length. lia.
  - simpl. rewrite !length_app. simpl length.
    destruct mid as [|b mid]; [congruence|]. simpl length in *.
    split; [lia|]. split; [lia|]. split; [lia|].
    replace (k + Z.of_nat (length pre + (S (length mid) + S (length suf))))
      with (k + Z.of_nat (length pre) + Z.of_nat (S (length mid)) + 1 + Z.of_nat (length suf))
      by lia.
    exact IH.
Qed.

Lemma Forall_ne_lookup (want : bool) (fl : list bool) (n : nat) :
  Forall (fun b => b ≠ want) fl → fl !! n ≠ Some want.
Proof.
  intros Hall Hn. rewrite Forall_lookup in Hall. exact (Hall n want Hn eq_refl).
Qed.

Lemma Forall_eq_lookup (want : bool) (fl : list bool) (n : nat) :
  Forall (fun b => b = want) fl → (n < length fl)%nat → fl !! n = Some want.
Proof.
  intros Hall Hn. destruct (lookup_lt_is_Some_2 fl n Hn) as [b Hb].
  rewrite Forall_lookup in Hall. rewrite (Hall n b Hb) in Hb. exact Hb.
Qed.

(** The ranges cover exactly the positions whose flag is [want]. *)
Lemma Runs_cover (want : bool) (k : Z) (fl : list bool) (l : list (Z * Z)) :
  Runs want k fl l →
  ∀ n, (n < length fl)%nat → covered l (k + Z.of_nat n) ↔ fl !! n = Some want.
Proof.
  intros HR. pose proof (Runs_chain _ _ _ _ HR) as Hchain. revert Hchain.
  induction HR as [k fl Hall|k pre mid Hpre Hne Hmid|k pre mid suf l Hpre Hne Hmid Hr IH];
    intros Hchain n Hn.
  - split.
    + intros (s & e & Hin & _). inversion Hin.
    + intros H. exfalso. exact (Forall_ne_lookup _ _ _ Hall H).
  - rewrite length_app in Hn. split.
    + intros (s & e & Hin & Hi). apply list_elem_of_singleton in Hin. inversion Hin; subst.
      rewrite lookup_app_r by lia. apply Forall_eq_lookup; [exact Hmid|lia].
    + intros H. destruct (decide (n < length pre)%nat) as [Hlt|Hge].
      * rewrite lookup_app_l in H by exact Hlt. exfalso. exact (Forall_ne_lookup _ _ _ Hpre H).
      * eexists _, _. split; [apply list_elem_of_singleton; reflexivity|]. lia.
  - rewrite !length_app in Hn. simpl length in Hn.
    destruct Hchain as (C1 & C2 & C3 & Hchain).
    set (k' := k + Z.of_nat (length pre) + Z.of_nat (length mid) + 1) in *.
    assert (chain k' (k' + Z.of_nat (length suf)) l) as Hchain' by (apply Runs_chain in Hr; exact Hr).
    destruct (decide (n < length pre)%nat) as [H1|H1];
      [|destruct (decide (n < length pre + length mid)%nat) as [H2|H2];
        [|destruct (decide (n = length pre + length mid)%nat) as [H3|H3]]].
    + (* before the run *)
      rewrite lookup_app_l by exact H1. split.
      * intros (s & e & Hin & Hi). apply elem_of_cons in Hin as [Heq|Hin].
        -- inversion Heq; subst. lia.
        -- pose proof (chain_bounds _ _ _ _ _ Hchain' Hin). unfold k' in *. lia.
      * intros H. exfalso. exact (Forall_ne_lookup _ _ _ Hpre H).
    + (* inside the run *)
      rewrite lookup_app_r by lia. rewrite lookup_app_l by lia. split.
      * intros _. apply Forall_eq_lookup; [exact Hmid|lia].
      * intros _. eexists _, _. split; [left|]. lia.
    + (* the position that ends the run *)
      rewrite lookup_app_r by lia. rewrite lookup_app_r by lia.
      replace (n - length pre - length mid)%nat with 0%nat by lia. simpl. split.
      * intros (s & e & Hin & Hi). apply elem_of_cons in Hin as [Heq|Hin].
        -- inversion Heq; subst. lia.
        -- pose proof (chain_bounds _ _ _ _ _ Hchain' Hin). unfold k' in *. lia.
      * intros H. destruct want; discriminate.
    + (* after it *)
      rewrite lookup_app_r by lia. rewrite lookup_app_r by lia.
      replace (n - length pre - length mid)%nat
        with (S (n - length pre - length mid - 1))%nat by lia.
      simpl. rewrite <- (IH Hchain' (n - length pre - length mid - 1)%nat) by lia.
      replace (k' + Z.of_nat (n - length pre - length mid - 1)) with (k + Z.of_nat n)
        by (unfold k'; lia).
      split.
      * intros (s & e & Hin & Hi). apply elem_of_cons in Hin as [Heq|Hin].
        -- inversion Heq; subst. lia.
        -- exists s, e. auto.
      * intros (s & e & Hin & Hi). exists s, e. split; [right; exact Hin|exact Hi].
Qed.

Lemma lookup_not_want (want : bool) (fl : list bool) (n : nat) :
  (n < length fl)%nat → fl !! n ≠ Some want → fl !! n = Some (negb want).
Proof.
  intros Hn Hne. destruct (lookup_lt_is_Some_2 fl n Hn) as [b Hb].
  rewrite Hb in *. f_equal. destruct b, want; simpl; congruence.
Qed.

Lemma Runs_regions (want : bool) (fl : list bool) (l : list (Z * Z)) :
  Runs want 0 fl l → regions want fl (Z.of_nat (length fl)) l.
Proof.
  intros HR. pose proof (Runs_chain _ _ _ _ HR) as Hchain. simpl in Hchain.
  assert (∀ i, 0 ≤ i < Z.of_nat (length fl) →
            covered l i ↔ fl !! Z.to_nat i = Some want) as Hcover.
  { intros i Hi. rewrite <- (Runs_cover _ _ _ _ HR (Z.to_nat i)) by lia.
    replace (0 + Z.of_nat (Z.to_nat i)) with i by lia. reflexivity. }
  split; [exact Hchain|]. split; [exact Hcover|]. split.
  - intros s e Hin. pose proof (chain_bounds _ _ _ _ _ Hchain Hin) as Hb. split.
    + destruct (decide (s = 0)) as [->|Hs]; [left; reflexivity|right].
      apply lookup_not_want; [lia|]. rewrite <- Hcover by lia.
      intros (s' & e' & Hin' & Hi).
      destruct (chain_separated _ _ _ _ _ _ _ Hchain Hin Hin') as [Heq|[H|H]];
        [inversion Heq; subst|..]; lia.
    + destruct (decide (e = Z.of_nat (length fl))) as [->|He]; [left; reflexivity|right].
      apply lookup_not_want; [lia|]. rewrite <- Hcover by lia.
      intros (s' & e' & Hin' & Hi).
      destruct (chain_separated _ _ _ _ _ _ _ Hchain Hin Hin') as [Heq|[H|H]];
        [inversion Heq; subst|..]; lia.
  - intros Hlast. assert (0 < Z.of_nat (length fl)) as Hpos.
    { destruct fl; [discriminate|]. simpl length. lia. }
    apply Hcover in Hlast as (s & e & Hin & Hi); [|lia].
    pose proof (chain_bounds _ _ _ _ _ Hchain Hin) as Hb.
    assert (e = Z.of_nat (length fl)) as -> by lia.
    exists s. apply (chain_last 0). exact Hchain. exact Hin.
Qed.

(** The finders on a well-formed tensor with row-major strides. *)
Lemma contiguous_spec (first : bool) (d : Dense) :
  wf d → strides (ap d) = calcStrides (shape (ap d)) →
  ∃ l, contiguous_loop (S (length (it_rest (MultIteratorFromDense d)))) first (Size d)
         (MultIteratorFromDense d) [] = Ret (ranges l)
       ∧ regions first (flags d) (Size d) l.
Proof.
  intros Hwf Hst. rewrite (MultIteratorFromDense_row_major d Hwf Hst). simpl it_rest.
  destruct (contiguous_loop_Runs (S (length (number 0 (maskOffsets d)))) first (mask d)
              (number 0 (maskOffsets d)) 0 0 [])
    as (l & Hloop & Hruns).
  - lia.
  - lia.
  - apply Forall_number, maskOffsets_inMask, Hwf.
  - apply consecutive_number.
  - rewrite restFlags_number in Hruns. fold (flags d) in Hruns.
    pose proof (length_flags d Hwf) as Hfl.
    rewrite length_number in Hloop.
    assert (Z.of_nat (length (maskOffsets d)) = Size d) as Hmo.
    { unfold flags in Hfl. rewrite length_fmap in Hfl. exact Hfl. }
    simpl in Hloop. rewrite Hmo in Hloop.
    exists l. split.
    + rewrite length_number. exact Hloop.
    + rewrite <- Hfl. apply Runs_regions, Hruns.
Qed.

(** ** Edges *)

Lemma seekIt_forward (want : bool) (msk : list bool) (rest : list (Z * Z)) (last : Z) :
  Forall (fun e => inMask msk e.2) rest → consecutive 0 rest →
  (∃ n, restFlags msk rest !! n = Some want) →
  ∃ s it', seekIt want (mkMultIterator msk rest last) = Ret ((s, None), it')
           ∧ firstAt want (restFlags msk rest) s.
Proof.
  intros Hin Hcons (n & Hn).
  destruct (seekIt_spec want msk rest last Hin)
    as [(pre & i & mi & suf & -> & Hpre & Hmi & Hs)|(Hall & _)].
  - apply consecutive_split in Hcons as [Hi _]. subst i.
    eexists _, _. split; [exact Hs|].
    rewrite restFlags_app, restFlags_cons.
    split; [lia|]. rewrite Z.add_0_l, Nat2Z.id. split.
    + rewrite <- Hmi. apply list_lookup_middle. symmetry. apply length_restFlags.
    + intros m Hm. rewrite lookup_app_l by (rewrite length_restFlags; exact Hm).
      apply Forall_ne_lookup. apply restFlags_none, Hpre.
  - exfalso. exact (Forall_ne_lookup _ _ _ (restFlags_none _ _ _ Hall) Hn).
Qed.

Lemma seekIt_backward (want : bool) (msk : list bool) (rest : list (Z * Z)) (last : Z) :
  Forall (fun e => inMask msk e.2) rest → consecutive 0 rest →
  (∃ n, restFlags msk rest !! n = Some want) →
  ∃ e it', seekIt want (mkMultIterator msk (reverse rest) last) = Ret ((e, None), it')
           ∧ lastAt want (restFlags msk rest) e.
Proof.
  intros Hin Hcons (n & Hn).
  destruct (seekIt_spec want msk (reverse rest) last)
    as [(pre & i & mi & suf & Hrev & Hpre & Hmi & Hs)|(Hall & _)].
  { apply Forall_reverse. exact Hin. }
  - assert (rest = reverse suf ++ (i, mi) :: reverse pre) as ->.
    { rewrite <- (reverse_involutive rest), Hrev.
      rewrite reverse_app, reverse_cons, <- app_assoc. reflexivity. }
    apply consecutive_split in Hcons as [Hi _]. subst i.
    eexists _, _. split; [exact Hs|].
    rewrite restFlags_app, restFlags_cons.
    split; [lia|]. rewrite Z.add_0_l, Nat2Z.id. split.
    + rewrite <- Hmi. apply list_lookup_middle. symmetry. apply length_restFlags.
    + intros m Hm. rewrite lookup_app_r by (rewrite length_restFlags; lia).
      rewrite length_restFlags.
      replace (m - length (reverse suf))%nat with (S (m - length (reverse suf) - 1)) by lia.
      simpl. apply Forall_ne_lookup. apply restFlags_none.
      apply Forall_reverse. exact Hpre.
  - exfalso. apply Forall_reverse in Hall. rewrite reverse_involutive in Hall.
    exact (Forall_ne_lookup _ _ _ (restFlags_none _ _ _ Hall) Hn).
Qed.

(** The first range starts at the first position of the state. *)
Lemma regions_head (want : bool) (fl : list bool) (l : list (Z * Z)) (s : Z) :
  regions want fl (Z.of_nat (length fl)) l → firstAt want fl s →
  ∃ e1, head l = Some (s, e1).
Proof.
  intros (Hchain & Hcover & _ & _) (Hs0 & Hs & Hbefore).
  pose proof (lookup_lt_Some _ _ _ Hs) as Hlt.
  destruct (proj2 (Hcover s ltac:(lia)) Hs) as (s' & e' & Hin & Hi).
  destruct l as [|[s1 e1] l']; [inversion Hin|].
  exists e1. simpl. do 2 f_equal.
  destruct Hchain as (C1 & C2 & C3 & Hchain).
  assert (s1 ≤ s) as Hle.
  { apply elem_of_cons in Hin as [Heq|Hin]; [inversion Heq; subst; lia|].
    pose proof (chain_bounds _ _ _ _ _ Hchain Hin). lia. }
  assert (fl !! Z.to_nat s1 = Some want) as H1.
  { apply Hcover; [lia|]. exists s1, e1. split; [left|lia]. }
  destruct (decide (s1 = s)) as [->|Hne]; [reflexivity|].
  exfalso. apply (Hbefore (Z.to_nat s1)); [lia|exact H1].
Qed.

Lemma chain_last_of (lo hi : Z) (l : list (Z * Z)) (s e : Z) :
  chain lo hi l → (s, e) ∈ l → (∀ s' e', (s', e') ∈ l → s' ≤ e) →
  last l = Some (s, e).
Proof.
  revert lo. induction l as [|[s0 e0] l IH]; intros lo Hc Hin Hall.
  - inversion Hin.
  - destruct Hc as (B1 & B2 & B3 & Hc).
    destruct l as [|[s1 e1] l].
    + apply list_elem_of_singleton in Hin. rewrite Hin. reflexivity.
    + apply elem_of_cons in Hin as [Heq|Hin].
      * inversion Heq; subst. destruct Hc as (C1 & _).
        specialize (Hall s1 e1 ltac:(right; left)). lia.
      * change (last ((s0, e0) :: (s1, e1) :: l)) with (last ((s1, e1) :: l)).
        apply (IH _ Hc Hin). intros s' e' Hin'. apply (Hall s' e'). right. exact Hin'.
Qed.

(** The last range ends just after the last position of the state. *)
Lemma regions_last (want : bool) (fl : list bool) (l : list (Z * Z)) (e : Z) :
  regions want fl (Z.of_nat (length fl)) l → lastAt want fl e →
  ∃ sL, last l = Some (sL, e + 1).
Proof.
  intros (Hchain & Hcover & _ & _) (He0 & He & Hafter).
  pose proof (lookup_lt_Some _ _ _ He) as Hlt.
  destruct (proj2 (Hcover e ltac:(lia)) He) as (s' & e' & Hin & Hi).
  pose proof (chain_bounds _ _ _ _ _ Hchain Hin) as Hb.
  assert (e' = e + 1) as ->.
  { assert (fl !! Z.to_nat (e' - 1) = Some want) as H1.
    { apply Hcover; [lia|]. exists s', e'. split; [exact Hin|lia]. }
    destruct (decide (e' = e + 1)) as [Heq|Hne]; [exact Heq|].
    exfalso. apply (Hafter (Z.to_nat (e' - 1))); [lia|exact H1]. }
  exists s'. apply (chain_last_of 0 (Z.of_nat (length fl))); [exact Hchain|exact Hin|].
  intros s'' e'' Hin''.
  pose proof (chain_bounds _ _ _ _ _ Hchain Hin'') as Hb''.
  destruct (decide (s'' ≤ e + 1)) as [Hle|Hgt]; [exact Hle|].
  exfalso. apply (Hafter (Z.to_nat s'')); [lia|].
  apply Hcover; [lia|]. exists s'', e''. split; [exact Hin''|lia].
Qed.

(** ** The tensors of the tests *)

Lemma wf_cubeT : wf cubeT.
Proof. apply (bool_decide_unpack _). vm_compute. reflexivity. Qed.

Lemma wf_rowT : wf rowT.
Proof. apply (bool_decide_unpack _). vm_compute. reflexivity. Qed.

Lemma wf_broadcastT : wf broadcastT.
Proof. apply (bool_decide_unpack _). vm_compute. reflexivity. Qed.

(** ** The paths of [MaskedReduce] *)

(** The whole-tensor path: no axis, or a vector. *)
Lemma MaskedReduce_whole (σ : Store) (t : loc) (d : Dense) (retType : Dtype)
    (fn : maskedReduceFn) (axis : list Z) :
  σ !! t = Some d → axis = [] ∨ IsVector d = true →
  MaskedReduce t retType fn axis σ = (v ← fn d; Ret (v, σ)).
Proof.
  intros Ht H. unfold MaskedReduce, deref. rewrite Ht. simpl.
  destruct H as [-> | ->]; [reflexivity|]. rewrite orb_true_r. reflexivity.
Qed.

(** The axis-wise path for a callback that computes [val] on well-formed
    tensors. *)
Lemma MaskedReduce_axis_val (σ : Store) (t : loc) (d : Dense) (retType : Dtype)
    (fn : maskedReduceFn) (val : Dense → Value) (a : nat) (n : Z) (more : list Z) :
  σ !! t = Some d → wf d → IsVector d = false → shape (ap d) !! a = Some n →
  (∀ ts, wf ts → fn ts = Ret (val ts)) →
  ∃ r rv,
    MaskedReduce t retType fn (Z.of_nat a :: more) σ = Ret (VDense r, <[r := rv]> σ)
    ∧ shape (ap rv) = delete a (shape (ap d))
    ∧ ∀ c ts, inShape (delete a (shape (ap d))) c = true →
        Dense_Slice t d (axisSlices a None c) = Some ts →
        wf ts ∧ Size ts = n ∧ At rv c = Some (val ts).
Proof.
  intros Ht Hwf Hvec Ha Hfn.
  destruct (MaskedReduce_axis σ t d retType fn a n more Ht Hwf Hvec Ha)
    as (r & rv & Hrun & Hr & Hshape & Hel).
  { intros c ts _ Hts. eexists. apply Hfn. exact (Dense_Slice_wf _ _ _ _ Hwf Hts). }
  exists r, rv. split; [exact Hrun|]. split; [exact Hshape|].
  intros c ts Hc Hts.
  destruct (Hel c Hc) as (ts' & v & Hts' & Hwf' & Hsz & Hv & Hat).
  rewrite Hts in Hts'. inversion Hts'; subst ts'.
  rewrite (Hfn ts Hwf') in Hv. inversion Hv; subst v. auto.
Qed.

(** An axis at or beyond the rank gives the sentinel. *)
Lemma MaskedReduce_sentinel (σ : Store) (t : loc) (d : Dense)
    (retType : Dtype) (fn : maskedReduceFn) (ax : Z) (more : list Z) :
  σ !! t = Some d → IsVector d = false → Dims d ≤ ax →
  MaskedReduce t retType fn (ax :: more) σ = Ret (VInt (-1), σ).
Proof.
  intros Ht Hvec Hax. unfold MaskedReduce, deref. rewrite Ht. simpl. rewrite Hvec. simpl.
  rewrite bool_decide_eq_true_2 by exact Hax. reflexivity.
Qed.

Lemma FlatContiguous_unfold (σ : Store) (t : loc) (d : Dense) :
  σ !! t = Some d →
  FlatNotMaskedContiguous t σ
  = (r ← contiguous_loop (S (length (it_rest (MultIteratorFromDense d)))) false (Size d)
           (MultIteratorFromDense d) []; Ret (r, σ))
  ∧ FlatMaskedContiguous t σ
    = (r ← contiguous_loop (S (length (it_rest (MultIteratorFromDense d)))) true (Size d)
             (MultIteratorFromDense d) []; Ret (r, σ)).
Proof.
  intros Ht. unfold FlatNotMaskedContiguous, FlatMaskedContiguous, deref.
  rewrite Ht. split; reflexivity.
Qed.

(** The edges of a state that occurs in a well-formed tensor with
    row-major strides: what the forward and the reverse iterator find
    first. *)
Lemma edges_spec (want : bool) (d : Dense) :
  wf d → strides (ap d) = calcStrides (shape (ap d)) →
  (∃ n, flags d !! n = Some want) →
  ∃ s e its ite,
    seekIt want (MultIteratorFromDense d) = Ret ((s, None), its)
    ∧ seekIt want (SetReverse (MultIteratorFromDense d)) = Ret ((e, None), ite)
    ∧ firstAt want (flags d) s ∧ lastAt want (flags d) e.
Proof.
  intros Hwf Hst Hex. rewrite <- flags_MultIterator in *.
  rewrite (MultIteratorFromDense_row_major d Hwf Hst) in *.
  unfold SetReverse in *. simpl in *.
  assert (Forall (fun e => inMask (mask d) e.2) (number 0 (maskOffsets d))) as Hin
    by (apply Forall_number, maskOffsets_inMask, Hwf).
  pose proof (consecutive_number 0 (maskOffsets d)) as Hcons.
  destruct (seekIt_forward want (mask d) _ 0 Hin Hcons Hex) as (s & its & Hs & Hfirst).
  destruct (seekIt_backward want (mask d) _ 0 Hin Hcons Hex) as (e & ite & He & Hlast).
  exists s, e, its, ite. auto.
Qed.

(** ** What the operations leave in the store *)

(** Inverting one step of a computation that returned. *)
Ltac returned_step H :=
  cbn beta iota in H;
  lazymatch type of H with
  | mbind _ ?m = Ret _ =>
      let E := fresh "E" in
      destruct m eqn:E; cbn [mbind outcome_bind] in H; [|discriminate H|discriminate H]
  | (if ?b then _ else _) = Ret _ =>
      let E := fresh "E" in destruct b eqn:E
  | match ?x with _ => _ end = Ret _ =>
      let E := fresh "E" in destruct x eqn:E; try discriminate H
  end.

Lemma SetAt_frame (r : loc) (v : Value) (coord : list Z) (σ σ' : Store) (e : option error) :
  SetAt r v coord σ = Ret (e, σ') → ∀ p, p ≠ r → σ' !! p = σ !! p.
Proof.
  intros H p Hp. unfold SetAt in H.
  returned_step H. returned_step H.
  - inversion H; subst. apply lookup_insert_ne. congruence.
  - inversion H; subst. reflexivity.
Qed.

(** The loop of [MaskedReduce] writes to [retVal] only. *)
Lemma MaskedReduce_loop_frame (t : loc) (fn : maskedReduceFn) (ax : Z) (r : loc)
    (it : list (list Z)) :
  ∀ slices σ σ', MaskedReduce_loop t fn ax r slices it σ = Ret (tt, σ') →
  ∀ p, p ≠ r → σ' !! p = σ !! p.
Proof.
  induction it as [|coord it IH]; intros slices σ σ' H p Hp.
  - simpl in H. inversion H; subst. reflexivity.
  - simpl in H.
    returned_step H. returned_step H. returned_step H. returned_step H. returned_step H.
    match goal with
    | E : SetAt _ _ _ _ = Ret ?a |- _ =>
        destruct a as [e σ1]; rewrite (IH _ _ _ H p Hp);
        exact (SetAt_frame _ _ _ _ _ _ E p Hp)
    end.
Qed.

(** [MaskedReduce] allocates its result and changes no tensor of the
    store it is given. *)
Lemma MaskedReduce_frame (σ σ' : Store) (t : loc) (retType : Dtype)
    (fn : maskedReduceFn) (axis : list Z) (v : Value) :
  MaskedReduce t retType fn axis σ = Ret (v, σ') →
  ∀ p x, σ !! p = Some x → σ' !! p = Some x.
Proof.
  intros H p x Hp. unfold MaskedReduce in H.
  returned_step H. returned_step H.
  { returned_step H. inversion H; subst. exact Hp. }
  returned_step H. returned_step H.
  { inversion H; subst. exact Hp. }
  returned_step H. returned_step H. returned_step H.
  match goal with
  | E : NewDense _ _ _ = Ret ?a |- _ =>
      destruct a as [retVal σ1]; unfold NewDense in E;
      returned_step E; returned_step E; inversion E; subst; clear E
  end.
  returned_step H. returned_step H. returned_step H. returned_step H. returned_step H.
  assert (p ≠ fresh (dom σ)) as Hne.
  { intros ->. apply (is_fresh (dom σ)). apply elem_of_dom. eauto. }
  match goal with
  | E : MaskedReduce_loop _ _ _ _ _ _ _ = Ret ?a |- _ =>
      destruct a as [[] σ2]; inversion H; subst;
      rewrite (MaskedReduce_loop_frame _ _ _ _ _ _ _ _ E p Hne)
  end.
  rewrite lookup_insert_ne by congruence. exact Hp.
Qed.

Lemma reading_frame {A : Type} (t : loc) (f : Dense → outcome A) (σ σ' : Store) (a : A) :
  (d ← deref t σ; r ← f d; Ret (r, σ)) = Ret (a, σ') → σ' = σ.
Proof.
  intros H. returned_step H. returned_step H. inversion H. reflexivity.
Qed.

(** * The claims *)

(** ** The repository's tests, on the model *)

(** "vector case": the row of twelve elements. *)
Example test_vector_case :
  MaskedAny 1%positive [] (single rowT) = Ret (VBool true, single rowT)
  ∧ MaskedAny 1%positive [0] (single rowT) = Ret (VBool true, single rowT)
  ∧ MaskedAll 1%positive [0] (single rowT) = Ret (VBool false, single rowT)
  ∧ MaskedCount 1%positive [0] (single rowT) = Ret (VInt 6, single rowT)
  ∧ NonMaskedCount 1%positive [0] (single rowT) = Ret (VInt 6, single rowT).
Proof. repeat split; vm_compute; reflexivity. Qed.

(** "contiguous mask case". *)
Example test_contiguous_mask :
  MaskedAll 1%positive [] (single cubeT) = Ret (VBool false, single cubeT)
  ∧ MaskedAny 1%positive [] (single cubeT) = Ret (VBool true, single cubeT)
  ∧ MaskedCount 1%positive [] (single cubeT) = Ret (VInt 2, single cubeT)
  ∧ NonMaskedCount 1%positive [] (single cubeT) = Ret (VInt 10, single cubeT)
  ∧ returned (MaskedAll 1%positive [0] (single cubeT)) = Some ([3; 2], bools [false; false; false; false; false; false])
  ∧ returned (MaskedAny 1%positive [0] (single cubeT)) = Some ([3; 2], bools [true; false; false; false; true; false])
  ∧ returned (MaskedCount 1%positive [0] (single cubeT)) = Some ([3; 2], ints [1; 0; 0; 0; 1; 0])
  ∧ returned (NonMaskedCount 1%positive [0] (single cubeT)) = Some ([3; 2], ints [1; 2; 2; 2; 1; 2])
  ∧ returned (MaskedAll 1%positive [1] (single cubeT)) = Some ([2; 2], bools [false; false; false; false])
  ∧ returned (MaskedAny 1%positive [1] (single cubeT)) = Some ([2; 2], bools [true; false; false; false])
  ∧ returned (MaskedCount 1%positive [1] (single cubeT)) = Some ([2; 2], ints [2; 0; 0; 0])
  ∧ returned (NonMaskedCount 1%positive [1] (single cubeT)) = Some ([2; 2], ints [1; 3; 3; 3])
  ∧ returned (MaskedAll 1%positive [2] (single cubeT)) = Some ([2; 3], bools [false; false; false; false; false; false])
  ∧ returned (MaskedAny 1%positive [2] (single cubeT)) = Some ([2; 3], bools [true; false; true; false; false; false])
  ∧ returned (MaskedCount 1%positive [2] (single cubeT)) = Some ([2; 3], ints [1; 0; 1; 0; 0; 0])
  ∧ returned (NonMaskedCount 1%positive [2] (single cubeT)) = Some ([2; 3], ints [1; 2; 1; 2; 2; 2]).
Proof. repeat split; vm_compute; reflexivity. Qed.

(** "non-contiguous mask case 1". *)
Example test_non_contiguous_mask_1 :
  MaskedAll 1%positive [] (single case1T) = Ret (VBool false, single case1T)
  ∧ MaskedAny 1%positive [] (single case1T) = Ret (VBool true, single case1T)
  ∧ MaskedCount 1%positive [] (single case1T) = Ret (VInt 4, single case1T)
  ∧ NonMaskedCount 1%positive [] (single case1T) = Ret (VInt 8, single case1T)
  ∧ returned (MaskedAll 1%positive [0] (single case1T)) = Some ([3; 2], bools [false; false; false; false; false; false])
  ∧ returned (MaskedAny 1%positive [0] (single case1T)) = Some ([3; 2], bools [true; true; false; false; true; true])
  ∧ returned (MaskedCount 1%positive [0] (single case1T)) = Some ([3; 2], ints [1; 1; 0; 0; 1; 1])
  ∧ returned (NonMaskedCount 1%positive [0] (single case1T)) = Some ([3; 2], ints [1; 1; 2; 2; 1; 1])
  ∧ returned (MaskedAll 1%positive [1] (single case1T)) = Some ([2; 2], bools [false; false; false; false])
  ∧ returned (MaskedAny 1%positive [1] (single case1T)) = Some ([2; 2], bools [true; true; false; false])
  ∧ returned (MaskedCount 1%positive [1] (single case1T)) = Some ([2; 2], ints [2; 2; 0; 0])
  ∧ returned (NonMaskedCount 1%positive [1] (single case1T)) = Some ([2; 2], ints [1; 1; 3; 3])
  ∧ returned (MaskedAll 1%positive [2] (single case1T)) = Some ([2; 3], bools [true; false; true; false; false; false])
  ∧ returned (MaskedAny 1%positive [2] (single case1T)) = Some ([2; 3], bools [true; false; true; false; false; false])
  ∧ returned (MaskedCount 1%positive [2] (single case1T)) = Some ([2; 3], ints [2; 0; 2; 0; 0; 0])
  ∧ returned (NonMaskedCount 1%positive [2] (single case1T)) = Some ([2; 3], ints [0; 2; 0; 2; 2; 2]).
Proof. repeat split; vm_compute; reflexivity. Qed.

(** "non-contiguous mask case 2". *)
Example test_non_contiguous_mask_2 :
  MaskedAll 1%positive [] (single case2T) = Ret (VBool false, single case2T)
  ∧ MaskedAny 1%positive [] (single case2T) = Ret (VBool true, single case2T)
  ∧ MaskedCount 1%positive [] (single case2T) = Ret (VInt 3, single case2T)
  ∧ NonMaskedCount 1%positive [] (single case2T) = Ret (VInt 9, single case2T)
  ∧ returned (MaskedAll 1%positive [0] (single case2T)) = Some ([3; 2], bools [false; false; false; false; false; false])
  ∧ returned (MaskedAny 1%positive [0] (single case2T)) = Some ([3; 2], bools [true; false; true; false; true; false])
  ∧ returned (MaskedCount 1%positive [0] (single case2T)) = Some ([3; 2], ints [1; 0; 1; 0; 1; 0])
  ∧ returned (NonMaskedCount 1%positive [0] (single case2T)) = Some ([3; 2], ints [1; 2; 1; 2; 1; 2])
  ∧ returned (MaskedAll 1%positive [1] (single case2T)) = Some ([2; 2], bools [true; false; false; false])
  ∧ returned (MaskedAny 1%positive [1] (single case2T)) = Some ([2; 2], bools [true; false; false; false])
  ∧ returned (MaskedCount 1%positive [1] (single case2T)) = Some ([2; 2], ints [3; 0; 0; 0])
  ∧ returned (NonMaskedCount 1%positive [1] (single case2T)) = Some ([2; 2], ints [0; 3; 3; 3])
  ∧ returned (MaskedAll 1%positive [2] (single case2T)) = Some ([2; 3], bools [false; false; false; false; false; false])
  ∧ returned (MaskedAny 1%positive [2] (single case2T)) = Some ([2; 3], bools [true; true; true; false; false; false])
  ∧ returned (MaskedCount 1%positive [2] (single case2T)) = Some ([2; 3], ints [1; 1; 1; 0; 0; 0])
  ∧ returned (NonMaskedCount 1%positive [2] (single case2T)) = Some ([2; 3], ints [1; 1; 1; 2; 2; 2]).
Proof. repeat split; vm_compute; reflexivity. Qed.

(** "non-contiguous mask case 3". *)
Example test_non_contiguous_mask_3 :
  MaskedAll 1%positive [] (single case3T) = Ret (VBool false, single case3T)
  ∧ MaskedAny 1%positive [] (single case3T) = Ret (VBool true, single case3T)
  ∧ MaskedCount 1%positive [] (single case3T) = Ret (VInt 4, single case3T)
  ∧ NonMaskedCount 1%positive [] (single case3T) = Ret (VInt 8, single case3T)
  ∧ returned (MaskedAll 1%positive [0] (single case3T)) = Some ([3; 2], bools [true; false; false; false; true; false])
  ∧ returned (MaskedAny 1%positive [0] (single case3T)) = Some ([3; 2], bools [true; false; false; false; true; false])
  ∧ returned (MaskedCount 1%positive [0] (single case3T)) = Some ([3; 2], ints [2; 0; 0; 0; 2; 0])
  ∧ returned (NonMaskedCount 1%positive [0] (single case3T)) = Some ([3; 2], ints [0; 2; 2; 2; 0; 2])
  ∧ returned (MaskedAll 1%positive [1] (single case3T)) = Some ([2; 2], bools [false; false; false; false])
  ∧ returned (MaskedAny 1%positive [1] (single case3T)) = Some ([2; 2], bools [true; false; true; false])
  ∧ returned (MaskedCount 1%positive [1] (single case3T)) = Some ([2; 2], ints [2; 0; 2; 0])
  ∧ returned (NonMaskedCount 1%positive [1] (single case3T)) = Some ([2; 2], ints [1; 3; 1; 3])
  ∧ returned (MaskedAll 1%positive [2] (single case3T)) = Some ([2; 3], bools [false; false; false; false; false; false])
  ∧ returned (MaskedAny 1%positive [2] (single case3T)) = Some ([2; 3], bools [true; false; true; true; false; true])
  ∧ returned (MaskedCount 1%positive [2] (single case3T)) = Some ([2; 3], ints [1; 0; 1; 1; 0; 1])
  ∧ returned (NonMaskedCount 1%positive [2] (single case3T)) = Some ([2; 3], ints [1; 2; 1; 1; 2; 1]).
Proof. repeat split; vm_compute; reflexivity. Qed.

(** "non-contiguous mask case 4". *)
Example test_non_contiguous_mask_4 :
  MaskedAll 1%positive [] (single broadcastT) = Ret (VBool false, single broadcastT)
  ∧ MaskedAny 1%positive [] (single broadcastT) = Ret (VBool true, single broadcastT)
  ∧ MaskedCount 1%positive [] (single broadcastT) = Ret (VInt 6, single broadcastT)
  ∧ NonMaskedCount 1%positive [] (single broadcastT) = Ret (VInt 6, single broadcastT)
  ∧ returned (MaskedAll 1%positive [0] (single broadcastT)) = Some ([3; 2], bools [true; false; true; false; true; false])
  ∧ returned (MaskedAny 1%positive [0] (single broadcastT)) = Some ([3; 2], bools [true; false; true; false; true; false])
  ∧ returned (MaskedCount 1%positive [0] (single broadcastT)) = Some ([3; 2], ints [2; 0; 2; 0; 2; 0])
  ∧ returned (NonMaskedCount 1%positive [0] (single broadcastT)) = Some ([3; 2], ints [0; 2; 0; 2; 0; 2])
  ∧ returned (MaskedAll 1%positive [1] (single broadcastT)) = Some ([2; 2], bools [true; false; true; false])
  ∧ returned (MaskedAny 1%positive [1] (single broadcastT)) = Some ([2; 2], bools [true; false; true; false])
  ∧ returned (MaskedCount 1%positive [1] (single broadcastT)) = Some ([2; 2], ints [3; 0; 3; 0])
  ∧ returned (NonMaskedCount 1%positive [1] (single broadcastT)) = Some ([2; 2], ints [0; 3; 0; 3])
  ∧ returned (MaskedAll 1%positive [2] (single broadcastT)) = Some ([2; 3], bools [false; false; false; false; false; false])
  ∧ returned (MaskedAny 1%positive [2] (single broadcastT)) = Some ([2; 3], bools [true; true; true; true; true; true])
  ∧ returned (MaskedCount 1%positive [2] (single broadcastT)) = Some ([2; 3], ints [1; 1; 1; 1; 1; 1])
  ∧ returned (NonMaskedCount 1%positive [2] (single broadcastT)) = Some ([2; 3], ints [1; 1; 1; 1; 1; 1]).
Proof. repeat split; vm_compute; reflexivity. Qed.

(** [TestMaskedFindContiguous]. *)
Example test_find_contiguous :
  FlatNotMaskedContiguous 1%positive (single (lineT [] true))
  = Ret ([makeRS 0 100], single (lineT [] true))
  ∧ FlatNotMaskedContiguous 1%positive
      (single (lineT [(3, 9); (14, 27); (51, 72); (93, 100)] false))
    = Ret (ranges [(3, 9); (14, 27); (51, 72); (93, 100)],
           single (lineT [(3, 9); (14, 27); (51, 72); (93, 100)] false))
  ∧ FlatMaskedContiguous 1%positive
      (single (lineT [(3, 9); (14, 27); (51, 72); (93, 100)] true))
    = Ret (ranges [(3, 9); (14, 27); (51, 72); (93, 100)],
           single (lineT [(3, 9); (14, 27); (51, 72); (93, 100)] true)).
Proof. repeat split; vm_compute; reflexivity. Qed.

(** [TestMaskedFindEdges]. *)
Example test_find_edges :
  FlatNotMaskedEdges 1%positive
    (single (lineT [(0, 9); (14, 27); (51, 72); (93, 100)] true))
  = Ret ((9, 92), single (lineT [(0, 9); (14, 27); (51, 72); (93, 100)] true))
  ∧ FlatMaskedEdges 1%positive
      (single (lineT [(0, 9); (14, 27); (51, 72); (93, 100)] false))
    = Ret ((9, 92), single (lineT [(0, 9); (14, 27); (51, 72); (93, 100)] false)).
Proof. repeat split; vm_compute; reflexivity. Qed.

(** A tensor without a mask. *)
Example test_no_mask :
  MaskedCount 1%positive [] (single plainT) = Ret (VInt 0, single plainT)
  ∧ NonMaskedCount 1%positive [] (single plainT) = Ret (VInt 12, single plainT)
  ∧ MaskedAll 1%positive [] (single plainT) = Ret (VBool false, single plainT)
  ∧ MaskedAny 1%positive [] (single plainT) = Ret (VBool false, single plainT).
Proof. repeat split; vm_compute; reflexivity. Qed.

(** [Reshape] of a tensor and of a view. *)
Example test_Reshape :
  Reshape 2%positive [4] (<[2%positive := viewT]> (single cubeT))
  = Ret (Some methodNYI, <[2%positive := viewT]> (single cubeT))
  ∧ fst <$> Reshape 1%positive [3; 4] (single cubeT) = Ret None
  ∧ fst <$> Reshape 1%positive [5] (single cubeT) = Ret (Some shapeMismatch).
Proof. repeat split; vm_compute; reflexivity. Qed.

(** ** MaskedReduce *)

(** C1.  For a tensor that is no vector and an axis [0 <= axis < rank],
    [MaskedReduce] returns a new tensor whose shape is the shape of [t]
    without the axis and whose element at every output coordinate [c] is
    [fn] of the slice of [t] with the full range [[0, shape[axis])] on the
    axis and the range [[c_k, c_k + 1)] on every other axis ([fn] being a
    callback that returns on the tensors it is given). *)
Theorem MaskedReduce_axis_result (σ : Store) (t : loc) (d : Dense) (retType : Dtype)
    (fn : maskedReduceFn) (axis : nat) (n : Z) (more : list Z) :
  σ !! t = Some d → wf d → IsVector d = false →
  shape (ap d) !! axis = Some n →
  (∀ ts, wf ts → ∃ v, fn ts = Ret v) →
  ∃ r rv,
    MaskedReduce t retType fn (Z.of_nat axis :: more) σ = Ret (VDense r, <[r := rv]> σ)
    ∧ σ !! r = None
    ∧ shape (ap rv) = delete axis (shape (ap d))
    ∧ ∀ c, inShape (shape (ap rv)) c = true →
        ∃ ts v, Dense_Slice t d (axisSlices axis (makeRS 0 n) c) = Some ts
                ∧ fn ts = Ret v ∧ At rv c = Some v.
Proof.
  intros Ht Hwf Hvec Ha Hfn.
  destruct (MaskedReduce_axis σ t d retType fn axis n more Ht Hwf Hvec Ha)
    as (r & rv & Hrun & Hr & Hshape & Hel).
  { intros c ts _ Hts. apply Hfn. exact (Dense_Slice_wf _ _ _ _ Hwf Hts). }
  exists r, rv. split; [exact Hrun|]. split; [exact Hr|]. split; [exact Hshape|].
  intros c Hc. rewrite Hshape in Hc.
  destruct (Hel c Hc) as (ts & v & Hts & _ & _ & Hv & Hat).
  exists ts, v. split; [|split; [exact Hv|exact Hat]].
  rewrite Dense_Slice_axis_full; [exact Hts|exact Ha|].
  destruct Hwf as (_ & _ & Hsh & _). rewrite Forall_lookup in Hsh. exact (Hsh _ _ Ha).
Qed.

Lemma MaskedReduce_axis_result_witness :
  ∃ r rv,
    MaskedReduce 1%positive Int doMaskCt [1] (single cubeT)
    = Ret (VDense r, <[r := rv]> (single cubeT))
    ∧ single cubeT !! r = None
    ∧ shape (ap rv) = [2; 2]
    ∧ ∀ c, inShape (shape (ap rv)) c = true →
        ∃ ts v, Dense_Slice 1%positive cubeT (axisSlices 1 (makeRS 0 3) c) = Some ts
                ∧ doMaskCt ts = Ret v ∧ At rv c = Some v.
Proof.
  apply (MaskedReduce_axis_result (single cubeT) 1%positive cubeT Int doMaskCt 1 3 []).
  - reflexivity.
  - exact wf_cubeT.
  - reflexivity.
  - reflexivity.
  - intros ts Hts. eexists. apply (callbacks_spec ts Hts).
Defined.

(** C4.  The bound check of [MaskedReduce] is [ax >= t.Dims()] only: an
    axis at or beyond the rank gives the sentinel -1, a negative axis
    passes the check and [slices[ax]] panics. *)
Theorem MaskedReduce_axis_out_of_range (σ : Store) (t : loc) (d : Dense)
    (retType : Dtype) (fn : maskedReduceFn) (ax : Z) (more : list Z) :
  σ !! t = Some d → IsVector d = false →
  (Dims d ≤ ax → MaskedReduce t retType fn (ax :: more) σ = Ret (VInt (-1), σ))
  ∧ (ax < 0 → MaskedReduce t retType fn (ax :: more) σ = Panic).
Proof.
  intros Ht Hvec. unfold MaskedReduce, deref. rewrite Ht. simpl. rewrite Hvec. simpl.
  split; intros Hax.
  - rewrite bool_decide_eq_true_2 by exact Hax. reflexivity.
  - rewrite bool_decide_eq_false_2 by (unfold Dims; lia).
    unfold assign. rewrite decide_False by lia. reflexivity.
Qed.

Lemma MaskedReduce_axis_out_of_range_witness :
  MaskedCount 1%positive [3] (single cubeT) = Ret (VInt (-1), single cubeT)
  ∧ MaskedCount 1%positive [-1] (single cubeT) = Panic.
Proof.
  split.
  - apply (MaskedReduce_axis_out_of_range (single cubeT) 1%positive cubeT Int doMaskCt 3 []);
      [reflexivity | reflexivity | vm_compute; discriminate].
  - apply (MaskedReduce_axis_out_of_range (single cubeT) 1%positive cubeT Int doMaskCt (-1) []);
      [reflexivity | reflexivity | lia].
Defined.

(** C5, as the code has it.  [MaskedReduce] returns [fn] of the whole
    tensor when no axis is given or the tensor is a vector, a row (1, n)
    and a column (n, 1) included; for a tensor that is no vector, a valid
    axis gives a tensor of the shape without the axis and an axis at or
    beyond the rank gives -1. *)
Theorem MaskedReduce_paths (σ : Store) (t : loc) (d : Dense) (retType : Dtype)
    (fn : maskedReduceFn) :
  σ !! t = Some d →
  (∀ axis, axis = [] ∨ IsVector d = true →
     MaskedReduce t retType fn axis σ = (v ← fn d; Ret (v, σ)))
  ∧ (IsVector d = false → wf d → (∀ ts, wf ts → ∃ v, fn ts = Ret v) →
     ∀ (axis : nat) (n : Z) (more : list Z), shape (ap d) !! axis = Some n →
     ∃ r rv, MaskedReduce t retType fn (Z.of_nat axis :: more) σ
             = Ret (VDense r, <[r := rv]> σ)
             ∧ σ !! r = None
             ∧ shape (ap rv) = delete axis (shape (ap d)))
  ∧ (IsVector d = false →
     ∀ ax more, Dims d ≤ ax → MaskedReduce t retType fn (ax :: more) σ = Ret (VInt (-1), σ)).
Proof.
  intros Ht. split; [|split].
  - intros axis Hax. apply MaskedReduce_whole; assumption.
  - intros Hvec Hwf Hfn axis n more Ha.
    destruct (MaskedReduce_axis σ t d retType fn axis n more Ht Hwf Hvec Ha)
      as (r & rv & Hrun & Hr & Hshape & _).
    { intros c ts _ Hts. apply Hfn. exact (Dense_Slice_wf _ _ _ _ Hwf Hts). }
    exists r, rv. auto.
  - intros Hvec ax more Hax.
    apply (MaskedReduce_sentinel σ t d retType fn ax more Ht Hvec Hax).
Qed.

Lemma MaskedReduce_paths_witness :
  MaskedCount 1%positive [] (single cubeT) = Ret (VInt 2, single cubeT)
  ∧ MaskedCount 1%positive [1] (single rowT) = Ret (VInt 6, single rowT)
  ∧ (∃ r rv, MaskedCount 1%positive [1] (single cubeT)
             = Ret (VDense r, <[r := rv]> (single cubeT))
             ∧ single cubeT !! r = None ∧ shape (ap rv) = [2; 2])
  ∧ MaskedCount 1%positive [3; 0] (single cubeT) = Ret (VInt (-1), single cubeT).
Proof.
  pose proof (MaskedReduce_paths (single cubeT) 1%positive cubeT Int doMaskCt eq_refl)
    as (Hwhole & Haxis & Hout).
  pose proof (MaskedReduce_paths (single rowT) 1%positive rowT Int doMaskCt eq_refl)
    as (Hrow & _ & _).
  split; [|split; [|split]].
  - unfold MaskedCount. rewrite (Hwhole [] (or_introl eq_refl)). reflexivity.
  - unfold MaskedCount. rewrite (Hrow [1] (or_intror eq_refl)). reflexivity.
  - apply (Haxis eq_refl wf_cubeT
             (fun ts Hts => ex_intro _ _ (proj1 (callbacks_spec ts Hts))) 1%nat 3 []).
    reflexivity.
  - apply (Hout eq_refl 3 [0]). vm_compute. discriminate.
Defined.

(** C5 fails as stated: the row vector of the test file has rank 2 and 0
    is a valid axis, yet [MaskedAny(0)] is the boolean of the whole
    tensor. *)
Lemma MaskedAny_row_vector_counterexample :
  Dims rowT = 2
  ∧ MaskedAny 1%positive [0] (single rowT) = Ret (VBool true, single rowT).
Proof. split; vm_compute; reflexivity. Qed.

(** C9.  Only the first axis argument is read. *)
Theorem MaskedReduce_first_axis_only (σ : Store) (t : loc) (retType : Dtype)
    (fn : maskedReduceFn) (ax ax' : Z) (more : list Z) :
  MaskedReduce t retType fn (ax :: ax' :: more) σ = MaskedReduce t retType fn [ax] σ
  ∧ MaskedAny t (ax :: ax' :: more) σ = MaskedAny t [ax] σ
  ∧ MaskedAll t (ax :: ax' :: more) σ = MaskedAll t [ax] σ
  ∧ MaskedCount t (ax :: ax' :: more) σ = MaskedCount t [ax] σ
  ∧ NonMaskedCount t (ax :: ax' :: more) σ = NonMaskedCount t [ax] σ.
Proof.
  assert (∀ rt f, MaskedReduce t rt f (ax :: ax' :: more) σ = MaskedReduce t rt f [ax] σ) as H.
  { intros rt f. unfold MaskedReduce. destruct (deref t σ); reflexivity. }
  unfold MaskedAny, MaskedAll, MaskedCount, NonMaskedCount.
  repeat split; apply H.
Qed.

(** ** The four reductions *)

(** C2, as the code has it.  With no axis, and for a vector whatever the
    axis, [MaskedCount] and [NonMaskedCount] are two integers that add up
    to the total size; along a valid axis of a tensor that is no vector
    they are two tensors of the shape without the axis whose elements add
    up, coordinate by coordinate, to the length of the axis. *)
Theorem counts_add_up (σ : Store) (t : loc) (d : Dense) :
  σ !! t = Some d → wf d →
  (∀ axis, axis = [] ∨ IsVector d = true →
     ∃ x y, MaskedCount t axis σ = Ret (VInt x, σ)
            ∧ NonMaskedCount t axis σ = Ret (VInt y, σ)
            ∧ x + y = Size d)
  ∧ (IsVector d = false →
     ∀ (axis : nat) (n : Z) (more : list Z), shape (ap d) !! axis = Some n →
     ∃ rc dc rn dn,
       MaskedCount t (Z.of_nat axis :: more) σ = Ret (VDense rc, <[rc := dc]> σ)
       ∧ NonMaskedCount t (Z.of_nat axis :: more) σ = Ret (VDense rn, <[rn := dn]> σ)
       ∧ shape (ap dc) = delete axis (shape (ap d))
       ∧ shape (ap dn) = delete axis (shape (ap d))
       ∧ ∀ c, inShape (delete axis (shape (ap d))) c = true →
           ∃ x y, At dc c = Some (VInt x) ∧ At dn c = Some (VInt y) ∧ x + y = n).
Proof.
  intros Ht Hwf. split.
  - intros axis Hax. destruct (callbacks_spec d Hwf) as (Hc & Hn & _).
    exists (maskedCt d), (Size d - maskedCt d).
    unfold MaskedCount, NonMaskedCount.
    rewrite !(MaskedReduce_whole σ t d) by assumption.
    rewrite Hc, Hn. simpl. split; [reflexivity|]. split; [reflexivity|]. lia.
  - intros Hvec axis n more Ha.
    destruct (MaskedReduce_axis_val σ t d Int doMaskCt (fun ts => VInt (maskedCt ts))
                axis n more Ht Hwf Hvec Ha) as (rc & dc & Hrc & Hsc & Hec).
    { intros ts Hts. apply (callbacks_spec ts Hts). }
    destruct (MaskedReduce_axis_val σ t d Int doNonMaskCt
                (fun ts => VInt (Size ts - maskedCt ts))
                axis n more Ht Hwf Hvec Ha) as (rn & dn & Hrn & Hsn & Hen).
    { intros ts Hts. apply (callbacks_spec ts Hts). }
    exists rc, dc, rn, dn. split; [exact Hrc|]. split; [exact Hrn|].
    split; [exact Hsc|]. split; [exact Hsn|].
    intros c Hc. destruct (Dense_Slice_axis t d axis n c Hwf Ha Hc) as (ts & Hts & _).
    destruct (Hec c ts Hc Hts) as (_ & Hsz & Hx).
    destruct (Hen c ts Hc Hts) as (_ & _ & Hy).
    exists (maskedCt ts), (Size ts - maskedCt ts).
    split; [exact Hx|]. split; [exact Hy|]. lia.
Qed.

Lemma counts_add_up_witness :
  (∃ x y, MaskedCount 1%positive [] (single cubeT) = Ret (VInt x, single cubeT)
          ∧ NonMaskedCount 1%positive [] (single cubeT) = Ret (VInt y, single cubeT)
          ∧ x + y = 12)
  ∧ (∃ rc dc rn dn,
       MaskedCount 1%positive [1] (single cubeT)
       = Ret (VDense rc, <[rc := dc]> (single cubeT))
       ∧ NonMaskedCount 1%positive [1] (single cubeT)
         = Ret (VDense rn, <[rn := dn]> (single cubeT))
       ∧ shape (ap dc) = [2; 2] ∧ shape (ap dn) = [2; 2]
       ∧ ∀ c, inShape [2; 2] c = true →
           ∃ x y, At dc c = Some (VInt x) ∧ At dn c = Some (VInt y) ∧ x + y = 3).
Proof.
  pose proof (counts_add_up (single cubeT) 1%positive cubeT eq_refl wf_cubeT)
    as (Hwhole & Haxis).
  split.
  - apply (Hwhole [] (or_introl eq_refl)).
  - apply (Haxis eq_refl 1%nat 3 [] eq_refl).
Defined.

(** C2 fails as stated: on the row vector of the test file the counts
    along axis 0, whose length is 1, are the integers 6 and 6. *)
Lemma counts_row_vector_counterexample :
  shape (ap rowT) !! 0%nat = Some 1
  ∧ MaskedCount 1%positive [0] (single rowT) = Ret (VInt 6, single rowT)
  ∧ NonMaskedCount 1%positive [0] (single rowT) = Ret (VInt 6, single rowT)
  ∧ 6 + 6 ≠ 1.
Proof. repeat split; try (vm_compute; reflexivity). lia. Qed.

(** C3, as the code has it.  With no axis, and for a vector whatever the
    axis, [MaskedAny] is true iff [MaskedCount] is positive and
    [MaskedAll] is true iff [MaskedCount] is the total size; along a valid
    axis of a tensor that is no vector the same holds coordinate by
    coordinate, with the length of the axis for the total size. *)
Theorem any_all_agree_with_count (σ : Store) (t : loc) (d : Dense) :
  σ !! t = Some d → wf d →
  (∀ axis, axis = [] ∨ IsVector d = true →
     ∃ x, MaskedCount t axis σ = Ret (VInt x, σ)
          ∧ MaskedAny t axis σ = Ret (VBool (bool_decide (0 < x)), σ)
          ∧ MaskedAll t axis σ = Ret (VBool (bool_decide (x = Size d)), σ))
  ∧ (IsVector d = false →
     ∀ (axis : nat) (n : Z) (more : list Z), shape (ap d) !! axis = Some n →
     ∃ rc dc ra da rl dl,
       MaskedCount t (Z.of_nat axis :: more) σ = Ret (VDense rc, <[rc := dc]> σ)
       ∧ MaskedAny t (Z.of_nat axis :: more) σ = Ret (VDense ra, <[ra := da]> σ)
       ∧ MaskedAll t (Z.of_nat axis :: more) σ = Ret (VDense rl, <[rl := dl]> σ)
       ∧ ∀ c, inShape (delete axis (shape (ap d))) c = true →
           ∃ x, At dc c = Some (VInt x)
                ∧ At da c = Some (VBool (bool_decide (0 < x)))
                ∧ At dl c = Some (VBool (bool_decide (x = n)))).
Proof.
  intros Ht Hwf. split.
  - intros axis Hax. destruct (callbacks_spec d Hwf) as (Hc & _ & Hany & Hall).
    exists (maskedCt d). unfold MaskedCount, MaskedAny, MaskedAll.
    rewrite !(MaskedReduce_whole σ t d) by assumption.
    rewrite Hc, Hany, Hall. simpl. auto.
  - intros Hvec axis n more Ha.
    destruct (MaskedReduce_axis_val σ t d Int doMaskCt (fun ts => VInt (maskedCt ts))
                axis n more Ht Hwf Hvec Ha) as (rc & dc & Hrc & _ & Hec).
    { intros ts Hts. apply (callbacks_spec ts Hts). }
    destruct (MaskedReduce_axis_val σ t d Bool doMaskAny
                (fun ts => VBool (bool_decide (0 < maskedCt ts)))
                axis n more Ht Hwf Hvec Ha) as (ra & da & Hra & _ & Hea).
    { intros ts Hts. apply (callbacks_spec ts Hts). }
    destruct (MaskedReduce_axis_val σ t d Bool doMaskAll
                (fun ts => VBool (bool_decide (maskedCt ts = Size ts)))
                axis n more Ht Hwf Hvec Ha) as (rl & dl & Hrl & _ & Hel).
    { intros ts Hts. apply (callbacks_spec ts Hts). }
    exists rc, dc, ra, da, rl, dl.
    split; [exact Hrc|]. split; [exact Hra|]. split; [exact Hrl|].
    intros c Hc. destruct (Dense_Slice_axis t d axis n c Hwf Ha Hc) as (ts & Hts & _).
    destruct (Hec c ts Hc Hts) as (_ & Hsz & Hx).
    destruct (Hea c ts Hc Hts) as (_ & _ & Hy).
    destruct (Hel c ts Hc Hts) as (_ & _ & Hz).
    exists (maskedCt ts). rewrite Hsz in Hz. auto.
Qed.

Lemma any_all_agree_with_count_witness :
  (∃ x, MaskedCount 1%positive [] (single cubeT) = Ret (VInt x, single cubeT)
        ∧ MaskedAny 1%positive [] (single cubeT)
          = Ret (VBool (bool_decide (0 < x)), single cubeT)
        ∧ MaskedAll 1%positive [] (single cubeT)
          = Ret (VBool (bool_decide (x = 12)), single cubeT))
  ∧ (∃ rc dc ra da rl dl,
       MaskedCount 1%positive [1] (single cubeT)
       = Ret (VDense rc, <[rc := dc]> (single cubeT))
       ∧ MaskedAny 1%positive [1] (single cubeT)
         = Ret (VDense ra, <[ra := da]> (single cubeT))
       ∧ MaskedAll 1%positive [1] (single cubeT)
         = Ret (VDense rl, <[rl := dl]> (single cubeT))
       ∧ ∀ c, inShape [2; 2] c = true →
           ∃ x, At dc c = Some (VInt x)
                ∧ At da c = Some (VBool (bool_decide (0 < x)))
                ∧ At dl c = Some (VBool (bool_decide (x = 3)))).
Proof.
  pose proof (any_all_agree_with_count (single cubeT) 1%positive cubeT eq_refl wf_cubeT)
    as (Hwhole & Haxis).
  split.
  - apply (Hwhole [] (or_introl eq_refl)).
  - apply (Haxis eq_refl 1%nat 3 [] eq_refl).
Defined.

(** C3 fails as stated: on a row of twelve masked elements [MaskedAll]
    along axis 0 is true, and the count along that axis, whose length is
    1, is 12. *)
Lemma all_row_vector_counterexample :
  shape (ap maskedRowT) !! 0%nat = Some 1
  ∧ MaskedAll 1%positive [0] (single maskedRowT) = Ret (VBool true, single maskedRowT)
  ∧ MaskedCount 1%positive [0] (single maskedRowT) = Ret (VInt 12, single maskedRowT)
  ∧ 12 ≠ 1.
Proof. repeat split; try (vm_compute; reflexivity). lia. Qed.

(** An empty dimension is outside C3 for another reason: [doMaskAll]
    returns false on a tensor that is not masked, "If object is not masked,
    returns false", so on the tensor of shape (0, 3), which has no element,
    [MaskedAll()] is false while [MaskedCount()] is 0, the total size. *)
Lemma all_empty_dimension :
  ¬ wf emptyRowsT
  ∧ MaskedAll 1%positive [] (single emptyRowsT) = Ret (VBool false, single emptyRowsT)
  ∧ MaskedCount 1%positive [] (single emptyRowsT) = Ret (VInt 0, single emptyRowsT)
  ∧ Size emptyRowsT = 0.
Proof.
  split; [|repeat split; vm_compute; reflexivity].
  intros (_ & _ & Hsh & _). apply Forall_inv in Hsh. simpl in Hsh. lia.
Qed.

(** ** Contiguous regions and edges *)







(** ** Frame *)

(** C10.  Whatever an inspection operation returns, the receiver is in the
    store it leaves as it was in the store it was given: data buffer, mask
    buffer, shape and strides are those of before. *)
Theorem inspection_frame (σ : Store) (t : loc) (d : Dense) :
  σ !! t = Some d →
  (∀ axis v σ', MaskedAny t axis σ = Ret (v, σ') → σ' !! t = Some d)
  ∧ (∀ axis v σ', MaskedAll t axis σ = Ret (v, σ') → σ' !! t = Some d)
  ∧ (∀ axis v σ', MaskedCount t axis σ = Ret (v, σ') → σ' !! t = Some d)
  ∧ (∀ axis v σ', NonMaskedCount t axis σ = Ret (v, σ') → σ' !! t = Some d)
  ∧ (∀ l σ', FlatNotMaskedContiguous t σ = Ret (l, σ') → σ' !! t = Some d)
  ∧ (∀ l σ', FlatMaskedContiguous t σ = Ret (l, σ') → σ' !! t = Some d)
  ∧ (∀ e σ', FlatNotMaskedEdges t σ = Ret (e, σ') → σ' !! t = Some d)
  ∧ (∀ e σ', FlatMaskedEdges t σ = Ret (e, σ') → σ' !! t = Some d).
Proof.
  intros Ht.
  assert (∀ rt fn axis v σ', MaskedReduce t rt fn axis σ = Ret (v, σ') → σ' !! t = Some d)
    as Hred.
  { intros rt fn axis v σ' H. exact (MaskedReduce_frame _ _ _ _ _ _ _ H t d Ht). }
  repeat split; try (intros axis v σ' H; exact (Hred _ _ _ _ _ H)).
  - intros l σ' H. apply reading_frame in H. subst. exact Ht.
  - intros l σ' H. apply reading_frame in H. subst. exact Ht.
  - intros e σ' H. unfold FlatNotMaskedEdges in H.
    returned_step H. returned_step H; [inversion H; subst; exact Ht|].
    returned_step H. destruct a0 as [[? ?] ?]. returned_step H.
    destruct a0 as [[? ?] ?]. inversion H; subst. exact Ht.
  - intros e σ' H. unfold FlatMaskedEdges in H.
    returned_step H. returned_step H; [inversion H; subst; exact Ht|].
    returned_step H. destruct a0 as [[? ?] ?]. returned_step H.
    destruct a0 as [[? ?] ?]. inversion H; subst. exact Ht.
Qed.

Lemma inspection_frame_witness :
  ∃ v σ', MaskedCount 1%positive [1] (single cubeT) = Ret (v, σ')
          ∧ σ' !! 1%positive = Some cubeT
          ∧ σ' ≠ single cubeT.
Proof.
  destruct (MaskedCount 1%positive [1] (single cubeT)) as [[v σ']| |] eqn:E.
  - exists v, σ'. split; [reflexivity|]. split.
    + exact (proj1 (proj2 (proj2 (inspection_frame (single cubeT) 1%positive cubeT eq_refl)))
               [1] v σ' E).
    + intros ->. vm_compute in E. discriminate E.
  - vm_compute in E. discriminate E.
  - vm_compute in E. discriminate E.
Defined.

(** ** Reshape *)

(** C8, as the code has it.  [Reshape] on a view returns the error and
    leaves the store as it is.  On a tensor that is no view and has data,
    and for dimensions whose element count and row-major strides fit an
    [int], it sets the shape and the row-major strides, and its validation
    fails exactly when the data length differs from the element count of
    the new shape and the new shape is no scalar shape. *)
Theorem Reshape_spec (σ : Store) (t : loc) (d : Dense) (dims : list Z) :
  σ !! t = Some d →
  (viewOf d ≠ None → Reshape t dims σ = Ret (Some methodNYI, σ))
  ∧ (viewOf d = None → data d ≠ None →
     Forall fitsInt (TotalSize dims :: calcStrides dims) →
     ∃ d' e,
       Reshape t dims σ = Ret (e, <[t := d']> σ)
       ∧ shape (ap d') = dims ∧ strides (ap d') = calcStrides dims
       ∧ (old d = None → data d' = data d ∧ mask d' = mask d)
       ∧ (e = Some shapeMismatch
          ↔ hdrLen d' ≠ TotalSize dims ∧ IsScalarShape dims = false)
       ∧ (e = None ∨ e = Some shapeMismatch)).
Proof.
  intros Ht. unfold Reshape, deref. rewrite Ht. cbn [mbind outcome_bind]. split.
  - intros Hv. rewrite bool_decide_eq_true_2 by exact Hv. reflexivity.
  - intros Hv Hdata _. rewrite bool_decide_eq_false_2 by (rewrite Hv; auto).
    set (d1 := if bool_decide (old d ≠ None)
               then mkDense (mkAP (shape (ap d)) (calcStrides (shape (ap d)))
                               (maskStrides (ap d)))
                      ((fun v => omap (fun c => v !! Z.to_nat (offsetOf (strides (ap d)) c))
                                   (coords (shape (ap d)))) <$> data d)
                      (t_dtype d) None (viewOf d) (mask d)
               else d).
    set (d' := mkDense (SetShape (ap d1) dims) (data d1) (t_dtype d1) (old d1)
                 (viewOf d1) (mask d1)).
    assert (viewOf d1 = None ∧ data d1 ≠ None ∧ (old d = None → d1 = d)) as (Hv1 & Hd1 & Ho1).
    { unfold d1. destruct (bool_decide (old d ≠ None)) eqn:E; simpl.
      - split; [exact Hv|]. split.
        + destruct (data d); [discriminate|congruence].
        + intros Ho. apply bool_decide_eq_true in E. congruence.
      - auto. }
    set (e := if negb (bool_decide (hdrLen d' = TotalSize dims)) && negb (IsScalarShape dims)
              then Some shapeMismatch else None).
    assert (sanity d' = Ret e) as Hsan.
    { unfold sanity, e, hdrLen. simpl data. simpl viewOf. rewrite Hv1.
      rewrite (bool_decide_eq_false_2 (data d1 = None)) by exact Hd1.
      rewrite andb_false_r. destruct (data d1) as [v|]; [|congruence].
      rewrite bool_decide_eq_true_2 by reflexivity. simpl.
      destruct (negb _ && negb _); reflexivity. }
    exists d', e.
    assert (Reshape_tail : (
      '(_, σ0) ← (if bool_decide (old d ≠ None) then Transpose t σ else Ret ((), σ));
      reshape t dims σ0) = Ret (e, <[t := d']> σ)).
    { destruct (bool_decide (old d ≠ None)) eqn:E.
      - unfold Transpose, deref. rewrite Ht. cbn [mbind outcome_bind].
        unfold reshape, setShape, deref. rewrite lookup_insert_eq.
        cbn [mbind outcome_bind]. rewrite lookup_insert_eq, insert_insert_eq.
        cbn [mbind outcome_bind].
        change (sanity d' ≫= (fun e0 => Ret (e0, <[t := d']> σ)) = Ret (e, <[t := d']> σ)).
        rewrite Hsan. reflexivity.
      - cbn [mbind outcome_bind]. unfold reshape, setShape, deref. rewrite Ht.
        cbn [mbind outcome_bind]. rewrite lookup_insert_eq.
        cbn [mbind outcome_bind].
        change (sanity d' ≫= (fun e0 => Ret (e0, <[t := d']> σ)) = Ret (e, <[t := d']> σ)).
        rewrite Hsan. reflexivity. }
    split; [exact Reshape_tail|]. split; [reflexivity|]. split; [reflexivity|].
    split; [intros Ho; rewrite <- (Ho1 Ho); split; reflexivity|].
    unfold e.
    destruct (bool_decide (hdrLen d' = TotalSize dims)) eqn:E1;
      destruct (IsScalarShape dims) eqn:E2; simpl;
      try apply bool_decide_eq_true in E1; try apply bool_decide_eq_false in E1;
      (split; [split; [intros H; try discriminate|]|]); try tauto;
      try (intros [H1 H2]; congruence); auto.
Qed.

Lemma Reshape_spec_witness :
  Reshape 2%positive [4] (<[2%positive := viewT]> (single cubeT))
  = Ret (Some methodNYI, <[2%positive := viewT]> (single cubeT))
  ∧ (∃ d' e,
       Reshape 1%positive [3; 4] (single cubeT) = Ret (e, <[1%positive := d']> (single cubeT))
       ∧ shape (ap d') = [3; 4] ∧ strides (ap d') = calcStrides [3; 4]
       ∧ (old cubeT = None → data d' = data cubeT ∧ mask d' = mask cubeT)
       ∧ (e = Some shapeMismatch
          ↔ hdrLen d' ≠ TotalSize [3; 4] ∧ IsScalarShape [3; 4] = false)
       ∧ (e = None ∨ e = Some shapeMismatch)).
Proof.
  split.
  - apply (proj1 (Reshape_spec (<[2%positive := viewT]> (single cubeT)) 2%positive viewT [4]
                    (lookup_insert_eq _ _ _))).
    discriminate.
  - apply (proj2 (Reshape_spec (single cubeT) 1%positive cubeT [3; 4] eq_refl)).
    + reflexivity.
    + discriminate.
    + repeat constructor; vm_compute; congruence.
Defined.

(** C8 fails as stated: [cubeT] is no view and holds 12 elements; reshaped
    to a scalar shape, [()] or [(1)], whose element count is 1, it passes
    [sanity]. *)
Lemma Reshape_scalar_counterexample :
  viewOf cubeT = None ∧ hdrLen cubeT = 12 ∧ TotalSize [] = 1 ∧ TotalSize [1] = 1
  ∧ fst <$> Reshape 1%positive [] (single cubeT) = Ret None
  ∧ fst <$> Reshape 1%positive [1] (single cubeT) = Ret None.
Proof. repeat split; vm_compute; reflexivity. Qed.

(** * More of dense.go and dense_mask_inspection.go *)

(** ** More tensors of the tests *)

(** The tensors used below are well formed. *)
Lemma wf_maskedRowT : wf maskedRowT.
Proof. apply (bool_decide_unpack _). vm_compute. reflexivity. Qed.

Lemma wf_plainT : wf plainT.
Proof. apply (bool_decide_unpack _). vm_compute. reflexivity. Qed.

Lemma wf_clearRowT : wf clearRowT.
Proof. apply (bool_decide_unpack _). vm_compute. reflexivity. Qed.

Lemma wf_case1T : wf case1T.
Proof. apply (bool_decide_unpack _). vm_compute. reflexivity. Qed.

(** A list of equal flags does not hold the other flag. *)
Lemma flags_replicate_ne (b : bool) (k : nat) (n : nat) :
  replicate k b !! n ≠ Some (negb b).
Proof. intros H. apply lookup_replicate in H as [H _]. destruct b; discriminate. Qed.

(** ** [makeMask], [fix] and the constructors *)

(** The loop of [makeMask] clears what it visits. *)
Lemma makeMask_loop_spec (pre suf : list bool) :
  makeMask_loop (seqZ (Z.of_nat (length pre)) (Z.of_nat (length suf))) (pre ++ suf)
  = Ret (pre ++ replicate (length suf) false).
Proof.
  revert pre. induction suf as [|b suf IH]; intros pre.
  - reflexivity.
  - simpl length. rewrite Nat2Z.inj_succ, seqZ_cons by lia.
    cbn [makeMask_loop].
    rewrite (assign_Ret (pre ++ b :: suf) (length pre) false)
      by (rewrite length_app; simpl; lia).
    cbn [mbind outcome_bind].
    replace (<[length pre:=false]> (pre ++ b :: suf)) with ((pre ++ [false]) ++ suf).
    2:{ rewrite insert_app_r_alt by lia. rewrite Nat.sub_diag. simpl.
        rewrite <- app_assoc. reflexivity. }
    replace (Z.succ (Z.of_nat (length pre))) with (Z.of_nat (length (pre ++ [false])))
      by (rewrite length_app; simpl; lia).
    replace (Z.pred (Z.succ (Z.of_nat (length suf)))) with (Z.of_nat (length suf)) by lia.
    rewrite IH. rewrite <- app_assoc. reflexivity.
Qed.

(** Run over a whole slice, it clears the slice. *)
Lemma makeMask_loop_all (l : list bool) :
  makeMask_loop (seqZ 0 (Z.of_nat (length l))) l = Ret (replicate (length l) false).
Proof. apply (makeMask_loop_spec [] l). Qed.

(** [makeMask] by cases on the size asked for. *)
Lemma makeMask_cases (σ : Store) (t : loc) (d : Dense) (spare : list bool) (size : Z) :
  σ !! t = Some d →
  makeMask t spare size σ
  = Ret (tt, if bool_decide (size < 1) || bool_decide (Z.of_nat (length (mask d)) = size)
             then σ
             else <[t := mkDense (ap d) (data d) (t_dtype d) (old d) (viewOf d)
                           (replicate (Z.to_nat size) false)]> σ).
Proof.
  intros Ht. unfold makeMask, deref. rewrite Ht. cbn [mbind outcome_bind].
  destruct (bool_decide (size < 1) || bool_decide (Z.of_nat (length (mask d)) = size)) eqn:E;
    [reflexivity|].
  apply orb_false_iff in E as [E1 _]. apply bool_decide_eq_false in E1.
  set (array := if bool_decide (Z.of_nat (length (mask d ++ spare)) < size)
                then replicate (Z.to_nat size) false else mask d ++ spare).
  assert (Hlen : size ≤ Z.of_nat (length array)).
  { unfold array. case_bool_decide as Hc; [rewrite length_replicate|]; lia. }
  rewrite bool_decide_eq_false_2 by lia.
  assert (Htake : length (take (Z.to_nat size) array) = Z.to_nat size)
    by (rewrite length_take; lia).
  replace size with (Z.of_nat (length (take (Z.to_nat size) array))) at 1 by lia.
  rewrite makeMask_loop_all, Htake. reflexivity.
Qed.

(** X1.  [makeMask] leaves the mask alone when [size < 1] or when the mask
    already has [size] entries.  Otherwise the mask becomes [size] entries
    that are all false, whatever the old entries were and whatever the
    capacity of the old slice was: no mark survives a resize, and the call
    does not panic. *)
Theorem makeMask_spec (σ : Store) (t : loc) (d : Dense) (spare : list bool) (size : Z) :
  σ !! t = Some d →
  (size < 1 ∨ Z.of_nat (length (mask d)) = size → makeMask t spare size σ = Ret (tt, σ))
  ∧ (1 ≤ size → Z.of_nat (length (mask d)) ≠ size →
     makeMask t spare size σ
     = Ret (tt, <[t := mkDense (ap d) (data d) (t_dtype d) (old d) (viewOf d)
                          (replicate (Z.to_nat size) false)]> σ)).
Proof.
  intros Ht. rewrite (makeMask_cases σ t d spare size Ht). split.
  - intros [H | H].
    + rewrite (bool_decide_eq_true_2 (size < 1)) by exact H. reflexivity.
    + rewrite (bool_decide_eq_true_2 (_ = size)) by exact H. rewrite orb_true_r. reflexivity.
  - intros H1 H2.
    rewrite (bool_decide_eq_false_2 (size < 1)) by lia.
    rewrite (bool_decide_eq_false_2 (_ = size)) by exact H2. reflexivity.
Qed.

(** A mask of two entries with spare capacity: resized to three it is
    cleared, resized to two it is kept. *)
Lemma makeMask_spec_witness :
  makeMask 1%positive [true; true] 3 (single broadcastT)
  = Ret (tt, <[1%positive := mkDense (ap broadcastT) (data broadcastT) (t_dtype broadcastT)
                               (old broadcastT) (viewOf broadcastT) [false; false; false]]>
               (single broadcastT))
  ∧ makeMask 1%positive [true; true] 2 (single broadcastT) = Ret (tt, single broadcastT).
Proof.
  split.
  - apply (proj2 (makeMask_spec (single broadcastT) 1%positive broadcastT [true; true] 3
                    eq_refl)).
    + lia.
    + vm_compute. discriminate.
  - apply (proj1 (makeMask_spec (single broadcastT) 1%positive broadcastT [true; true] 2
                    eq_refl)).
    right. reflexivity.
Defined.

(** The sizing loop of [fix] returns when every mask stride has its
    dimension. *)
Lemma fix_maskSize_total (sh : Shape) (ms : list Z) (k : nat) :
  (length ms + k ≤ length sh)%nat → ∃ size, fix_maskSize sh (Z.of_nat k) ms = Ret size.
Proof.
  revert k. induction ms as [|s ms IH]; intros k H; cbn [fix_maskSize].
  - eauto.
  - simpl in H. case_bool_decide.
    + destruct (index_lt sh (Z.of_nat k)) as [n [-> _]]; [lia|]. cbn. eauto.
    + replace (Z.of_nat k + 1) with (Z.of_nat (S k)) by lia. apply IH. lia.
Qed.

(** Without a positive mask stride the size is 0. *)
Lemma fix_maskSize_none (sh : Shape) (ms : list Z) (i : Z) :
  Forall (fun m => m ≤ 0) ms → fix_maskSize sh i ms = Ret 0.
Proof.
  intros H. revert i. induction H as [|s ms Hs _ IH]; intros i; cbn [fix_maskSize].
  - reflexivity.
  - rewrite bool_decide_eq_false_2 by lia. apply IH.
Qed.

(** The size is taken at the first positive mask stride. *)
Lemma fix_maskSize_first (sh : Shape) (ms : list Z) (k i : nat) (s n : Z) :
  ms !! i = Some s → 0 < s → Forall (fun m => m ≤ 0) (take i ms) →
  sh !! (k + i)%nat = Some n →
  fix_maskSize sh (Z.of_nat k) ms = Ret (n * s).
Proof.
  revert k ms. induction i as [|i IH]; intros k ms Hi Hs Hpre Hn.
  - destruct ms as [|s' ms]; [discriminate|]. injection Hi as ->.
    cbn [fix_maskSize]. rewrite bool_decide_eq_true_2 by lia.
    rewrite Nat.add_0_r in Hn.
    assert (index sh (Z.of_nat k) = Ret n) as ->.
    { apply index_Ret. rewrite Nat2Z.id. split; [lia | exact Hn]. }
    reflexivity.
  - destruct ms as [|s' ms]; [discriminate|]. simpl in Hi.
    rewrite firstn_cons in Hpre. apply Forall_cons in Hpre as [Hs' Hpre].
    cbn [fix_maskSize]. rewrite bool_decide_eq_false_2 by lia.
    replace (Z.of_nat k + 1) with (Z.of_nat (S k)) by lia.
    apply (IH (S k) ms Hi Hs Hpre). rewrite <- Hn. f_equal. lia.
Qed.

(** A tensor is the record of its fields. *)
Lemma Dense_eta (d : Dense) :
  mkDense (ap d) (data d) (t_dtype d) (old d) (viewOf d) (mask d) = d.
Proof. destruct d; reflexivity. Qed.

(** The second half of [fix] changes the mask only. *)
Lemma fix_mask_phase (σ : Store) (t : loc) (d : Dense) (spare : list bool) :
  σ !! t = Some d →
  (length (maskStrides (ap d)) ≤ length (shape (ap d)))%nat →
  ∃ m, (if IsMasked d then
          size ← fix_maskSize (shape (ap d)) 0 (maskStrides (ap d));
          makeMask t spare size σ
        else Ret (tt, σ))
       = Ret (tt, <[t := mkDense (ap d) (data d) (t_dtype d) (old d) (viewOf d) m]> σ).
Proof.
  intros Ht Hlen.
  assert (Hid : <[t := mkDense (ap d) (data d) (t_dtype d) (old d) (viewOf d) (mask d)]> σ = σ)
    by (rewrite Dense_eta; apply insert_id, Ht).
  destruct (IsMasked d).
  - destruct (fix_maskSize_total (shape (ap d)) (maskStrides (ap d)) 0) as [size Hsize]; [lia|].
    change (Z.of_nat 0) with 0 in Hsize. rewrite Hsize. cbn [mbind outcome_bind].
    rewrite (makeMask_cases σ t d spare size Ht).
    destruct (bool_decide (size < 1) || bool_decide (Z.of_nat (length (mask d)) = size)).
    + exists (mask d). rewrite Hid. reflexivity.
    + eauto.
  - exists (mask d). rewrite Hid. reflexivity.
Qed.

(** Dereferencing a pointer to a tensor of the store. *)
Lemma deref_Some (σ : Store) (t : loc) (d : Dense) : σ !! t = Some d → deref t σ = Ret d.
Proof. intros H. unfold deref. rewrite H. reflexivity. Qed.

(** The second half of [fix], after the first half wrote [d1]. *)
Lemma fix_tail (σ : Store) (t : loc) (d1 : Dense) (spare : list bool) :
  (length (maskStrides (ap d1)) ≤ length (shape (ap d1)))%nat →
  ∃ m, (d ← deref t (<[t := d1]> σ);
        '(_, σ') ← (if IsMasked d then
                      size ← fix_maskSize (shape (ap d)) 0 (maskStrides (ap d));
                      makeMask t spare size (<[t := d1]> σ)
                    else Ret (tt, <[t := d1]> σ));
        Ret (tt, σ'))
       = Ret (tt, <[t := mkDense (ap d1) (data d1) (t_dtype d1) (old d1) (viewOf d1) m]> σ).
Proof.
  intros Hlen. rewrite (deref_Some _ _ _ (lookup_insert_eq _ _ _)). cbn [mbind outcome_bind].
  destruct (fix_mask_phase (<[t := d1]> σ) t d1 spare (lookup_insert_eq _ _ _) Hlen) as [m ->].
  cbn [mbind outcome_bind]. rewrite insert_insert_eq. eauto.
Qed.

(** When [sanity] finds nothing wrong. *)
Lemma sanity_ok (d : Dense) (v : list Value) :
  data d = Some v →
  Z.of_nat (length v) = Size d ∨ IsScalar d = true ∨ viewOf d ≠ None →
  sanity d = Ret None.
Proof.
  intros Hd H. unfold sanity. rewrite Hd.
  rewrite (bool_decide_eq_false_2 (Some v = None)) by discriminate. rewrite andb_false_r.
  destruct H as [H | [H | H]].
  - rewrite (bool_decide_eq_true_2 _ H). cbn. rewrite andb_false_r. reflexivity.
  - rewrite H. cbn. rewrite andb_false_r. reflexivity.
  - rewrite (bool_decide_eq_false_2 _ H). reflexivity.
Qed.

(** X2.  [fix] returns on a tensor without negative dimensions and with no
    more mask strides than dimensions, and the tensor has a buffer
    afterwards.  A missing buffer is made, under the shape given, with one
    zero value per element; a buffer that is there is kept, and when it
    comes without a shape the shape is read off it, scalar for one element
    and a vector of its length otherwise.  In these two repaired cases
    [sanity] then finds nothing wrong; a tensor that came with a buffer and
    a shape keeps its access pattern. *)
Theorem fix_then_sanity (σ : Store) (t : loc) (d : Dense) (spare : list bool) :
  σ !! t = Some d →
  Forall (fun n => 0 ≤ n) (shape (ap d)) →
  (length (maskStrides (ap d)) ≤ length (shape (ap d)))%nat →
  ∃ d', Dense_fix t spare σ = Ret (tt, <[t := d']> σ)
        ∧ (data d = None →
             shape (ap d') = shape (ap d)
             ∧ data d' = Some (replicate (Z.to_nat (Size d)) (zeroValue (t_dtype d))))
        ∧ (data d ≠ None → data d' = data d)
        ∧ (data d ≠ None → shape (ap d) = [] →
             shape (ap d') = if bool_decide (hdrLen d = 1) then [] else [hdrLen d])
        ∧ (data d ≠ None → shape (ap d) ≠ [] → ap d' = ap d)
        ∧ (data d = None ∨ shape (ap d) = [] → sanity d' = Ret None).
Proof.
  intros Ht Hsh Hms. unfold Dense_fix. cbv beta. rewrite (deref_Some _ _ _ Ht).
  cbn [mbind outcome_bind].
  destruct (data d) as [v|] eqn:Hdata.
  - (* a buffer is there *)
    rewrite bool_decide_eq_false_2 by discriminate. rewrite andb_false_r.
    cbn [negb andb].
    assert (Hlen : hdrLen d = Z.of_nat (length v)) by (unfold hdrLen; rewrite Hdata; reflexivity).
    destruct (shape (ap d)) as [|n sh] eqn:Hshape.
    + (* and no shape: the shape is read off the buffer *)
      rewrite bool_decide_eq_true_2 by reflexivity. cbn [andb].
      assert (Hnil : maskStrides (ap d) = []) by (apply nil_length_inv; simpl in Hms; lia).
      destruct (bool_decide (hdrLen d = 1)) eqn:Hone; cbn [mbind outcome_bind].
      * set (d1 := mkDense (SetShape (ap d) []) (Some v) (t_dtype d) (old d) (viewOf d) (mask d)).
        destruct (fix_tail σ t d1 spare) as [m Hm]; [simpl; rewrite Hnil; simpl; lia|].
        eexists. split; [exact Hm|].
        repeat split; try done.
        intros _. apply (sanity_ok _ v); [reflexivity|]. right. left. reflexivity.
      * set (d1 := mkDense (SetShape (ap d) [hdrLen d]) (Some v) (t_dtype d) (old d)
                     (viewOf d) (mask d)).
        destruct (fix_tail σ t d1 spare) as [m Hm]; [simpl; rewrite Hnil; simpl; lia|].
        eexists. split; [exact Hm|].
        repeat split; try done.
        intros _. apply (sanity_ok _ v); [reflexivity|]. left.
        unfold Size. cbn. rewrite TotalSize_cons. change (TotalSize []) with 1. lia.
    + (* and a shape: nothing to repair *)
      rewrite bool_decide_eq_false_2 by discriminate. cbn [andb mbind outcome_bind].
      rewrite (deref_Some _ _ _ Ht). cbn [mbind outcome_bind].
      destruct (fix_mask_phase σ t d spare Ht) as [m Hm]; [rewrite Hshape; exact Hms|].
      rewrite Hm. cbn [mbind outcome_bind].
      eexists. split; [reflexivity|].
      repeat split; try done.
      intros [? | ?]; discriminate.
  - (* no buffer: one is made *)
    rewrite bool_decide_eq_true_2 by reflexivity. rewrite andb_true_r.
    assert (HS : 0 ≤ Size d) by (apply TotalSize_nonneg, Hsh).
    destruct (IsScalar d) eqn:Hscalar.
    + assert (H1 : Size d = 1) by (apply IsScalarShape_size, Hscalar).
      unfold makeArray. rewrite (deref_Some _ _ _ Ht). cbn [mbind outcome_bind].
      rewrite bool_decide_eq_false_2 by lia. cbn [mbind outcome_bind].
      set (d1 := mkDense (ap d) (Some (replicate (Z.to_nat 1) (zeroValue (t_dtype d))))
                   (t_dtype d) (old d) (viewOf d) (mask d)).
      destruct (fix_tail σ t d1 spare) as [m Hm]; [exact Hms|].
      eexists. split; [exact Hm|].
      repeat split; try done.
      * cbn. rewrite H1. reflexivity.
      * intros _. eapply sanity_ok; [reflexivity|]. right. left. exact Hscalar.
    + cbn [andb].
      assert (Hne : shape (ap d) ≠ []).
      { intros E. unfold IsScalar in Hscalar. rewrite E in Hscalar. discriminate. }
      rewrite (bool_decide_eq_false_2 (shape (ap d) = [])) by exact Hne. cbn [andb].
      unfold makeArray. rewrite (deref_Some _ _ _ Ht). cbn [mbind outcome_bind].
      fold (Size d). rewrite bool_decide_eq_false_2 by lia. cbn [mbind outcome_bind].
      set (d1 := mkDense (ap d) (Some (replicate (Z.to_nat (Size d)) (zeroValue (t_dtype d))))
                   (t_dtype d) (old d) (viewOf d) (mask d)).
      destruct (fix_tail σ t d1 spare) as [m Hm]; [exact Hms|].
      eexists. split; [exact Hm|].
      repeat split; try done.
      intros _. eapply sanity_ok; [reflexivity|]. left.
      rewrite length_replicate. change (Size _) with (Size d). lia.
Qed.

(** [fix] on a tensor of shape (2, 3) that has no buffer yet. *)
Lemma fix_then_sanity_witness :
  ∃ d', Dense_fix 1%positive [] (single emptyT) = Ret (tt, <[1%positive := d']> (single emptyT))
        ∧ (data emptyT = None →
             shape (ap d') = shape (ap emptyT)
             ∧ data d' = Some (replicate (Z.to_nat (Size emptyT)) (zeroValue (t_dtype emptyT))))
        ∧ (data emptyT ≠ None → data d' = data emptyT)
        ∧ (data emptyT ≠ None → shape (ap emptyT) = [] →
             shape (ap d') = if bool_decide (hdrLen emptyT = 1) then [] else [hdrLen emptyT])
        ∧ (data emptyT ≠ None → shape (ap emptyT) ≠ [] → ap d' = ap emptyT)
        ∧ (data emptyT = None ∨ shape (ap emptyT) = [] → sanity d' = Ret None).
Proof.
  apply (fix_then_sanity (single emptyT) 1%positive emptyT [] eq_refl).
  - repeat constructor; lia.
  - simpl. lia.
Defined.

(** X3.  On a masked tensor that has its buffer and its shape, [fix] only
    sizes the mask, to [shape[i] * maskStrides[i]] for the first positive
    mask stride: a mask of that length is kept, a mask of another length is
    replaced by one that masks nothing.  Without a positive mask stride
    [fix] changes nothing. *)
Theorem fix_resizes_mask (σ : Store) (t : loc) (d : Dense) (spare : list bool) :
  σ !! t = Some d → data d ≠ None → shape (ap d) ≠ [] → mask d ≠ [] →
  (∀ (i : nat) (s n : Z),
     maskStrides (ap d) !! i = Some s → 0 < s →
     Forall (fun m => m ≤ 0) (take i (maskStrides (ap d))) →
     shape (ap d) !! i = Some n → 1 ≤ n →
     Dense_fix t spare σ
     = Ret (tt, <[t := mkDense (ap d) (data d) (t_dtype d) (old d) (viewOf d)
                          (if bool_decide (Z.of_nat (length (mask d)) = n * s) then mask d
                           else replicate (Z.to_nat (n * s)) false)]> σ))
  ∧ (Forall (fun m => m ≤ 0) (maskStrides (ap d)) → Dense_fix t spare σ = Ret (tt, σ)).
Proof.
  intros Ht Hdata Hshape Hmask.
  assert (Hfix : Dense_fix t spare σ
                 = (size ← fix_maskSize (shape (ap d)) 0 (maskStrides (ap d));
                    '(_, σ') ← makeMask t spare size σ; Ret (tt, σ'))).
  { unfold Dense_fix. cbv beta. rewrite (deref_Some _ _ _ Ht). cbn [mbind outcome_bind].
    rewrite (bool_decide_eq_false_2 (data d = None)) by exact Hdata.
    rewrite andb_false_r. cbn [negb].
    rewrite (bool_decide_eq_false_2 (shape (ap d) = [])) by exact Hshape.
    cbn [andb mbind outcome_bind]. rewrite (deref_Some _ _ _ Ht). cbn [mbind outcome_bind].
    unfold IsMasked. rewrite (bool_decide_eq_false_2 (mask d = [])) by exact Hmask.
    cbn [negb]. destruct (fix_maskSize (shape (ap d)) 0 (maskStrides (ap d))); reflexivity. }
  rewrite Hfix. split.
  - intros i s n Hi Hs Hpre Hn Hn1.
    pose proof (fix_maskSize_first (shape (ap d)) (maskStrides (ap d)) 0 i s n Hi Hs Hpre Hn) as E.
    change (Z.of_nat 0) with 0 in E. rewrite E.
    cbn [mbind outcome_bind]. rewrite (makeMask_cases σ t d spare (n * s) Ht).
    rewrite (bool_decide_eq_false_2 (n * s < 1)) by nia. cbn [orb mbind outcome_bind].
    case_bool_decide; [|reflexivity].
    rewrite Dense_eta, (insert_id σ t d Ht). reflexivity.
  - intros Hall. rewrite (fix_maskSize_none _ _ 0 Hall). cbn [mbind outcome_bind].
    rewrite (makeMask_cases σ t d spare 0 Ht).
    rewrite (bool_decide_eq_true_2 (0 < 1)) by lia. reflexivity.
Qed.

(** [fix] on a mask of three entries where the strides call for two. *)
Lemma fix_resizes_mask_witness :
  Dense_fix 1%positive [] (single staleT)
  = Ret (tt, <[1%positive := mkDense (ap staleT) (data staleT) (t_dtype staleT) (old staleT)
                               (viewOf staleT)
                               (if bool_decide (Z.of_nat (length (mask staleT)) = 2 * 1)
                                then mask staleT
                                else replicate (Z.to_nat (2 * 1)) false)]> (single staleT)).
Proof.
  apply (proj1 (fix_resizes_mask (single staleT) 1%positive staleT [] eq_refl
                  ltac:(discriminate) ltac:(discriminate) ltac:(discriminate)) 2%nat 1 2).
  - reflexivity.
  - lia.
  - repeat constructor; lia.
  - reflexivity.
  - lia.
Defined.

(** X4.  [newDense(dt, size)] with [size >= 1] does not panic: it returns
    a new tensor of shape [(size)] and stride 1 with a buffer of [size]
    zero values, no mask, no backup and no parent, and leaves every other
    tensor as it was; [sanity] passes on what [setShape] and [fix] built. *)
Theorem newDense_returns (dt : Dtype) (size : Z) (σ : Store) :
  1 ≤ size →
  newDense' dt size σ
  = Ret (fresh (dom σ),
         <[fresh (dom σ) := mkDense (mkAP [size] [1] [])
                              (Some (replicate (Z.to_nat size) (zeroValue dt)))
                              dt None None []]> σ).
Proof.
  intros Hsize. unfold newDense'. cbv zeta.
  set (p := fresh (dom σ)).
  unfold setShape. rewrite (deref_Some _ _ _ (lookup_insert_eq _ _ _)).
  cbn [mbind outcome_bind]. rewrite insert_insert_eq.
  unfold SetShape. cbn [calcStrides ap data t_dtype old viewOf mask maskStrides].
  change (TotalSize []) with 1.
  set (d1 := mkDense (mkAP [size] [1] []) None dt None None []).
  unfold Dense_fix. rewrite (deref_Some _ _ _ (lookup_insert_eq _ _ _)).
  cbn [mbind outcome_bind].
  assert (HT : TotalSize (shape (ap d1)) = size).
  { cbn. rewrite TotalSize_cons. change (TotalSize []) with 1. lia. }
  rewrite (bool_decide_eq_true_2 (data d1 = None)) by reflexivity.
  rewrite (bool_decide_eq_false_2 (shape (ap d1) = [])) by discriminate.
  rewrite HT. rewrite andb_true_r. cbn [andb].
  assert (Hmake : (if IsScalar d1 then makeArray p 1 (<[p := d1]> σ)
                   else makeArray p size (<[p := d1]> σ))
                  = Ret (tt, <[p := mkDense (mkAP [size] [1] [])
                                      (Some (replicate (Z.to_nat size) (zeroValue dt)))
                                      dt None None []]> σ)).
  { assert (Hm : makeArray p size (<[p := d1]> σ)
                 = Ret (tt, <[p := mkDense (mkAP [size] [1] [])
                                      (Some (replicate (Z.to_nat size) (zeroValue dt)))
                                      dt None None []]> σ)).
    { unfold makeArray. rewrite (deref_Some _ _ _ (lookup_insert_eq _ _ _)).
      cbn [mbind outcome_bind]. rewrite bool_decide_eq_false_2 by lia.
      rewrite insert_insert_eq. reflexivity. }
    destruct (IsScalar d1) eqn:E; [|exact Hm].
    unfold IsScalar in E. cbn in E. apply bool_decide_eq_true in E.
    rewrite <- Hm. rewrite E. reflexivity. }
  rewrite Hmake. cbn [mbind outcome_bind].
  rewrite (deref_Some _ _ _ (lookup_insert_eq _ _ _)). cbn [mbind outcome_bind].
  unfold IsMasked. cbn [mask].
  rewrite (bool_decide_eq_true_2 (@nil bool = [])) by reflexivity.
  cbn [negb mbind outcome_bind].
  rewrite (deref_Some _ _ _ (lookup_insert_eq _ _ _)). cbn [mbind outcome_bind].
  rewrite (sanity_ok _ (replicate (Z.to_nat size) (zeroValue dt))); [reflexivity|reflexivity|].
  left. rewrite length_replicate. unfold Size. cbn. rewrite TotalSize_cons.
  change (TotalSize []) with 1. lia.
Qed.

(** [newDense(Int, 3)]. *)
Lemma newDense_returns_witness :
  newDense' Int 3 (single cubeT)
  = Ret (fresh (dom (single cubeT)),
         <[fresh (dom (single cubeT)) := mkDense (mkAP [3] [1] [])
                                           (Some (replicate (Z.to_nat 3) (zeroValue Int)))
                                           Int None None []]> (single cubeT)).
Proof. apply (newDense_returns Int 3 (single cubeT)). lia. Defined.

(** ** [Reshape] twice *)

(** On a tensor with a buffer [sanity] returns, with no error or with a
    shape mismatch. *)
Lemma sanity_total (d : Dense) :
  data d ≠ None →
  ∃ e, sanity d = Ret e ∧ (e = None ∨ e = Some shapeMismatch).
Proof.
  intros Hd. unfold sanity. destruct (data d) as [v|]; [|done].
  rewrite (bool_decide_eq_false_2 (Some v = None)) by discriminate. rewrite andb_false_r.
  destruct (_ && _ && _); eauto.
Qed.

(** [Reshape] on a tensor that is no view: a pending transposition is
    materialized, the shape is set, [sanity] is asked. *)
Lemma Reshape_eval (σ : Store) (t : loc) (d : Dense) :
  σ !! t = Some d → viewOf d = None →
  ∃ d0, (old d = None → d0 = d)
        ∧ old d0 = None ∧ viewOf d0 = None
        ∧ (data d ≠ None → data d0 ≠ None)
        ∧ ∀ x, Reshape t x σ
               = (e ← sanity (mkDense (SetShape (ap d0) x) (data d0) (t_dtype d0) (old d0)
                                (viewOf d0) (mask d0));
                  Ret (e, <[t := mkDense (SetShape (ap d0) x) (data d0) (t_dtype d0) (old d0)
                                   (viewOf d0) (mask d0)]> σ)).
Proof.
  intros Ht Hview. destruct (old d) as [o|] eqn:Hold.
  - eexists. split; [discriminate|].
    split; [|split; [|split]]; cycle 3.
    + intros x. unfold Reshape. rewrite (deref_Some _ _ _ Ht). cbn [mbind outcome_bind].
      rewrite (bool_decide_eq_false_2 (viewOf d ≠ None)) by (rewrite Hview; intros H; apply H; reflexivity).
      rewrite (bool_decide_eq_true_2 (old d ≠ None)) by (rewrite Hold; discriminate).
      unfold Transpose. rewrite (deref_Some _ _ _ Ht). cbn [mbind outcome_bind].
      unfold reshape, setShape. rewrite (deref_Some _ _ _ (lookup_insert_eq _ _ _)).
      cbn [mbind outcome_bind]. rewrite insert_insert_eq.
      rewrite (deref_Some _ _ _ (lookup_insert_eq _ _ _)). cbn [mbind outcome_bind].
      reflexivity.
    + reflexivity.
    + exact Hview.
    + cbn. destruct (data d); [discriminate | done].
  - exists d. split; [reflexivity|]. split; [exact Hold|]. split; [exact Hview|].
    split; [done|].
    intros x. unfold Reshape. rewrite (deref_Some _ _ _ Ht). cbn [mbind outcome_bind].
    rewrite (bool_decide_eq_false_2 (viewOf d ≠ None)) by (rewrite Hview; intros H; apply H; reflexivity).
    rewrite (bool_decide_eq_false_2 (old d ≠ None)) by (rewrite Hold; intros H; apply H; reflexivity).
    cbn [mbind outcome_bind].
    unfold reshape, setShape. rewrite (deref_Some _ _ _ Ht).
    cbn [mbind outcome_bind].
    rewrite (deref_Some _ _ _ (lookup_insert_eq _ _ _)). cbn [mbind outcome_bind].
    reflexivity.
Qed.

(** X6.  On a tensor that is no view and has a buffer, a [Reshape]
    followed by a second one gives the result and the store of the second
    one alone: the first leaves no trace, also when its validation
    failed. *)
Theorem Reshape_Reshape (σ : Store) (t : loc) (d : Dense) (a b : list Z) :
  σ !! t = Some d → viewOf d = None → data d ≠ None →
  ('(_, σ1) ← Reshape t a σ; Reshape t b σ1) = Reshape t b σ.
Proof.
  intros Ht Hview Hdata.
  destruct (Reshape_eval σ t d Ht Hview) as (d0 & _ & Hold0 & Hview0 & Hdata0 & Heval).
  specialize (Hdata0 Hdata).
  rewrite (Heval a), (Heval b).
  set (da := mkDense (SetShape (ap d0) a) (data d0) (t_dtype d0) (old d0) (viewOf d0) (mask d0)).
  destruct (sanity_total da Hdata0) as (ea & -> & _). cbn [mbind outcome_bind].
  destruct (Reshape_eval (<[t := da]> σ) t da (lookup_insert_eq _ _ _) Hview0)
    as (d1 & Hd1 & _ & _ & _ & Heval1).
  rewrite (Hd1 Hold0) in Heval1. rewrite (Heval1 b).
  rewrite insert_insert_eq. reflexivity.
Qed.

(** The test tensor reshaped to (3, 4), then to (4, 3). *)
Lemma Reshape_Reshape_witness :
  ('(_, σ1) ← Reshape 1%positive [3; 4] (single cubeT); Reshape 1%positive [4; 3] σ1)
  = Reshape 1%positive [4; 3] (single cubeT).
Proof.
  apply (Reshape_Reshape (single cubeT) 1%positive cubeT [3; 4] [4; 3] eq_refl eq_refl).
  discriminate.
Defined.

(** X7.  Round trip.  On a row-major tensor that is no view, has no
    backup and whose buffer matches its shape, reshaping to any dimensions
    and then back to the original shape restores the tensor and returns no
    error, also when the first [Reshape] reported a shape mismatch: it had
    set the shape before validating it. *)
Theorem Reshape_round_trip (σ : Store) (t : loc) (d : Dense) (v : list Value)
    (dims : list Z) :
  σ !! t = Some d → viewOf d = None → old d = None → data d = Some v →
  strides (ap d) = calcStrides (shape (ap d)) →
  Z.of_nat (length v) = Size d →
  ('(_, σ1) ← Reshape t dims σ; Reshape t (shape (ap d)) σ1) = Ret (None, σ).
Proof.
  intros Ht Hview Hold Hdata Hstrides Hlen.
  destruct (Reshape_eval σ t d Ht Hview) as (d0 & Hd0 & _ & _ & _ & Heval).
  rewrite (Hd0 Hold) in Heval. clear d0 Hd0. rewrite (Heval dims).
  set (da := mkDense (SetShape (ap d) dims) (data d) (t_dtype d) (old d) (viewOf d) (mask d)).
  destruct (sanity_total da) as (ea & -> & _); [cbn; rewrite Hdata; discriminate|].
  cbn [mbind outcome_bind].
  destruct (Reshape_eval (<[t := da]> σ) t da (lookup_insert_eq _ _ _) Hview)
    as (d1 & Hd1 & _ & _ & _ & Heval1).
  rewrite (Hd1 Hold) in Heval1. rewrite (Heval1 (shape (ap d))).
  assert (Hback : mkDense (SetShape (ap da) (shape (ap d))) (data da) (t_dtype da) (old da)
                    (viewOf da) (mask da) = d).
  { unfold SetShape. cbn. rewrite <- Hstrides. destruct d as [[] ? ? ? ? ?]. reflexivity. }
  rewrite Hback. rewrite (sanity_ok d v Hdata) by (left; exact Hlen).
  cbn [mbind outcome_bind]. rewrite insert_insert_eq, (insert_id σ t d Ht). reflexivity.
Qed.

(** The test tensor reshaped to (5), which fails, and back. *)
Lemma Reshape_round_trip_witness :
  ('(_, σ1) ← Reshape 1%positive [5] (single cubeT);
   Reshape 1%positive (shape (ap cubeT)) σ1) = Ret (None, single cubeT).
Proof.
  apply (Reshape_round_trip (single cubeT) 1%positive cubeT
           (replicate 12 (VBool false)) [5] eq_refl eq_refl eq_refl eq_refl).
  - reflexivity.
  - reflexivity.
Defined.

(** ** Edges and regions of uniform tensors *)

(** X8.  On a well-formed tensor with a masked element whose strides are
    the row-major strides of its shape, [FlatMaskedEdges] returns the first
    and the last masked flat index: the start of the first range of
    [FlatMaskedContiguous] and the end of its last range minus one. *)
Theorem FlatMaskedEdges_spec (σ : Store) (t : loc) (d : Dense) :
  σ !! t = Some d → wf d → strides (ap d) = calcStrides (shape (ap d)) →
  (∃ n, flags d !! n = Some true) →
  ∃ s e l e1 sL,
    FlatMaskedEdges t σ = Ret ((s, e), σ)
    ∧ FlatMaskedContiguous t σ = Ret (ranges l, σ)
    ∧ head l = Some (s, e1) ∧ last l = Some (sL, e + 1)
    ∧ firstAt true (flags d) s ∧ lastAt true (flags d) e.
Proof.
  intros Ht Hwf Hst Hex.
  assert (Hm : mask d ≠ []).
  { intros Hm. destruct Hex as [n Hn]. unfold flags in Hn. rewrite Hm in Hn.
    rewrite list_lookup_fmap in Hn. destruct (maskOffsets d !! n); discriminate. }
  destruct (edges_spec true d Hwf Hst Hex)
    as (s & e & its & ite & Hs & He & Hfirst & Hlast).
  destruct (contiguous_spec true d Hwf Hst) as (l & Hl & Hreg).
  rewrite <- (length_flags d Hwf) in Hreg.
  destruct (regions_head _ _ _ _ Hreg Hfirst) as (e1 & Hhead).
  destruct (regions_last _ _ _ _ Hreg Hlast) as (sL & HlastR).
  exists s, e, l, e1, sL.
  destruct (FlatContiguous_unfold σ t d Ht) as [_ ->]. rewrite Hl.
  unfold FlatMaskedEdges, deref, IsMasked, NextInvalid.
  rewrite Ht. cbn [mbind outcome_bind]. rewrite bool_decide_eq_false_2 by exact Hm.
  cbn [negb]. rewrite Hs. cbn [mbind outcome_bind]. rewrite He.
  split; [reflexivity|]. auto.
Qed.

(** The masked edges of the test tensor. *)
Lemma FlatMaskedEdges_spec_witness :
  ∃ s e l e1 sL,
    FlatMaskedEdges 1%positive (single cubeT) = Ret ((s, e), single cubeT)
    ∧ FlatMaskedContiguous 1%positive (single cubeT) = Ret (ranges l, single cubeT)
    ∧ head l = Some (s, e1) ∧ last l = Some (sL, e + 1)
    ∧ firstAt true (flags cubeT) s ∧ lastAt true (flags cubeT) e.
Proof.
  apply (FlatMaskedEdges_spec (single cubeT) 1%positive cubeT eq_refl wf_cubeT eq_refl).
  exists 0%nat. reflexivity.
Defined.

(** A search for a state that does not occur ends with the sentinel. *)
Lemma seekIt_none (want : bool) (msk : list bool) (rest : list (Z * Z)) (last : Z) :
  Forall (fun e => inMask msk e.2) rest →
  (∀ n, restFlags msk rest !! n ≠ Some want) →
  ∃ it', seekIt want (mkMultIterator msk rest last) = Ret ((-1, Some noopError), it').
Proof.
  intros Hin Hno.
  destruct (seekIt_spec want msk rest last Hin)
    as [(pre & i & mi & suf & Hrest & _ & Hflag & _) | (_ & last' & Hseek)].
  - exfalso. apply (Hno (length pre)). rewrite Hrest, restFlags_app, restFlags_cons.
    rewrite lookup_app_r by (rewrite length_restFlags; lia).
    rewrite length_restFlags, Nat.sub_diag. simpl. rewrite Hflag. reflexivity.
  - eauto.
Qed.

(** The flags of a reversed traversal. *)
Lemma restFlags_reverse (msk : list bool) (rest : list (Z * Z)) :
  restFlags msk (reverse rest) = reverse (restFlags msk rest).
Proof. unfold restFlags. apply fmap_reverse. Qed.

(** X9.  When the tensor has a mask buffer and the state sought does not
    occur, the edge finders return (-1, -1): [FlatNotMaskedEdges] when every
    element is masked, [FlatMaskedEdges] when none is. *)
Theorem FlatEdges_none (σ : Store) (t : loc) (d : Dense) :
  σ !! t = Some d → wf d → mask d ≠ [] →
  ((∀ n, flags d !! n ≠ Some false) → FlatNotMaskedEdges t σ = Ret ((-1, -1), σ))
  ∧ ((∀ n, flags d !! n ≠ Some true) → FlatMaskedEdges t σ = Ret ((-1, -1), σ)).
Proof.
  intros Ht Hwf Hm.
  pose proof (inMask_MultIterator d Hwf) as Hin.
  assert (Hnone : ∀ want, (∀ n, flags d !! n ≠ Some want) →
            ∃ its ite,
              seekIt want (MultIteratorFromDense d) = Ret ((-1, Some noopError), its)
              ∧ seekIt want (SetReverse (MultIteratorFromDense d))
                = Ret ((-1, Some noopError), ite)).
  { intros want Hno. rewrite <- flags_MultIterator in Hno.
    change (MultIteratorFromDense d)
      with (mkMultIterator (mask d) (it_rest (MultIteratorFromDense d)) 0) at 1 2.
    unfold SetReverse. cbn [it_mask it_rest it_last].
    destruct (seekIt_none want (mask d) _ 0 Hin Hno) as [its Hs].
    destruct (seekIt_none want (mask d) (reverse (it_rest (MultIteratorFromDense d))) 0)
      as [ite He].
    - apply Forall_reverse, Hin.
    - intros n Hn. rewrite restFlags_reverse in Hn.
      apply list_elem_of_lookup_2, elem_of_reverse, list_elem_of_lookup_1 in Hn as [n' Hn'].
      rewrite reverse_involutive in Hn'. exact (Hno n' Hn').
    - eauto. }
  split; intros Hno; destruct (Hnone _ Hno) as (its & ite & Hs & He).
  - unfold FlatNotMaskedEdges, deref, IsMasked, NextValid.
    rewrite Ht. cbn [mbind outcome_bind]. rewrite bool_decide_eq_false_2 by exact Hm.
    cbn [negb]. rewrite Hs. cbn [mbind outcome_bind]. rewrite He. reflexivity.
  - unfold FlatMaskedEdges, deref, IsMasked, NextInvalid.
    rewrite Ht. cbn [mbind outcome_bind]. rewrite bool_decide_eq_false_2 by exact Hm.
    cbn [negb]. rewrite Hs. cbn [mbind outcome_bind]. rewrite He. reflexivity.
Qed.

(** A row that is masked throughout, and one in which nothing is. *)
Lemma FlatEdges_none_witness :
  FlatNotMaskedEdges 1%positive (single maskedRowT) = Ret ((-1, -1), single maskedRowT)
  ∧ FlatMaskedEdges 1%positive (single clearRowT) = Ret ((-1, -1), single clearRowT).
Proof.
  split.
  - apply (proj1 (FlatEdges_none (single maskedRowT) 1%positive maskedRowT eq_refl
                    wf_maskedRowT ltac:(discriminate))).
    intros n. apply (flags_replicate_ne true 12 n).
  - apply (proj2 (FlatEdges_none (single clearRowT) 1%positive clearRowT eq_refl
                    wf_clearRowT ltac:(discriminate))).
    intros n. apply (flags_replicate_ne false 12 n).
Defined.

(** The coordinates of a shape without an empty dimension start with the
    origin. *)
Lemma coords_first (sh : Shape) :
  Forall (fun n => 1 ≤ n) sh →
  ∃ tl, coords sh = replicate (length sh) 0 :: tl.
Proof.
  induction 1 as [|n sh Hn _ [tl IH]]; [exists []; reflexivity|].
  cbn [coords length replicate]. rewrite seqZ_cons by lia.
  rewrite bind_cons, IH, fmap_cons. eexists. reflexivity.
Qed.

Lemma offsetOf_origin (st : list Z) (k : nat) : offsetOf st (replicate k 0) = 0.
Proof.
  unfold offsetOf. revert st. induction k as [|k IH]; intros [|s st]; try reflexivity.
  cbn [replicate zip_with foldr]. rewrite IH. reflexivity.
Qed.

(** The first element of the iterator of a well-formed tensor has the flat
    data index 0, whatever the strides. *)
Lemma MultIterator_first (d : Dense) :
  wf d → ∃ mi suf, it_rest (MultIteratorFromDense d) = (0, mi) :: suf.
Proof.
  intros (_ & _ & Hsh & _). destruct (coords_first _ Hsh) as [tl Htl].
  unfold MultIteratorFromDense. cbn [it_rest]. rewrite Htl, fmap_cons.
  rewrite offsetOf_origin. eauto.
Qed.

(** The loop of the finders when the state sought first does not occur. *)
Lemma contiguous_loop_absent (fuel : nat) (first : bool) (size : Z) (msk : list bool)
    (rest : list (Z * Z)) (last : Z) :
  Forall (fun e => inMask msk e.2) rest →
  (∀ n, restFlags msk rest !! n ≠ Some first) →
  contiguous_loop (S fuel) first size (mkMultIterator msk rest last) [] = Ret [].
Proof.
  intros Hin Hno. cbn [contiguous_loop].
  destruct (seekIt_spec first msk rest last Hin)
    as [(pre & i & mi & suf & Hrest & _ & Hflag & _) | (_ & last' & ->)].
  - exfalso. apply (Hno (length pre)). rewrite Hrest, restFlags_app, restFlags_cons.
    rewrite lookup_app_r by (rewrite length_restFlags; lia).
    rewrite length_restFlags, Nat.sub_diag. simpl. rewrite Hflag. reflexivity.
  - reflexivity.
Qed.

(** The loop of the finders when the first element is at the flat index 0
    and the other state does not occur. *)
Lemma contiguous_loop_uniform (fuel : nat) (first : bool) (size : Z) (msk : list bool)
    (mi : Z) (suf : list (Z * Z)) (last : Z) :
  Forall (fun e => inMask msk e.2) ((0, mi) :: suf) →
  (∀ n, restFlags msk ((0, mi) :: suf) !! n ≠ Some (negb first)) →
  contiguous_loop (S fuel) first size (mkMultIterator msk ((0, mi) :: suf) last) []
  = Ret [makeRS 0 size].
Proof.
  intros Hin Hno. cbn [contiguous_loop].
  assert (Hmi : flagAt msk mi = first).
  { specialize (Hno 0%nat). rewrite restFlags_cons in Hno. simpl in Hno.
    destruct (flagAt msk mi), first; try reflexivity; exfalso; apply Hno; reflexivity. }
  destruct (seekIt_spec first msk _ last Hin)
    as [(pre & i & mi' & suf' & Hrest & Hpre & _ & ->) | (Hall & _)].
  - destruct pre as [|e pre].
    + simpl in Hrest. injection Hrest as <- <- <-. cbn [mbind outcome_bind].
      apply Forall_inv_tail in Hin.
      destruct (seekIt_none (negb first) msk suf mi Hin) as [it' ->].
      { intros n Hn. apply (Hno (S n)). rewrite restFlags_cons. exact Hn. }
      cbn [mbind outcome_bind]. reflexivity.
    + exfalso. simpl in Hrest. injection Hrest as <- _.
      apply Forall_inv in Hpre. simpl in Hpre. congruence.
  - exfalso. apply Forall_inv in Hall. simpl in Hall. congruence.
Qed.

(** X10.  On a well-formed tensor in which nothing is masked, a tensor
    without a mask buffer included, [FlatNotMaskedContiguous] returns the
    single range [[0, size)] and [FlatMaskedContiguous] returns no range;
    when every element is masked it is the other way round. *)
Theorem FlatContiguous_uniform (σ : Store) (t : loc) (d : Dense) :
  σ !! t = Some d → wf d →
  ((∀ n, flags d !! n ≠ Some true) →
     FlatNotMaskedContiguous t σ = Ret ([makeRS 0 (Size d)], σ)
     ∧ FlatMaskedContiguous t σ = Ret ([], σ))
  ∧ ((∀ n, flags d !! n ≠ Some false) →
     FlatMaskedContiguous t σ = Ret ([makeRS 0 (Size d)], σ)
     ∧ FlatNotMaskedContiguous t σ = Ret ([], σ)).
Proof.
  intros Ht Hwf.
  destruct (FlatContiguous_unfold σ t d Ht) as [-> ->].
  destruct (MultIterator_first d Hwf) as (mi & suf & Hrest).
  pose proof (inMask_MultIterator d Hwf) as Hin.
  rewrite <- flags_MultIterator.
  split; intros Hno;
    change (MultIteratorFromDense d)
      with (mkMultIterator (mask d) (it_rest (MultIteratorFromDense d)) 0) at 2 4.
  - rewrite (contiguous_loop_absent _ true _ _ _ _ Hin Hno).
    rewrite Hrest in Hin, Hno |- *.
    rewrite (contiguous_loop_uniform _ false _ _ _ _ _ Hin Hno).
    split; reflexivity.
  - rewrite (contiguous_loop_absent _ false _ _ _ _ Hin Hno).
    rewrite Hrest in Hin, Hno |- *.
    rewrite (contiguous_loop_uniform _ true _ _ _ _ _ Hin Hno).
    split; reflexivity.
Qed.

(** A tensor without a mask, and a row that is masked throughout. *)
Lemma FlatContiguous_uniform_witness :
  (FlatNotMaskedContiguous 1%positive (single plainT)
   = Ret ([makeRS 0 (Size plainT)], single plainT)
   ∧ FlatMaskedContiguous 1%positive (single plainT) = Ret ([], single plainT))
  ∧ (FlatMaskedContiguous 1%positive (single maskedRowT)
     = Ret ([makeRS 0 (Size maskedRowT)], single maskedRowT)
     ∧ FlatNotMaskedContiguous 1%positive (single maskedRowT) = Ret ([], single maskedRowT)).
Proof.
  split.
  - apply (proj1 (FlatContiguous_uniform (single plainT) 1%positive plainT eq_refl wf_plainT)).
    intros n. apply (flags_replicate_ne false 12 n).
  - apply (proj2 (FlatContiguous_uniform (single maskedRowT) 1%positive maskedRowT eq_refl
                    wf_maskedRowT)).
    intros n. apply (flags_replicate_ne true 12 n).
Defined.

(** Every flat index has a flag. *)
Lemma flags_lookup (d : Dense) (i : Z) :
  wf d → 0 ≤ i < Size d → ∃ b, flags d !! Z.to_nat i = Some b.
Proof.
  intros Hwf Hi. apply lookup_lt_is_Some_2. pose proof (length_flags d Hwf). lia.
Qed.

(** X11.  On a well-formed tensor whose strides are the row-major strides
    of its shape, [ClumpMasked] and [ClumpUnmasked] partition the flattened
    tensor: every flat index lies in a range of exactly one of the two, and
    every range ends at the size of the tensor or where a range of the other
    kind starts. *)
Theorem Clumps_partition (σ : Store) (t : loc) (d : Dense) :
  σ !! t = Some d → wf d → strides (ap d) = calcStrides (shape (ap d)) →
  ∃ lm lu,
    ClumpMasked t σ = Ret (ranges lm, σ)
    ∧ ClumpUnmasked t σ = Ret (ranges lu, σ)
    ∧ (∀ i, 0 ≤ i < Size d →
         (covered lm i ∧ ¬ covered lu i) ∨ (covered lu i ∧ ¬ covered lm i))
    ∧ (∀ s e, (s, e) ∈ lm → e = Size d ∨ ∃ e', (e, e') ∈ lu)
    ∧ (∀ s e, (s, e) ∈ lu → e = Size d ∨ ∃ e', (e, e') ∈ lm).
Proof.
  intros Ht Hwf Hst. unfold ClumpMasked, ClumpUnmasked.
  destruct (FlatContiguous_unfold σ t d Ht) as [-> ->].
  destruct (contiguous_spec false d Hwf Hst) as (lu & -> & Hu).
  destruct (contiguous_spec true d Hwf Hst) as (lm & -> & Hm).
  cbn [mbind outcome_bind]. exists lm, lu.
  split; [reflexivity|]. split; [reflexivity|].
  assert (Hnext : ∀ want l l', regions want (flags d) (Size d) l →
            regions (negb want) (flags d) (Size d) l' →
            ∀ s e, (s, e) ∈ l → e = Size d ∨ ∃ e', (e, e') ∈ l').
  { intros want l l' (Hchain & Hcov & Hmax & _) (Hchain' & Hcov' & Hmax' & _) s e Hin.
    destruct (Hmax s e Hin) as [_ [He | He]]; [left; exact He | right].
    destruct (chain_bounds _ _ _ _ _ Hchain Hin) as (Hs0 & Hse & Hen).
    assert (Hlt : e < Size d).
    { apply lookup_lt_Some in He. pose proof (length_flags d Hwf). lia. }
    assert (Hc : covered l' e) by (apply Hcov'; [lia | exact He]).
    destruct Hc as (s' & e' & Hin' & Hrange).
    exists e'. replace e with s'; [exact Hin'|].
    destruct (Hmax' s' e' Hin') as [[Hs' | Hs'] _]; [|].
    - (* s' = 0: then e - 1 lies in both *)
      subst s'. destruct (Z.eq_dec e 0) as [|Hne]; [lia|]. exfalso.
      assert (H1 : covered l (e - 1)) by (exists s, e; split; [exact Hin | lia]).
      assert (H2 : covered l' (e - 1)) by (exists 0, e'; split; [exact Hin' | lia]).
      apply Hcov in H1; [|lia]. apply Hcov' in H2; [|lia].
      rewrite H1 in H2. destruct want; discriminate.
    - destruct (Z.eq_dec s' e) as [|Hne]; [assumption|]. exfalso.
      assert (H1 : covered l (e - 1)) by (exists s, e; split; [exact Hin | lia]).
      assert (H2 : covered l' (e - 1)) by (exists s', e'; split; [exact Hin' | lia]).
      apply Hcov in H1; [|lia]. apply Hcov' in H2; [|lia].
      rewrite H1 in H2. destruct want; discriminate. }
  split; [|split].
  - intros i Hi. destruct Hu as (_ & Hcu & _). destruct Hm as (_ & Hcm & _).
    destruct (flags_lookup d i Hwf Hi) as [[] Hb].
    + left. split; [apply Hcm; auto|]. intros Hc. apply Hcu in Hc; [|exact Hi]. congruence.
    + right. split; [apply Hcu; auto|]. intros Hc. apply Hcm in Hc; [|exact Hi]. congruence.
  - exact (Hnext true lm lu Hm Hu).
  - exact (Hnext false lu lm Hu Hm).
Qed.

(** The clumps of the test tensor. *)
Lemma Clumps_partition_witness :
  ∃ lm lu,
    ClumpMasked 1%positive (single cubeT) = Ret (ranges lm, single cubeT)
    ∧ ClumpUnmasked 1%positive (single cubeT) = Ret (ranges lu, single cubeT)
    ∧ (∀ i, 0 ≤ i < Size cubeT →
         (covered lm i ∧ ¬ covered lu i) ∨ (covered lu i ∧ ¬ covered lm i))
    ∧ (∀ s e, (s, e) ∈ lm → e = Size cubeT ∨ ∃ e', (e, e') ∈ lu)
    ∧ (∀ s e, (s, e) ∈ lu → e = Size cubeT ∨ ∃ e', (e, e') ∈ lm).
Proof.
  apply (Clumps_partition (single cubeT) 1%positive cubeT eq_refl wf_cubeT eq_refl).
Defined.

(** ** Counts and regions *)

(** Counting a state in a list of flags. *)
Lemma countOf_app (want : bool) (l1 l2 : list bool) :
  countOf want (l1 ++ l2) = countOf want l1 + countOf want l2.
Proof. unfold countOf. destruct want; rewrite countTrue_app, ?length_app; lia. Qed.

Lemma countOf_none (want : bool) (l : list bool) :
  Forall (fun b => b ≠ want) l → countOf want l = 0.
Proof.
  intros H. unfold countOf. destruct want.
  - apply countTrue_none, H.
  - assert (countTrue l = Z.of_nat (length l)); [|lia].
    apply countTrue_all. eapply Forall_impl; [exact H|]. intros []; simpl; congruence.
Qed.

Lemma countOf_all (want : bool) (l : list bool) :
  Forall (fun b => b = want) l → countOf want l = Z.of_nat (length l).
Proof.
  intros H. unfold countOf. destruct want.
  - apply countTrue_all, H.
  - rewrite countTrue_none; [lia|]. eapply Forall_impl; [exact H|]. intros []; simpl; congruence.
Qed.

Lemma countOf_cons_other (want : bool) (l : list bool) :
  countOf want (negb want :: l) = countOf want l.
Proof. unfold countOf. destruct want; simpl countTrue; simpl length; lia. Qed.

(** The length of a list of ranges, one range at a time. *)
Lemma rangesLength_cons (s e : Z) (l : list (Z * Z)) :
  rangesLength ((s, e) :: l) = e - s + rangesLength l.
Proof. reflexivity. Qed.

(** The ranges of the maximal runs of a state are as long together as
    the state occurs. *)
Lemma Runs_length (want : bool) (k : Z) (fl : list bool) (l : list (Z * Z)) :
  Runs want k fl l → rangesLength l = countOf want fl.
Proof.
  induction 1 as [k fl Hnone | k pre mid Hpre Hne Hmid | k pre mid suf l Hpre Hne Hmid _ IH].
  - rewrite (countOf_none _ _ Hnone). reflexivity.
  - rewrite countOf_app, (countOf_none _ _ Hpre), (countOf_all _ _ Hmid).
    rewrite rangesLength_cons. change (rangesLength []) with 0. lia.
  - rewrite !countOf_app, (countOf_none _ _ Hpre), (countOf_all _ _ Hmid).
    rewrite countOf_cons_other, <- IH, rangesLength_cons. lia.
Qed.

(** Under row-major strides the finders return the maximal runs of the
    flags of the tensor. *)
Lemma contiguous_Runs (first : bool) (d : Dense) :
  wf d → strides (ap d) = calcStrides (shape (ap d)) →
  ∃ l, contiguous_loop (S (length (it_rest (MultIteratorFromDense d)))) first (Size d)
         (MultIteratorFromDense d) [] = Ret (ranges l)
       ∧ Runs first 0 (flags d) l.
Proof.
  intros Hwf Hst. rewrite (MultIteratorFromDense_row_major d Hwf Hst). simpl it_rest.
  destruct (contiguous_loop_Runs (S (length (number 0 (maskOffsets d)))) first (mask d)
              (number 0 (maskOffsets d)) 0 0 [])
    as (l & Hloop & Hruns).
  - lia.
  - lia.
  - apply Forall_number, maskOffsets_inMask, Hwf.
  - apply consecutive_number.
  - rewrite restFlags_number in Hruns. fold (flags d) in Hruns.
    pose proof (length_flags d Hwf) as Hfl.
    rewrite length_number in Hloop.
    assert (Z.of_nat (length (maskOffsets d)) = Size d) as Hmo.
    { unfold flags in Hfl. rewrite length_fmap in Hfl. exact Hfl. }
    simpl in Hloop. rewrite Hmo in Hloop.
    exists l. split; [|exact Hruns].
    rewrite length_number. exact Hloop.
Qed.

(** Reading a mask at all its indices gives the mask. *)
Lemma flagAt_seqZ (m : list bool) : flagAt m <$> seqZ 0 (Z.of_nat (length m)) = m.
Proof.
  apply list_eq. intros i. rewrite list_lookup_fmap.
  destruct (decide (i < length m)%nat) as [Hi|Hi].
  - rewrite lookup_seqZ_lt by lia. cbn [fmap option_fmap option_map].
    destruct (lookup_lt_is_Some_2 m i Hi) as [b Hb]. rewrite Hb. f_equal.
    unfold flagAt. destruct m as [|b0 m']; [simpl in Hi; lia|].
    rewrite Z.add_0_l, Nat2Z.id, Hb. reflexivity.
  - rewrite lookup_seqZ_ge by lia. rewrite lookup_ge_None_2 by lia. reflexivity.
Qed.

(** Without a mask nothing is masked. *)
Lemma countTrue_unmasked (l : list Z) : countTrue (flagAt [] <$> l) = 0.
Proof. induction l as [|x l IH]; [reflexivity|]. rewrite fmap_cons. simpl. exact IH. Qed.

(** A mask buffer with one entry per element, in row-major order, is the
    list of the flags. *)
Lemma flags_dense (d : Dense) :
  wf d → maskStrides (ap d) = calcStrides (shape (ap d)) → MaskSize d = Size d →
  flags d = mask d.
Proof.
  intros (_ & _ & Hsh & _) Hms Hsize. unfold flags, maskOffsets. rewrite Hms.
  rewrite offsets_calcStrides by (eapply Forall_impl; [exact Hsh | intros; simpl in *; lia]).
  unfold MaskSize, Size in Hsize. rewrite <- Hsize. apply flagAt_seqZ.
Qed.

(** [doMaskCt] counts the masked elements when a mask with one entry per
    element lists the flags. *)
Lemma maskedCt_flags (d : Dense) :
  (MaskSize d = Size d → flags d = mask d) → maskedCt d = countTrue (flags d).
Proof.
  intros Hd. unfold maskedCt, IsMasked. case_bool_decide as Hm; cbn [negb].
  - unfold flags. rewrite Hm. symmetry. apply countTrue_unmasked.
  - case_bool_decide as Hs; [|reflexivity]. rewrite (Hd Hs). reflexivity.
Qed.

(** X12.  [MaskedCount()] is the total length of the ranges of
    [FlatMaskedContiguous] and [NonMaskedCount()] the total length of the
    ranges of [FlatNotMaskedContiguous], on a well-formed tensor whose
    strides are the row-major strides of its shape and whose mask, when it
    has one entry per element, is laid out in row-major order. *)
Theorem counts_are_clump_lengths (σ : Store) (t : loc) (d : Dense) :
  σ !! t = Some d → wf d → strides (ap d) = calcStrides (shape (ap d)) →
  (MaskSize d = Size d → maskStrides (ap d) = calcStrides (shape (ap d))) →
  ∃ lm lu,
    FlatMaskedContiguous t σ = Ret (ranges lm, σ)
    ∧ FlatNotMaskedContiguous t σ = Ret (ranges lu, σ)
    ∧ MaskedCount t [] σ = Ret (VInt (rangesLength lm), σ)
    ∧ NonMaskedCount t [] σ = Ret (VInt (rangesLength lu), σ).
Proof.
  intros Ht Hwf Hst Hdense.
  destruct (FlatContiguous_unfold σ t d Ht) as [-> ->].
  destruct (contiguous_Runs false d Hwf Hst) as (lu & -> & Hu).
  destruct (contiguous_Runs true d Hwf Hst) as (lm & -> & Hm).
  cbn [mbind outcome_bind]. exists lm, lu.
  split; [reflexivity|]. split; [reflexivity|].
  unfold MaskedCount, NonMaskedCount.
  rewrite !(MaskedReduce_whole σ t d _ _ [] Ht) by (left; reflexivity).
  destruct (callbacks_spec d Hwf) as (-> & -> & _). cbn [mbind outcome_bind].
  rewrite (Runs_length _ _ _ _ Hu), (Runs_length _ _ _ _ Hm).
  rewrite maskedCt_flags by (intros Hs; apply flags_dense; auto).
  unfold countOf. rewrite (length_flags d Hwf). split; reflexivity.
Qed.

(** The counts and the clumps of the test tensor. *)
Lemma counts_are_clump_lengths_witness :
  ∃ lm lu,
    FlatMaskedContiguous 1%positive (single cubeT) = Ret (ranges lm, single cubeT)
    ∧ FlatNotMaskedContiguous 1%positive (single cubeT) = Ret (ranges lu, single cubeT)
    ∧ MaskedCount 1%positive [] (single cubeT) = Ret (VInt (rangesLength lm), single cubeT)
    ∧ NonMaskedCount 1%positive [] (single cubeT)
      = Ret (VInt (rangesLength lu), single cubeT).
Proof.
  apply (counts_are_clump_lengths (single cubeT) 1%positive cubeT eq_refl wf_cubeT eq_refl).
  intros _. reflexivity.
Defined.

(** ** Axis-wise results and whole-tensor results *)

(** Sums of lists. *)
Lemma sumZ_app (l1 l2 : list Z) : sumZ (l1 ++ l2) = sumZ l1 + sumZ l2.
Proof. unfold sumZ. induction l1 as [|x l1 IH]; simpl; [reflexivity | rewrite IH; lia]. Qed.

Lemma sumZ_cons (x : Z) (l : list Z) : sumZ (x :: l) = x + sumZ l.
Proof. reflexivity. Qed.

Lemma sumZ_bind {A : Type} (f : A → list Z) (l : list A) :
  sumZ (l ≫= f) = sumZ ((fun x => sumZ (f x)) <$> l).
Proof.
  induction l as [|x l IH]; [reflexivity|].
  rewrite bind_cons, sumZ_app, fmap_cons, sumZ_cons, IH. reflexivity.
Qed.

Lemma sumZ_plus {A : Type} (f g : A → Z) (l : list A) :
  sumZ ((fun x => f x + g x) <$> l) = sumZ (f <$> l) + sumZ (g <$> l).
Proof.
  induction l as [|x l IH]; [reflexivity|].
  rewrite !fmap_cons, !sumZ_cons, IH. lia.
Qed.

Lemma sumZ_zero {A : Type} (l : list A) : sumZ ((fun _ => 0) <$> l) = 0.
Proof. induction l as [|x l IH]; [reflexivity|]. rewrite fmap_cons, sumZ_cons, IH. lia. Qed.

(** Two nested sums can be taken in either order. *)
Lemma sumZ_swap {A B : Type} (f : A → B → Z) (la : list A) (lb : list B) :
  sumZ ((fun a => sumZ ((fun b => f a b) <$> lb)) <$> la)
  = sumZ ((fun b => sumZ ((fun a => f a b) <$> la)) <$> lb).
Proof.
  induction la as [|a la IH].
  - cbn [fmap list_fmap]. change (sumZ []) with 0. symmetry. apply sumZ_zero.
  - rewrite fmap_cons, sumZ_cons, IH.
    rewrite <- sumZ_plus. f_equal.
Qed.

(** Counting is summing ones. *)
Lemma countTrue_sumZ {A : Type} (h : A → bool) (l : list A) :
  countTrue (h <$> l) = sumZ ((fun x => if h x then 1 else 0) <$> l).
Proof.
  induction l as [|x l IH]; [reflexivity|].
  rewrite !fmap_cons, sumZ_cons. cbn [countTrue]. rewrite IH. reflexivity.
Qed.

Lemma sumZ_ext {A : Type} (f g : A → Z) (l : list A) :
  (∀ x, x ∈ l → f x = g x) → sumZ (f <$> l) = sumZ (g <$> l).
Proof.
  intros H. f_equal. apply list_fmap_ext. intros i x Hx. apply H.
  eapply list_elem_of_lookup_2, Hx.
Qed.

(** Counting over a bind is summing the counts. *)
Lemma countTrue_bind {A : Type} (f : A → list bool) (l : list A) :
  countTrue (l ≫= f) = sumZ ((fun x => countTrue (f x)) <$> l).
Proof.
  induction l as [|x l IH]; [reflexivity|].
  rewrite bind_cons, countTrue_app, fmap_cons, sumZ_cons, IH. reflexivity.
Qed.

(** Counting along an axis and adding up over the other coordinates
    counts every coordinate of the shape once. *)
Lemma countTrue_axis (a : nat) :
  ∀ (sh : Shape) (n : Z) (h : list Z → bool),
    sh !! a = Some n →
    sumZ ((fun c => countTrue ((fun k => h (insertAt a k c)) <$> seqZ 0 n))
            <$> coords (delete a sh))
    = countTrue (h <$> coords sh).
Proof.
  induction a as [|a IH]; intros sh n h Ha.
  - destruct sh as [|n' sh]; [discriminate|]. injection Ha as ->.
    cbn [delete list_delete coords].
    rewrite fmap_list_bind, countTrue_bind.
    transitivity (sumZ ((fun c => sumZ ((fun k => if h (k :: c) then 1 else 0) <$> seqZ 0 n))
                          <$> coords sh)).
    { apply sumZ_ext. intros c _. rewrite countTrue_sumZ. reflexivity. }
    rewrite sumZ_swap. apply sumZ_ext. intros k _.
    rewrite <- list_fmap_compose, countTrue_sumZ. reflexivity.
  - destruct sh as [|n0 sh]; [discriminate|]. simpl in Ha.
    cbn [delete list_delete coords].
    rewrite !fmap_list_bind, countTrue_bind, sumZ_bind.
    apply sumZ_ext. intros i _.
    rewrite <- !list_fmap_compose.
    rewrite <- (IH sh n (h ∘ cons i) Ha). reflexivity.
Qed.

(** A single-index range keeps a dimension of length 1. *)
Lemma sliceDim_single_one (n i : Z) :
  0 ≤ i < n → sliceDim n (makeRS i (i + 1)) = Some (i, Some 1).
Proof. intros Hi. rewrite sliceDim_single by exact Hi. do 3 f_equal. lia. Qed.

(** The coordinates of a shape that starts with a dimension of length
    1. *)
Lemma coords_one (sh : Shape) : coords (1 :: sh) = cons 0 <$> coords sh.
Proof. cbn [coords]. change (seqZ 0 1) with [0]. rewrite bind_cons. apply app_nil_r. Qed.

(** Where a slice that fixes every dimension to one index reads the
    mask. *)
Lemma sliceAP_singles_mask (sh st ms c : list Z) :
  length st = length sh → length ms = length sh → inShape sh c = true →
  ∃ r, sliceAP sh st ms (singles c) = Some r
       ∧ offsetOf (maskStrides (sl_ap r)) <$> coords (shape (sl_ap r)) = [0]
       ∧ sl_mstart r = offsetOf ms c
       ∧ extent (shape (sl_ap r)) (maskStrides (sl_ap r)) = 1.
Proof.
  revert st ms c. induction sh as [|n sh IH]; intros [|s st] [|m ms] [|i c] L1 L2 Hc;
    simpl in L1, L2, Hc; try discriminate.
  - eexists. split; [reflexivity|]. repeat split.
  - apply andb_true_iff in Hc as [Hi Hc]. apply bool_decide_eq_true in Hi.
    destruct (IH st ms c) as (r & Hr & Hoff & Hstart & Hext); [lia|lia|exact Hc|].
    cbn [singles fmap list_fmap sliceAP]. fold (singles c).
    rewrite sliceDim_single_one by lia. cbn [mbind option_bind]. rewrite Hr.
    cbn [mbind option_bind]. eexists. split; [reflexivity|].
    cbn [sl_ap sl_mstart shape maskStrides].
    split; [|split].
    + rewrite coords_one, <- list_fmap_compose.
      erewrite list_fmap_ext; [|intros ? x _; unfold compose; rewrite offsetOf_cons; reflexivity].
      rewrite (list_fmap_compose (offsetOf (maskStrides (sl_ap r))) (Z.add (0 * m))).
      rewrite Hoff. reflexivity.
    + rewrite Hstart, offsetOf_cons. reflexivity.
    + rewrite extent_cons, Hext. lia.
Qed.

(** A bind of singletons is a map. *)
Lemma bind_singleton {A B : Type} (f : A → B) (l : list A) :
  (l ≫= fun x => [f x]) = f <$> l.
Proof. induction l as [|x l IH]; [reflexivity|]. rewrite bind_cons, IH. reflexivity. Qed.

(** Adding 0 changes nothing. *)
Lemma fmap_add_zero (z : Z) (l : list Z) : z = 0 → Z.add z <$> l = l.
Proof. intros ->. rewrite <- (list_fmap_id l) at 2. apply list_fmap_ext. intros; simpl; lia. Qed.

(** Where the sub-tensor of an output coordinate reads the mask: at the
    mask offset of the coordinate with 0 on the axis, and from there in
    steps of the mask stride of the axis. *)
Lemma sliceAP_axis_mask (sh st ms c : list Z) (a : nat) (n m_a : Z) :
  length st = length sh → length ms = length sh →
  sh !! a = Some n → ms !! a = Some m_a → inShape (delete a sh) c = true →
  ∃ r, sliceAP sh st ms (axisSlices a None c) = Some r
       ∧ offsetOf (maskStrides (sl_ap r)) <$> coords (shape (sl_ap r))
         = (fun k => k * m_a) <$> seqZ 0 n
       ∧ sl_mstart r = offsetOf ms (insertAt a 0 c)
       ∧ extent (shape (sl_ap r)) (maskStrides (sl_ap r)) = 1 + (n - 1) * m_a.
Proof.
  revert st ms c a. induction sh as [|k sh IH]; intros [|s st] [|m ms] c a L1 L2 Ha Hm Hc;
    simpl in L1, L2; try discriminate.
  destruct a as [|a].
  - simpl in Ha, Hm. injection Ha as ->. injection Hm as ->. simpl in Hc.
    unfold axisSlices, insertAt. simpl take. simpl drop. rewrite !drop_0. simpl app.
    destruct (sliceAP_singles_mask sh st ms c) as (r & Hr & Hoff & Hstart & Hext);
      [lia|lia|exact Hc|].
    cbn [sliceAP]. unfold sliceDim at 1. cbn [mbind option_bind]. rewrite Hr.
    cbn [mbind option_bind]. eexists. split; [reflexivity|].
    cbn [sl_ap sl_mstart shape maskStrides].
    split; [|split].
    + cbn [coords]. rewrite fmap_list_bind.
      rewrite <- (bind_singleton (fun k => k * m_a)).
      apply list_bind_ext; [|reflexivity]. intros i.
      rewrite <- list_fmap_compose.
      erewrite list_fmap_ext; [|intros ? x _; unfold compose; rewrite offsetOf_cons; reflexivity].
      rewrite (list_fmap_compose (offsetOf (maskStrides (sl_ap r))) (Z.add (i * m_a))).
      rewrite Hoff. cbn. f_equal. lia.
    + rewrite Hstart, offsetOf_cons. lia.
    + rewrite extent_cons, Hext. lia.
  - simpl in Ha, Hm. simpl in Hc. destruct c as [|i c]; [discriminate|].
    apply andb_true_iff in Hc as [Hi Hc]. apply bool_decide_eq_true in Hi.
    destruct (IH st ms c a) as (r & Hr & Hoff & Hstart & Hext);
      [lia|lia|exact Ha|exact Hm|exact Hc|].
    unfold axisSlices, insertAt in *. cbn [singles fmap list_fmap take drop app sliceAP].
    fold (singles c).
    rewrite sliceDim_single_one by lia. cbn [mbind option_bind]. rewrite Hr.
    cbn [mbind option_bind]. eexists. split; [reflexivity|].
    cbn [sl_ap sl_mstart shape maskStrides].
    split; [|split].
    + rewrite coords_one, <- list_fmap_compose.
      erewrite list_fmap_ext; [|intros ? x _; unfold compose; rewrite offsetOf_cons; reflexivity].
      rewrite (list_fmap_compose (offsetOf (maskStrides (sl_ap r))) (Z.add (0 * m))).
      rewrite Hoff. apply fmap_add_zero. lia.
    + rewrite Hstart, offsetOf_cons. reflexivity.
    + rewrite extent_cons, Hext. lia.
Qed.

(** The mask offset along the axis advances by the mask stride of the
    axis. *)
Lemma offsetOf_insertAt (a : nat) :
  ∀ (ms c : list Z) (k m_a : Z),
    ms !! a = Some m_a → (a ≤ length c)%nat →
    offsetOf ms (insertAt a k c) = offsetOf ms (insertAt a 0 c) + k * m_a.
Proof.
  induction a as [|a IH]; intros [|m ms] c k m_a Hm Hc; try discriminate.
  - injection Hm as ->. unfold insertAt. simpl take. rewrite !drop_0. simpl app.
    rewrite !offsetOf_cons. lia.
  - destruct c as [|i c]; [simpl in Hc; lia|]. simpl in Hm, Hc.
    change (insertAt (S a) k (i :: c)) with (i :: insertAt a k c).
    change (insertAt (S a) 0 (i :: c)) with (i :: insertAt a 0 c).
    rewrite !offsetOf_cons, (IH ms c k m_a Hm) by lia. lia.
Qed.

(** Reading a window of the mask is reading the mask. *)
Lemma flagAt_window (m : list bool) (b ext o : Z) :
  0 ≤ b → 0 ≤ o < ext → b + ext ≤ Z.of_nat (length m) →
  flagAt (window b ext m) o = flagAt m (b + o).
Proof.
  intros Hb Ho Hlen. unfold flagAt, window.
  assert (Hl : take (Z.to_nat ext) (drop (Z.to_nat b) m) !! Z.to_nat o
               = m !! Z.to_nat (b + o)).
  { rewrite lookup_take_lt by lia. rewrite lookup_drop. f_equal. lia. }
  destruct m as [|b0 m']; [simpl in Hlen; lia|].
  destruct (take (Z.to_nat ext) (drop (Z.to_nat b) (b0 :: m'))) as [|x l] eqn:E.
  - rewrite <- Hl. reflexivity.
  - rewrite Hl. reflexivity.
Qed.

(** The flags of the sub-tensor of an output coordinate are the flags of
    the tensor along the axis, and [doMaskCt] counts them. *)
Lemma flags_axis_slice (t : loc) (d ts : Dense) (a : nat) (n : Z) (c : list Z) :
  wf d → shape (ap d) !! a = Some n →
  inShape (delete a (shape (ap d))) c = true →
  Dense_Slice t d (axisSlices a None c) = Some ts →
  flags ts = (fun k => flagAt (mask d) (offsetOf (maskStrides (ap d)) (insertAt a k c)))
               <$> seqZ 0 n
  ∧ maskedCt ts = countTrue (flags ts).
Proof.
  intros Hwf Ha Hc Hts. pose proof Hwf as (L1 & L2 & Hsh & Hms & Hmask).
  assert (Hn : 1 ≤ n).
  { rewrite Forall_lookup in Hsh. exact (Hsh _ _ Ha). }
  destruct (lookup_lt_is_Some_2 (maskStrides (ap d)) a) as [m_a Hm].
  { rewrite L2. eapply lookup_lt_Some, Ha. }
  assert (Hm0 : 0 ≤ m_a) by (rewrite Forall_lookup in Hms; exact (Hms _ _ Hm)).
  assert (Hac : (a ≤ length c)%nat).
  { apply inShape_length in Hc. rewrite length_delete in Hc by eauto.
    apply lookup_lt_Some in Ha. lia. }
  assert (Hsize : Size ts = n).
  { destruct (Dense_Slice_axis t d a n c Hwf Ha Hc) as (ts' & Hts' & Hsz).
    rewrite Hts in Hts'. injection Hts' as <-. exact Hsz. }
  destruct (sliceAP_axis_mask _ (strides (ap d)) (maskStrides (ap d)) c a n m_a
              L1 L2 Ha Hm Hc) as (r & Hr & Hoff & Hstart & Hext).
  destruct (sliceAP_wf _ _ _ _ _ Hr Hsh Hms) as (_ & _ & _ & _ & B1 & B2).
  destruct (axisSlices_cons a None c) as (s & slices & E).
  rewrite E in *. rewrite Dense_Slice_cons, Hr in Hts. cbn [mbind option_bind] in Hts.
  injection Hts as Hts.
  assert (Hmts : mask ts = window (sl_mstart r) (1 + (n - 1) * m_a) (mask d)).
  { rewrite <- Hts. cbn [mask]. rewrite Hext. reflexivity. }
  assert (Hrel : flags ts = flagAt (mask ts) <$> ((fun k => k * m_a) <$> seqZ 0 n)).
  { unfold flags, maskOffsets. rewrite <- Hts at 2 3. cbn [ap]. rewrite Hoff. reflexivity. }
  clear Hts. split.
  - rewrite Hrel, <- list_fmap_compose. apply list_fmap_ext. intros i k Hk.
    apply lookup_seqZ in Hk as [-> Hi]. unfold compose.
    rewrite (offsetOf_insertAt a _ c _ m_a Hm Hac), <- Hstart, Hmts.
    destruct Hmask as [Hnil | Hlen].
    + rewrite Hnil, window_nil. reflexivity.
    + apply flagAt_window; [exact B1 | nia | nia].
  - apply maskedCt_flags. intros HMS. rewrite Hrel. unfold MaskSize in HMS.
    rewrite Hsize in HMS.
    destruct Hmask as [Hnil | Hlen].
    { rewrite Hmts, Hnil, window_nil in HMS. simpl in HMS. lia. }
    assert (Hwin : Z.of_nat (length (mask ts)) = 1 + (n - 1) * m_a).
    { rewrite Hmts. apply length_window; [exact B1 | nia | nia]. }
    assert (Hid : (fun k => k * m_a) <$> seqZ 0 n = seqZ 0 n).
    { rewrite <- (list_fmap_id (seqZ 0 n)) at 2. apply list_fmap_ext. intros i k Hk.
      apply lookup_seqZ in Hk as [-> Hi]. simpl. nia. }
    rewrite Hid, <- HMS. apply flagAt_seqZ.
Qed.

(** Reading elements that are all there. *)
Lemma mapM_fmap_Some_ext {A B : Type} (f : A → option B) (g : A → B) (l : list A) :
  (∀ x, x ∈ l → f x = Some (g x)) → mapM f l = Some (g <$> l).
Proof.
  induction l as [|x l IH]; intros H; [reflexivity|].
  cbn [mapM]. rewrite (H x) by left. cbn [mbind option_bind].
  rewrite IH by (intros y Hy; apply H; right; exact Hy). reflexivity.
Qed.

(** X13.  The elements of [MaskedCount(axis)] add up to [MaskedCount()],
    for a valid axis of a well-formed tensor that is no vector and whose
    mask, when it has one entry per element, is laid out in row-major
    order. *)
Theorem MaskedCount_axis_total (σ : Store) (t : loc) (d : Dense) (axis : nat) (n : Z)
    (more : list Z) :
  σ !! t = Some d → wf d → IsVector d = false →
  shape (ap d) !! axis = Some n →
  (MaskSize d = Size d → maskStrides (ap d) = calcStrides (shape (ap d))) →
  ∃ r rv vals total,
    MaskedCount t (Z.of_nat axis :: more) σ = Ret (VDense r, <[r := rv]> σ)
    ∧ elements rv = Some (VInt <$> vals)
    ∧ MaskedCount t [] σ = Ret (VInt total, σ)
    ∧ sumZ vals = total.
Proof.
  intros Ht Hwf Hvec Ha Hdense.
  destruct (MaskedReduce_axis_val σ t d Int doMaskCt (fun ts => VInt (maskedCt ts))
              axis n more Ht Hwf Hvec Ha) as (r & rv & Hrun & Hshape & Hel).
  { intros ts Hts. apply callbacks_spec, Hts. }
  set (h := fun x => flagAt (mask d) (offsetOf (maskStrides (ap d)) x)).
  set (cnt := fun c => countTrue ((fun k => h (insertAt axis k c)) <$> seqZ 0 n)).
  exists r, rv, (cnt <$> coords (delete axis (shape (ap d)))), (maskedCt d).
  split; [exact Hrun|]. split; [|split].
  - unfold elements. rewrite Hshape, <- list_fmap_compose.
    apply mapM_fmap_Some_ext. intros c Hc. apply elem_of_coords in Hc.
    destruct (Dense_Slice_axis t d axis n c Hwf Ha Hc) as (ts & Hts & _).
    destruct (Hel c ts Hc Hts) as (_ & _ & ->).
    destruct (flags_axis_slice t d ts axis n c Hwf Ha Hc Hts) as [Hfl ->].
    rewrite Hfl. reflexivity.
  - unfold MaskedCount. rewrite (MaskedReduce_whole σ t d _ _ [] Ht) by (left; reflexivity).
    destruct (callbacks_spec d Hwf) as (-> & _). reflexivity.
  - unfold cnt. rewrite (countTrue_axis axis (shape (ap d)) n h Ha).
    rewrite maskedCt_flags by (intros Hs; apply flags_dense; auto).
    unfold flags, maskOffsets. rewrite <- list_fmap_compose. reflexivity.
Qed.

(** The counts of the test tensor along axis 1. *)
Lemma MaskedCount_axis_total_witness :
  ∃ r rv vals total,
    MaskedCount 1%positive [1] (single cubeT) = Ret (VDense r, <[r := rv]> (single cubeT))
    ∧ elements rv = Some (VInt <$> vals)
    ∧ MaskedCount 1%positive [] (single cubeT) = Ret (VInt total, single cubeT)
    ∧ sumZ vals = total.
Proof.
  apply (MaskedCount_axis_total (single cubeT) 1%positive cubeT 1 3 [] eq_refl wf_cubeT
           eq_refl eq_refl).
  intros _. reflexivity.
Defined.

(** The flags that are not set are the others. *)
Lemma countTrue_fmap_negb {A : Type} (f : A → bool) (l : list A) :
  countTrue ((fun x => negb (f x)) <$> l) = Z.of_nat (length l) - countTrue (f <$> l).
Proof.
  induction l as [|x l IH]; [reflexivity|].
  rewrite !fmap_cons. cbn [countTrue length]. rewrite IH. destruct (f x); simpl; lia.
Qed.

(** X14.  The elements of [NonMaskedCount(axis)] add up to
    [NonMaskedCount()], for a valid axis of a well-formed tensor that is no
    vector and whose mask, when it has one entry per element, is laid out in
    row-major order. *)
Theorem NonMaskedCount_axis_total (σ : Store) (t : loc) (d : Dense) (axis : nat) (n : Z)
    (more : list Z) :
  σ !! t = Some d → wf d → IsVector d = false →
  shape (ap d) !! axis = Some n →
  (MaskSize d = Size d → maskStrides (ap d) = calcStrides (shape (ap d))) →
  ∃ r rv vals total,
    NonMaskedCount t (Z.of_nat axis :: more) σ = Ret (VDense r, <[r := rv]> σ)
    ∧ elements rv = Some (VInt <$> vals)
    ∧ NonMaskedCount t [] σ = Ret (VInt total, σ)
    ∧ sumZ vals = total.
Proof.
  intros Ht Hwf Hvec Ha Hdense.
  destruct (MaskedReduce_axis_val σ t d Int doNonMaskCt
              (fun ts => VInt (Size ts - maskedCt ts))
              axis n more Ht Hwf Hvec Ha) as (r & rv & Hrun & Hshape & Hel).
  { intros ts Hts. apply callbacks_spec, Hts. }
  set (h := fun x => flagAt (mask d) (offsetOf (maskStrides (ap d)) x)).
  set (cnt := fun c => countTrue ((fun k => negb (h (insertAt axis k c))) <$> seqZ 0 n)).
  exists r, rv, (cnt <$> coords (delete axis (shape (ap d)))), (Size d - maskedCt d).
  split; [exact Hrun|]. split; [|split].
  - unfold elements. rewrite Hshape, <- list_fmap_compose.
    apply mapM_fmap_Some_ext. intros c Hc. apply elem_of_coords in Hc.
    destruct (Dense_Slice_axis t d axis n c Hwf Ha Hc) as (ts & Hts & _).
    destruct (Hel c ts Hc Hts) as (Hwfts & Hsz & ->).
    destruct (flags_axis_slice t d ts axis n c Hwf Ha Hc Hts) as [Hfl ->].
    unfold compose, cnt. do 2 f_equal.
    rewrite countTrue_fmap_negb.
    change (flags ts = (fun k => h (insertAt axis k c)) <$> seqZ 0 n) in Hfl.
    rewrite <- Hfl.
    pose proof (Size_pos ts Hwfts). rewrite length_seqZ. lia.
  - unfold NonMaskedCount.
    rewrite (MaskedReduce_whole σ t d _ _ [] Ht) by (left; reflexivity).
    destruct (callbacks_spec d Hwf) as (_ & -> & _). reflexivity.
  - unfold cnt.
    rewrite (countTrue_axis axis (shape (ap d)) n (fun x => negb (h x)) Ha).
    rewrite maskedCt_flags by (intros Hs; apply flags_dense; auto).
    rewrite countTrue_fmap_negb. rewrite (length_coords (shape (ap d))).
    2:{ destruct Hwf as (_ & _ & Hsh & _). eapply Forall_impl; [exact Hsh|].
        intros; simpl in *; lia. }
    unfold flags, maskOffsets, Size. rewrite <- list_fmap_compose. reflexivity.
Qed.

(** The counts of the tensor with a broadcast mask along axis 2. *)
Lemma NonMaskedCount_axis_total_witness :
  ∃ r rv vals total,
    NonMaskedCount 1%positive [2] (single broadcastT)
    = Ret (VDense r, <[r := rv]> (single broadcastT))
    ∧ elements rv = Some (VInt <$> vals)
    ∧ NonMaskedCount 1%positive [] (single broadcastT) = Ret (VInt total, single broadcastT)
    ∧ sumZ vals = total.
Proof.
  apply (NonMaskedCount_axis_total (single broadcastT) 1%positive broadcastT 2 2 [] eq_refl
           wf_broadcastT eq_refl eq_refl).
  intros H. vm_compute in H. discriminate.
Defined.

(** A sum of numbers that are not negative: it is not negative, it is
    positive when one of them is, and it reaches [n] times their number
    when each of them, at most [n], is [n]. *)
Lemma sumZ_nonneg {A : Type} (f : A → Z) (l : list A) :
  (∀ x, x ∈ l → 0 ≤ f x) → 0 ≤ sumZ (f <$> l).
Proof.
  induction l as [|x l IH]; intros H; [done|].
  rewrite fmap_cons, sumZ_cons. pose proof (H x ltac:(left)).
  assert (0 ≤ sumZ (f <$> l)); [|lia]. apply IH. intros y Hy. apply H. right. exact Hy.
Qed.

Lemma sumZ_pos {A : Type} (f : A → Z) (l : list A) :
  (∀ x, x ∈ l → 0 ≤ f x) → 0 < sumZ (f <$> l) ↔ ∃ x, x ∈ l ∧ 0 < f x.
Proof.
  induction l as [|x l IH]; intros H.
  - change (sumZ (f <$> [])) with 0. split; [lia|]. intros (x & Hx & _). inversion Hx.
  - rewrite fmap_cons, sumZ_cons.
    assert (Hl : ∀ y, y ∈ l → 0 ≤ f y) by (intros y Hy; apply H; right; exact Hy).
    specialize (IH Hl). pose proof (H x ltac:(left)) as Hx.
    pose proof (sumZ_nonneg f l Hl) as Hs.
    split.
    + intros Hpos. destruct (decide (0 < f x)) as [Hfx|Hfx].
      * exists x. split; [left | exact Hfx].
      * destruct (proj1 IH) as (y & Hy & Hfy); [lia|]. exists y. split; [right|]; assumption.
    + intros (y & Hy & Hfy). apply elem_of_cons in Hy as [-> | Hy]; [lia|].
      assert (0 < sumZ (f <$> l)) by (apply IH; eauto). lia.
Qed.

Lemma sumZ_full {A : Type} (f : A → Z) (n : Z) (l : list A) :
  (∀ x, x ∈ l → f x ≤ n) →
  sumZ (f <$> l) ≤ n * Z.of_nat (length l)
  ∧ (sumZ (f <$> l) = n * Z.of_nat (length l) ↔ ∀ x, x ∈ l → f x = n).
Proof.
  induction l as [|x l IH]; intros H.
  - change (sumZ (f <$> [])) with 0. simpl. split; [lia|]. split; [|lia].
    intros _ x Hx. inversion Hx.
  - rewrite fmap_cons, sumZ_cons.
    assert (Hl : ∀ y, y ∈ l → f y ≤ n) by (intros y Hy; apply H; right; exact Hy).
    destruct (IH Hl) as [Hle Hiff]. pose proof (H x ltac:(left)) as Hx.
    simpl length. split; [nia|]. split.
    + intros Heq y Hy. apply elem_of_cons in Hy as [-> | Hy]; [nia|].
      apply Hiff; [nia | exact Hy].
    + intros Hall. rewrite (Hall x) by left.
      rewrite (proj2 Hiff) by (intros y Hy; apply Hall; right; exact Hy). nia.
Qed.

(** The size of a shape is the length of an axis times the size of the
    shape without it. *)
Lemma TotalSize_delete (a : nat) :
  ∀ (sh : Shape) (n : Z), sh !! a = Some n → TotalSize sh = n * TotalSize (delete a sh).
Proof.
  induction a as [|a IH]; intros [|k sh] n Ha; try discriminate.
  - injection Ha as ->. rewrite TotalSize_cons. reflexivity.
  - simpl in Ha. cbn [delete list_delete]. rewrite !TotalSize_cons, (IH sh n Ha).
    rewrite !Z.mul_assoc, (Z.mul_comm k n). reflexivity.
Qed.

(** What the elements of the axis-wise count are. *)
Lemma axis_counts (t : loc) (d : Dense) (axis : nat) (n : Z) :
  wf d → shape (ap d) !! axis = Some n →
  (MaskSize d = Size d → maskStrides (ap d) = calcStrides (shape (ap d))) →
  ∃ cnt : list Z → Z,
    (∀ c ts, inShape (delete axis (shape (ap d))) c = true →
             Dense_Slice t d (axisSlices axis None c) = Some ts →
             maskedCt ts = cnt c ∧ 0 ≤ cnt c ≤ n)
    ∧ sumZ (cnt <$> coords (delete axis (shape (ap d)))) = maskedCt d
    ∧ Size d = n * Z.of_nat (length (coords (delete axis (shape (ap d))))).
Proof.
  intros Hwf Ha Hdense.
  set (h := fun x => flagAt (mask d) (offsetOf (maskStrides (ap d)) x)).
  exists (fun c => countTrue ((fun k => h (insertAt axis k c)) <$> seqZ 0 n)).
  assert (Hn : 1 ≤ n).
  { destruct Hwf as (_ & _ & Hsh & _). rewrite Forall_lookup in Hsh. exact (Hsh _ _ Ha). }
  split; [|split].
  - intros c ts Hc Hts.
    destruct (flags_axis_slice t d ts axis n c Hwf Ha Hc Hts) as [Hfl ->].
    rewrite Hfl. split; [reflexivity|].
    pose proof (countTrue_bounds ((fun k => h (insertAt axis k c)) <$> seqZ 0 n)) as Hb.
    rewrite length_fmap, length_seqZ in Hb. fold h. lia.
  - rewrite (countTrue_axis axis (shape (ap d)) n h Ha).
    rewrite maskedCt_flags by (intros Hs; apply flags_dense; auto).
    unfold flags, maskOffsets. rewrite <- list_fmap_compose. reflexivity.
  - unfold Size. rewrite (TotalSize_delete axis _ n Ha). f_equal.
    symmetry. apply length_coords.
    destruct Hwf as (_ & _ & Hsh & _). apply Forall_delete_ge1 with (a := axis) in Hsh.
    eapply Forall_impl; [exact Hsh|]. intros; simpl in *; lia.
Qed.

(** X15.  [MaskedAny()] is true exactly when some element of
    [MaskedAny(axis)] is true, for a valid axis of a well-formed tensor that
    is no vector and whose mask, when it has one entry per element, is laid
    out in row-major order. *)
Theorem MaskedAny_axis_any (σ : Store) (t : loc) (d : Dense) (axis : nat) (n : Z)
    (more : list Z) :
  σ !! t = Some d → wf d → IsVector d = false →
  shape (ap d) !! axis = Some n →
  (MaskSize d = Size d → maskStrides (ap d) = calcStrides (shape (ap d))) →
  ∃ r rv bs b,
    MaskedAny t (Z.of_nat axis :: more) σ = Ret (VDense r, <[r := rv]> σ)
    ∧ elements rv = Some (VBool <$> bs)
    ∧ MaskedAny t [] σ = Ret (VBool b, σ)
    ∧ (b = true ↔ Exists (fun x => x = true) bs).
Proof.
  intros Ht Hwf Hvec Ha Hdense.
  destruct (MaskedReduce_axis_val σ t d Bool doMaskAny
              (fun ts => VBool (bool_decide (0 < maskedCt ts)))
              axis n more Ht Hwf Hvec Ha) as (r & rv & Hrun & Hshape & Hel).
  { intros ts Hts. apply callbacks_spec, Hts. }
  destruct (axis_counts t d axis n Hwf Ha Hdense) as (cnt & Hcnt & Hsum & _).
  exists r, rv, ((fun c => bool_decide (0 < cnt c)) <$> coords (delete axis (shape (ap d)))),
    (bool_decide (0 < maskedCt d)).
  split; [exact Hrun|]. split; [|split].
  - unfold elements. rewrite Hshape, <- list_fmap_compose.
    apply mapM_fmap_Some_ext. intros c Hc. apply elem_of_coords in Hc.
    destruct (Dense_Slice_axis t d axis n c Hwf Ha Hc) as (ts & Hts & _).
    destruct (Hel c ts Hc Hts) as (_ & _ & ->).
    destruct (Hcnt c ts Hc Hts) as [-> _]. reflexivity.
  - unfold MaskedAny. rewrite (MaskedReduce_whole σ t d _ _ [] Ht) by (left; reflexivity).
    destruct (callbacks_spec d Hwf) as (_ & _ & -> & _). reflexivity.
  - rewrite bool_decide_eq_true, <- Hsum, Exists_fmap, Exists_exists.
    rewrite sumZ_pos.
    + split; intros (c & Hc & H); exists c; (split; [exact Hc|]).
      * apply bool_decide_eq_true_2, H.
      * apply bool_decide_eq_true in H. exact H.
    + intros c Hc. apply elem_of_coords in Hc.
      destruct (Dense_Slice_axis t d axis n c Hwf Ha Hc) as (ts & Hts & _).
      destruct (Hcnt c ts Hc Hts) as [_ ?]. lia.
Qed.

(** [MaskedAny] of the test tensor along axis 0. *)
Lemma MaskedAny_axis_any_witness :
  ∃ r rv bs b,
    MaskedAny 1%positive [0] (single cubeT) = Ret (VDense r, <[r := rv]> (single cubeT))
    ∧ elements rv = Some (VBool <$> bs)
    ∧ MaskedAny 1%positive [] (single cubeT) = Ret (VBool b, single cubeT)
    ∧ (b = true ↔ Exists (fun x => x = true) bs).
Proof.
  apply (MaskedAny_axis_any (single cubeT) 1%positive cubeT 0 2 [] eq_refl wf_cubeT
           eq_refl eq_refl).
  intros _. reflexivity.
Defined.

(** X16.  [MaskedAll()] is true exactly when every element of
    [MaskedAll(axis)] is true, for a valid axis of a well-formed tensor that
    is no vector and whose mask, when it has one entry per element, is laid
    out in row-major order. *)
Theorem MaskedAll_axis_all (σ : Store) (t : loc) (d : Dense) (axis : nat) (n : Z)
    (more : list Z) :
  σ !! t = Some d → wf d → IsVector d = false →
  shape (ap d) !! axis = Some n →
  (MaskSize d = Size d → maskStrides (ap d) = calcStrides (shape (ap d))) →
  ∃ r rv bs b,
    MaskedAll t (Z.of_nat axis :: more) σ = Ret (VDense r, <[r := rv]> σ)
    ∧ elements rv = Some (VBool <$> bs)
    ∧ MaskedAll t [] σ = Ret (VBool b, σ)
    ∧ (b = true ↔ Forall (fun x => x = true) bs).
Proof.
  intros Ht Hwf Hvec Ha Hdense.
  destruct (MaskedReduce_axis_val σ t d Bool doMaskAll
              (fun ts => VBool (bool_decide (maskedCt ts = Size ts)))
              axis n more Ht Hwf Hvec Ha) as (r & rv & Hrun & Hshape & Hel).
  { intros ts Hts. apply callbacks_spec, Hts. }
  destruct (axis_counts t d axis n Hwf Ha Hdense) as (cnt & Hcnt & Hsum & Hsize).
  exists r, rv, ((fun c => bool_decide (cnt c = n)) <$> coords (delete axis (shape (ap d)))),
    (bool_decide (maskedCt d = Size d)).
  split; [exact Hrun|]. split; [|split].
  - unfold elements. rewrite Hshape, <- list_fmap_compose.
    apply mapM_fmap_Some_ext. intros c Hc. apply elem_of_coords in Hc.
    destruct (Dense_Slice_axis t d axis n c Hwf Ha Hc) as (ts & Hts & _).
    destruct (Hel c ts Hc Hts) as (_ & -> & ->).
    destruct (Hcnt c ts Hc Hts) as [-> _]. reflexivity.
  - unfold MaskedAll. rewrite (MaskedReduce_whole σ t d _ _ [] Ht) by (left; reflexivity).
    destruct (callbacks_spec d Hwf) as (_ & _ & _ & ->). reflexivity.
  - rewrite bool_decide_eq_true, <- Hsum, Hsize, Forall_fmap, Forall_forall.
    destruct (sumZ_full cnt n (coords (delete axis (shape (ap d))))) as [_ Hiff].
    + intros c Hc. apply elem_of_coords in Hc.
      destruct (Dense_Slice_axis t d axis n c Hwf Ha Hc) as (ts & Hts & _).
      destruct (Hcnt c ts Hc Hts) as [_ ?]. lia.
    + rewrite Hiff. split; intros H c Hc.
      * apply bool_decide_eq_true_2, H, Hc.
      * specialize (H c Hc). apply bool_decide_eq_true in H. exact H.
Qed.

(** [MaskedAll] of the first tensor with a broadcast mask along axis 2. *)
Lemma MaskedAll_axis_all_witness :
  ∃ r rv bs b,
    MaskedAll 1%positive [2] (single case1T) = Ret (VDense r, <[r := rv]> (single case1T))
    ∧ elements rv = Some (VBool <$> bs)
    ∧ MaskedAll 1%positive [] (single case1T) = Ret (VBool b, single case1T)
    ∧ (b = true ↔ Forall (fun x => x = true) bs).
Proof.
  apply (MaskedAll_axis_all (single case1T) 1%positive case1T 2 2 [] eq_refl wf_case1T
           eq_refl eq_refl).
  intros H. vm_compute in H. discriminate.
Defined.
